(** * sigqc: the PCA / H-Method numerical core and the reference-data codec

    A shallow embedding of [sigqc/sigqc_pca.py], [sigqc/sigqc_hmethod.py] and
    the reference-data part of [sigqc/sigqc_implementpca.py].

    Conventions of the embedding

    - A numpy 2-D array is the list of its rows ([matrix F]); [[]] is the
      0 x 0 array.  Arrays with exactly one zero dimension other than
      [n x 0] are not representable and never arise from a dataset with at
      least one unit and one feature.
    - The element type is abstract ([Scalar F]): the functions are written
      once for every arithmetic, the way the Python source is written for
      every numpy dtype.  No algebraic law is assumed unless a theorem
      lists it.  Concrete evaluations use exact rationals ([Qc]).
    - Summations ([np.sum], [np.mean], [np.dot], the builtin [sum]) add from
      left to right starting at 0.
    - A Python exception is a value [Raise e] of the type [result]. *)

From Stdlib Require Import String Ascii Bool Arith ZArith QArith Qcanon Lia List.
From Stdlib Require Import Permutation Sorted.
From Stdlib Require Import DecimalString DecimalPos DecimalZ.
Import ListNotations.

Set Implicit Arguments.
Local Open Scope nat_scope.
Local Open Scope list_scope.

(** ** Exceptions *)

Inductive exn : Type :=
| IndexError | ValueError | TypeError | NameError | StopIteration
| LinAlgError | UnitsError.

Inductive result (A : Type) : Type :=
| Ok (a : A)
| Raise (e : exn).

Arguments Ok {A} a.
Arguments Raise {A} e.

Definition bind {A B : Type} (c : result A) (k : A -> result B) : result B :=
  match c with
  | Ok a => k a
  | Raise e => Raise e
  end.

Notation "x <- c ;; k" := (bind c (fun x => k))
  (at level 61, c at next level, right associativity).
Notation "' pat <- c ;; k" := (bind c (fun x => match x with pat => k end))
  (at level 61, pat pattern, c at next level, right associativity).

Fixpoint mapM {A B : Type} (f : A -> result B) (l : list A) : result (list B) :=
  match l with
  | [] => Ok []
  | a :: l' => b <- f a ;; bs <- mapM f l' ;; Ok (b :: bs)
  end.

(** ** Scalars *)

(** The arithmetic of the array element type.  [of_Z] is the conversion of a
    Python [int]; [eqb] is [==] and [leb] is [<=]. *)
Class Scalar (F : Type) : Type := {
  of_Z : Z -> F;
  add : F -> F -> F;
  sub : F -> F -> F;
  mul : F -> F -> F;
  div : F -> F -> F;
  sqrt : F -> F;
  eqb : F -> F -> bool;
  leb : F -> F -> bool
}.

Definition matrix (F : Type) : Type := list (list F).

(** The two identities of the arithmetic that the centring code relies on:
    [0 + x = x] and [1 * x = x] (both hold for IEEE doubles that are not
    NaN or -0, and in every ring). *)
Class ScalarUnits (F : Type) `{Scalar F} : Prop := {
  add_zero_l : forall x : F, add (of_Z 0) x = x;
  mul_one_l : forall x : F, mul (of_Z 1) x = x
}.

Arguments ScalarUnits F {_}.

(** ** numpy primitives *)

Section Numpy.
Context {F : Type} `{Scalar F}.

Definition zero : F := of_Z 0.
Definition one : F := of_Z 1.

(** The builtin [sum] and [np.sum] over one axis. *)
Definition sum (v : list F) : F := fold_left add v zero.

Fixpoint map2 {A B C : Type} (f : A -> B -> C) (u : list A) (v : list B) : list C :=
  match u, v with
  | a :: u', b :: v' => f a b :: map2 f u' v'
  | _, _ => []
  end.

Definition nrows (M : matrix F) : nat := length M.

Definition ncols (M : matrix F) : nat :=
  match M with
  | [] => 0
  | r :: _ => length r
  end.

(** [M[i,:]] *)
Definition row_at (M : matrix F) (i : nat) : result (list F) :=
  match nth_error M i with
  | Some r => Ok r
  | None => Raise IndexError
  end.

(** Column [j] of a matrix whose rows are all longer than [j]. *)
Definition col (j : nat) (M : matrix F) : list F :=
  map (fun r => nth j r zero) M.

(** [M[:,j]] *)
Definition col_at (M : matrix F) (j : nat) : result (list F) :=
  if j <? ncols M then Ok (col j M) else Raise IndexError.

(** [M[i,j]] *)
Definition get (M : matrix F) (i j : nat) : result F :=
  match nth_error M i with
  | Some r =>
      match nth_error r j with
      | Some x => Ok x
      | None => Raise IndexError
      end
  | None => Raise IndexError
  end.

(** [M.T] *)
Definition transpose (M : matrix F) : matrix F :=
  map (fun j => col j M) (seq 0 (ncols M)).

Definition dotp (u v : list F) : F := sum (map2 mul u v).

(** [np.dot(A, B)] for 2-D arrays. *)
Definition dot (A B : matrix F) : result (matrix F) :=
  match A with
  | [] => Ok []
  | _ =>
      if ncols A =? nrows B
      then Ok (map (fun r => map (fun c => dotp r c) (transpose B)) A)
      else Raise ValueError
  end.

(** [np.ones((n, 1))] *)
Definition np_ones (n : nat) : matrix F := repeat [one] n.

(** [np.zeros((n, m))] *)
Definition np_zeros (n m : nat) : matrix F := repeat (repeat zero m) n.

(** [np.mean(M, axis=0)] *)
Definition mean_axis0 (M : matrix F) : list F :=
  map (fun j => div (sum (col j M)) (of_Z (Z.of_nat (nrows M)))) (seq 0 (ncols M)).

(** [np.std(M, axis=0)]: the population estimator (ddof = 0),
    [sqrt(mean(|x - mean(x)|^2))]. *)
Definition std_axis0 (M : matrix F) : list F :=
  map2 (fun j mu =>
          let dev := map (fun x => sub x mu) (col j M) in
          sqrt (div (sum (map (fun d => mul d d) dev)) (of_Z (Z.of_nat (nrows M)))))
       (seq 0 (ncols M)) (mean_axis0 M).

(** [A - B] for two arrays of one shape. *)
Definition msub (A B : matrix F) : matrix F := map2 (map2 sub) A B.

(** [M / c] for a scalar [c]. *)
Definition div_scalar (M : matrix F) (c : F) : matrix F :=
  map (map (fun x => div x c)) M.

(** [M op v] for an (n, m) array and a 1-D array of length k, with numpy's
    broadcasting: the shapes agree when [m = k], [k = 1] or [m = 1]. *)
Definition broadcast (op : F -> F -> F) (M : matrix F) (v : list F) : result (matrix F) :=
  match M with
  | [] => Ok []
  | _ =>
      if ncols M =? length v then Ok (map (fun r => map2 op r v) M)
      else if length v =? 1 then Ok (map (map (fun x => op x (hd zero v))) M)
      else if ncols M =? 1 then Ok (map (fun r => map (fun y => op (hd zero r) y) v) M)
      else Raise ValueError
  end.

(** [M.diagonal()] *)
Definition diagonal (M : matrix F) : list F :=
  map (fun i => nth i (nth i M []) zero) (seq 0 (Nat.min (nrows M) (ncols M))).

(** ** sigqc_pca.py *)

(** [getCovariance(i_dataset, corr_matrix=False, scale_by_nrows=True,
    center_around_mean=True)]. *)
Definition getCovariance (i_dataset : matrix F)
           (corr_matrix scale_by_nrows center_around_mean : bool) : result (matrix F) :=
  a <- (if center_around_mean then
          let mu := mean_axis0 i_dataset in
          row0 <- row_at i_dataset 0 ;;
          (* reshape((1, m)) of the m column means *)
          let means := [mu] in
          col0 <- col_at i_dataset 0 ;;
          let ones := np_ones (length col0) in
          means_prime <- dot ones means ;;
          let a := msub i_dataset means_prime in
          if corr_matrix then
            let std := std_axis0 a in
            broadcast div a std
          else Ok a
        else Ok i_dataset) ;;
  dotresult <- dot (transpose a) a ;;
  if scale_by_nrows then
    col0 <- col_at i_dataset 0 ;;
    Ok (div_scalar dotresult (of_Z (Z.of_nat (length col0) - 1)%Z))
  else Ok dotresult.

(** [numpy.linalg.eigh(M, UPLO='U')] and [ndarray.argsort()] are library
    code: they are parameters of the embedding.  [eigh] returns the
    eigenvalues and the matrix whose columns are the eigenvectors. *)
Class Linalg : Type := {
  eigh : matrix F -> result (list F * matrix F);
  argsort : list F -> list nat
}.

Context `{Linalg}.

(** [v[indices]] *)
Definition take (v : list F) (indices : list nat) : result (list F) :=
  mapM (fun i => match nth_error v i with
                 | Some x => Ok x
                 | None => Raise IndexError
                 end) indices.

(** [M[:,indices]] *)
Definition take_cols (M : matrix F) (indices : list nat) : result (matrix F) :=
  match M, indices with
  | [], _ :: _ => Raise IndexError
  | _, _ => mapM (fun r => take r indices) M
  end.

(** [sortEigen(i_evals, i_evects)] *)
Definition sortEigen (i_evals : list F) (i_evects : matrix F)
  : result (list F * matrix F) :=
  let indeces := rev (argsort i_evals) in
  eigenvalues <- take i_evals indeces ;;
  eigenvectors <- take_cols i_evects indeces ;;
  Ok (eigenvalues, eigenvectors).

(** [getEigen(i_array)] *)
Definition getEigen (i_array : matrix F) : result (list F * matrix F) :=
  '(evals, evecs) <- eigh i_array ;;
  sortEigen evals evecs.

(** [getPCScores(i_dataset, i_evals, i_evects, n_pcs=None)] *)
Definition getPCScores (i_dataset : matrix F) (i_evals : list F)
           (i_evects : matrix F) (n_pcs : option nat) : result (matrix F) :=
  n_pcs <- match n_pcs with
           | None => r <- row_at i_evects 0 ;; Ok (length r + 1)
           | Some k => Ok k
           end ;;
  col0 <- col_at i_dataset 0 ;;
  let pc_scores := np_zeros n_pcs (length col0) in
  let mu := mean_axis0 i_dataset in
  row0 <- row_at i_dataset 0 ;;
  let means := [mu] in
  col0 <- col_at i_dataset 0 ;;
  let ones := np_ones (length col0) in
  means_prime <- dot ones means ;;
  let a := msub i_dataset means_prime in
  pc_scores <- dot a i_evects ;;
  Ok pc_scores.

(** The inner [for j in range(...)] loop of [getTotalVariance]: [break]
    leaves the loop with the flag as it is. *)
Fixpoint symmetry_inner (i_array : matrix F) (i : nat) (range_j : list nat)
         (isCovMatrix : bool) : result bool :=
  match range_j with
  | [] => Ok isCovMatrix
  | j :: range_j' =>
      x <- get i_array i j ;;
      y <- get i_array j i ;;
      if negb (eqb x y) then Ok isCovMatrix
      else symmetry_inner i_array i range_j' true
  end.

(** The outer [for i in range(...)] loop of [getTotalVariance]. *)
Fixpoint symmetry_outer (i_array : matrix F) (range_i : list nat) (n_cols : nat)
         (isCovMatrix : bool) : result bool :=
  match range_i with
  | [] => Ok isCovMatrix
  | i :: range_i' =>
      b <- symmetry_inner i_array i (seq 0 n_cols) isCovMatrix ;;
      symmetry_outer i_array range_i' n_cols b
  end.

(** The value of [isCovMatrix] when the test at line 171 is reached. *)
Definition isCovMatrix_of (i_array : matrix F) : result bool :=
  col0 <- col_at i_array 0 ;;
  row0 <- row_at i_array 0 ;;
  if length col0 =? length row0
  then symmetry_outer i_array (seq 0 (length col0)) (length row0) false
  else Ok false.

(** [getTotalVariance(i_array)] *)
Definition getTotalVariance (i_array : matrix F) : result F :=
  isCovMatrix <- isCovMatrix_of i_array ;;
  if isCovMatrix then Ok (sum (diagonal i_array))
  else
    cov <- getCovariance i_array false true true ;;
    Ok (sum (diagonal cov)).

(** [getCumPropVar(i_dataset, i_evals, i_evects, n_pcs=None)] *)
Definition getCumPropVar (i_dataset : matrix F) (i_evals : list F)
           (i_evects : matrix F) (n_pcs : option nat) : result F :=
  n_pcs <- match n_pcs with
           | None => r <- row_at i_evects 0 ;; Ok (length r)
           | Some k => Ok k
           end ;;
  tot_var <- getTotalVariance i_dataset ;;
  Ok (fold_left (fun cumu_prop val => add cumu_prop (div val tot_var))
                (firstn n_pcs i_evals) zero).

(** ** sigqc_hmethod.py *)

(** [M[:,i] = M[:,i] * c] *)
Definition scale_col (M : matrix F) (i : nat) (c : F) : result (matrix F) :=
  if i <? ncols M
  then Ok (map (fun r => firstn i r ++ mul (nth i r zero) c :: skipn (S i) r) M)
  else Raise IndexError.

(** The loop of lines 53-55: one index range, taken from the test
    eigenvectors, drives the update of both matrices. *)
Fixpoint weight_loop (range_i : list nat) (test_evals ref_evals : list F)
         (test_evecs ref_evecs : matrix F) : result (matrix F * matrix F) :=
  match range_i with
  | [] => Ok (test_evecs, ref_evecs)
  | i :: range_i' =>
      tv <- take test_evals [i] ;;
      test_evecs <- scale_col test_evecs i (hd zero tv) ;;
      rv <- take ref_evals [i] ;;
      ref_evecs <- scale_col ref_evecs i (hd zero rv) ;;
      weight_loop range_i' test_evals ref_evals test_evecs ref_evecs
  end.

(** [np.sum(M, axis=0)] *)
Definition sum_axis0 (M : matrix F) : list F :=
  map (fun j => sum (col j M)) (seq 0 (ncols M)).

(** [calcMagnitude(i_vector)] *)
Definition calcMagnitude (i_vector : list F) : F :=
  sqrt (sum (map (fun x => mul x x) i_vector)).

(** Lines 47-65 of [hMethod]: the two normalised total eigenvectors that
    the last line hands to [angleEvecs]. *)
Definition hMethod_total_evecs (i_test_data i_ref_data : matrix F)
  : result (list F * list F) :=
  test_data_cov <- getCovariance i_test_data false false false ;;
  ref_data_cov <- getCovariance i_ref_data false false false ;;
  '(test_evals, test_evecs) <- eigh test_data_cov ;;
  '(ref_evals, ref_evecs) <- eigh ref_data_cov ;;
  row0 <- row_at test_evecs 0 ;;
  '(test_evecs, ref_evecs) <-
    weight_loop (seq 0 (length row0)) test_evals ref_evals test_evecs ref_evecs ;;
  let total_test_evec := sum_axis0 test_evecs in
  let total_ref_evec := sum_axis0 ref_evecs in
  let test_magnitude := calcMagnitude total_test_evec in
  let ref_magnitude := calcMagnitude total_ref_evec in
  let total_test_evec := map (fun x => div x test_magnitude) total_test_evec in
  let total_ref_evec := map (fun x => div x ref_magnitude) total_ref_evec in
  Ok (total_test_evec, total_ref_evec).

End Numpy.

Arguments Linalg F : clear implicits.

(** ** Text: [str.split], [in], [csv.writer] *)

(** [float(s)] and [str(x)] on the array element type. *)
Class FloatRead (F : Type) : Type := float_of_string : string -> option F.
Class FloatShow (F : Type) : Type := string_of_float : F -> string.

(** [needle in hay] *)
Fixpoint contains (needle hay : string) : bool :=
  if prefix needle hay then true
  else match hay with
       | EmptyString => false
       | String _ hay' => contains needle hay'
       end.

(** [s.split(sep)] for a one-character separator. *)
Fixpoint split_on (sep : ascii) (s : string) : list string :=
  match s with
  | EmptyString => [EmptyString]
  | String c s' =>
      if Ascii.eqb c sep then EmptyString :: split_on sep s'
      else match split_on sep s' with
           | [] => [String c EmptyString]
           | f :: fs => String c f :: fs
           end
  end.

Definition all_chars (p : ascii -> bool) (s : string) : bool :=
  forallb p (list_ascii_of_string s).

Definition quote_char : ascii := ascii_of_nat 34.
Definition cr_char : ascii := ascii_of_nat 13.
Definition lf_char : ascii := ascii_of_nat 10.

(** The characters that make [csv.writer] quote a field (QUOTE_MINIMAL with
    the delimiter [,] and the line terminator CR LF). *)
Definition csv_special (c : ascii) : bool :=
  Ascii.eqb c "," || Ascii.eqb c quote_char || Ascii.eqb c cr_char || Ascii.eqb c lf_char.

Fixpoint double_quotes (s : string) : string :=
  match s with
  | EmptyString => EmptyString
  | String c s' =>
      if Ascii.eqb c quote_char then String c (String c (double_quotes s'))
      else String c (double_quotes s')
  end.

Definition csv_field (s : string) : string :=
  if all_chars (fun c => negb (csv_special c)) s then s
  else String quote_char (String.append (double_quotes s) (String quote_char EmptyString)).

(** [writer.writerow(fields)], without the line terminator.  A row made of
    one empty field is written as an empty quoted string. *)
Definition writerow (fields : list string) : string :=
  match fields with
  | [EmptyString] => String quote_char (String quote_char EmptyString)
  | _ => String.concat ","%string (map csv_field fields)
  end.

(** [str(b)] for a [bool]. *)
Definition str_bool (b : bool) : string := if b then "True"%string else "False"%string.

(** ** sigqc_implementpca.py *)

(** The variables that the parse of a reference file assigns.  [avgvec] and
    [evals] start as [None]; [stddev] and [corr_matrix] are unbound until
    their section is read ([None] here); [evecs] starts as the empty
    list. *)
Record reference (F : Type) : Type := {
  avgvec : option (list F);
  stddev : option (list F);
  corr_matrix : option string;
  evals : option (list F);
  evecs : list (list F)
}.

Section ImplementPCA.
Context {F : Type} `{Scalar F} `{Linalg F} `{FloatRead F} `{FloatShow F}.

(** [np.array(row.split(','), dtype=float)] *)
Definition parse_row (row : string) : result (list F) :=
  mapM (fun s => match float_of_string s with
                 | Some x => Ok x
                 | None => Raise ValueError
                 end) (split_on "," row).

(** [next(f)]: the file is the list of the lines not yet read; a line is
    kept without its terminator, which [in] never looks for and [float]
    strips. *)
Definition next (f : list string) : result (string * list string) :=
  match f with
  | [] => Raise StopIteration
  | row :: f' => Ok (row, f')
  end.

(** [while (marker not in row): row = next(f)] *)
Fixpoint skip_until (marker row : string) (f : list string)
  : result (string * list string) :=
  if contains marker row then Ok (row, f)
  else match f with
       | [] => Raise StopIteration
       | row' :: f' => skip_until marker row' f'
       end.

(** The loop of lines 113-115. *)
Fixpoint read_evecs (row : string) (f : list string) (acc : list (list F))
  : result (string * list string * list (list F)) :=
  if contains "ENDEVECS" row then Ok (row, f, acc)
  else
    v <- parse_row row ;;
    match f with
    | [] => Raise StopIteration
    | row' :: f' => read_evecs row' f' (acc ++ [v])
    end.

(** The body of [for row in f] (lines 91-115): five [if] statements in
    sequence, each of which may read further lines of [f] and rebind
    [row]. *)
Definition parse_body (row : string) (f : list string) (st : reference F)
  : result (string * list string * reference F) :=
  '(row, f, st) <-
    (if contains "BEGINAVGVECTOR" row then
       '(row, f) <- next f ;;
       v <- parse_row row ;;
       '(row, f) <- skip_until "ENDAVGVECTOR" row f ;;
       Ok (row, f, {| avgvec := Some v; stddev := stddev st;
                      corr_matrix := corr_matrix st; evals := evals st;
                      evecs := evecs st |})
     else Ok (row, f, st)) ;;
  '(row, f, st) <-
    (if contains "BEGINSTANDDEV" row then
       '(row, f) <- next f ;;
       v <- parse_row row ;;
       '(row, f) <- skip_until "ENDSTANDDEV" row f ;;
       Ok (row, f, {| avgvec := avgvec st; stddev := Some v;
                      corr_matrix := corr_matrix st; evals := evals st;
                      evecs := evecs st |})
     else Ok (row, f, st)) ;;
  '(row, f, st) <-
    (if contains "ISCORRMATRIX" row then
       '(row, f) <- next f ;;
       let flag := row in
       '(row, f) <- skip_until "ENDCORRMATRIX" row f ;;
       Ok (row, f, {| avgvec := avgvec st; stddev := stddev st;
                      corr_matrix := Some flag; evals := evals st;
                      evecs := evecs st |})
     else Ok (row, f, st)) ;;
  '(row, f, st) <-
    (if contains "BEGINEVALS" row then
       '(row, f) <- next f ;;
       v <- parse_row row ;;
       '(row, f) <- skip_until "ENDEVALS" row f ;;
       Ok (row, f, {| avgvec := avgvec st; stddev := stddev st;
                      corr_matrix := corr_matrix st; evals := Some v;
                      evecs := evecs st |})
     else Ok (row, f, st)) ;;
  if contains "BEGINEVECS" row then
    '(row, f) <- next f ;;
    '(row, f, vs) <- read_evecs row f (evecs st) ;;
    Ok (row, f, {| avgvec := avgvec st; stddev := stddev st;
                   corr_matrix := corr_matrix st; evals := evals st;
                   evecs := vs |})
  else Ok (row, f, st).

(** [for row in f: ...].  The body only ever shortens [f], so one unit of
    fuel per line is enough ([parse_loop_fuel]). *)
Fixpoint parse_loop (fuel : nat) (f : list string) (st : reference F)
  : result (reference F) :=
  match f, fuel with
  | [], _ => Ok st
  | _, 0 => Ok st
  | row :: f', S fuel' =>
      '(_, f'', st') <- parse_body row f' st ;;
      parse_loop fuel' f'' st'
  end.

(** Lines 86-115: the parse of the reference file. *)
Definition parse_reference (lines : list string) : result (reference F) :=
  parse_loop (length lines) lines
             {| avgvec := None; stddev := None; corr_matrix := None;
                evals := None; evecs := [] |}.

(** [np.dot(x, evecs)] first turns the list of parsed rows into an array,
    which needs rows of one length. *)
Definition as_array (rows : list (list F)) : result (matrix F) :=
  if forallb (fun r => length r =? ncols rows) rows then Ok rows
  else Raise ValueError.

Definition bound {A : Type} (name_error : exn) (x : option A) : result A :=
  match x with
  | Some a => Ok a
  | None => Raise name_error
  end.

(** Lines 120-129: the PC scores of the test dataset against the parsed
    reference. *)
Definition score (dataset : matrix F) (st : reference F) : result (matrix F) :=
  let pcscores := np_zeros (nrows dataset) (ncols dataset) in
  flag <- bound NameError (corr_matrix st) ;;
  if contains "True" flag then
    mu <- bound TypeError (avgvec st) ;;
    centred <- broadcast sub dataset mu ;;
    sd <- bound NameError (stddev st) ;;
    scaled <- broadcast div centred sd ;;
    e <- as_array (evecs st) ;;
    dot scaled e
  else
    mu <- bound TypeError (avgvec st) ;;
    centred <- broadcast sub dataset mu ;;
    e <- as_array (evecs st) ;;
    dot centred e.

(** [implementPCA], from the parse of the reference file to [pcscores];
    [dataset] is what the file parsers deliver for the test file. *)
Definition implementPCA (reference_file : list string) (dataset : matrix F)
  : result (matrix F) :=
  st <- parse_reference reference_file ;;
  score dataset st.

(** Lines 219-235: the lines that [storeReferenceData] writes. *)
Definition reference_lines (avgvector stddev : list F) (corr_matrix : bool)
           (evals : list F) (evecs : matrix F) : list string :=
  [ writerow ["BEGINAVGVECTOR"%string];
    writerow (map string_of_float avgvector);
    writerow ["ENDAVGVECTOR"%string];
    writerow ["BEGINSTANDDEV"%string];
    writerow (map string_of_float stddev);
    writerow ["ENDSTANDDEV"%string];
    writerow ["ISCORRMATRIX"%string];
    writerow [str_bool corr_matrix];
    writerow ["ENDCORRMATRIX"%string];
    writerow ["BEGINEVALS"%string];
    writerow (map string_of_float evals);
    writerow ["ENDEVALS"%string];
    writerow ["BEGINEVECS"%string] ]
  ++ map (fun r => writerow (map string_of_float r)) evecs
  ++ [ writerow ["ENDEVECS"%string] ].

(** [storeReferenceData], from the reference dataset to the lines of the
    output file. *)
Definition storeReferenceData (dataset : matrix F) (corr_matrix : bool)
  : result (list string) :=
  let avgvector := mean_axis0 dataset in
  let stddev := std_axis0 dataset in
  cov_matrix <- getCovariance dataset corr_matrix true true ;;
  '(evals, evecs) <- getEigen cov_matrix ;;
  Ok (reference_lines avgvector stddev corr_matrix evals evecs).

End ImplementPCA.

(** ** Printed floats *)

Definition is_upper (c : ascii) : bool :=
  let n := nat_of_ascii c in (65 <=? n) && (n <=? 90).

(** A field that [csv.writer] writes as it is and that no section marker
    can occur in: not empty, without upper-case letter, comma, quote or
    line break. *)
Definition plain_char (c : ascii) : bool := negb (is_upper c || csv_special c).

Definition plain_field (s : string) : bool :=
  negb (String.eqb s EmptyString) && all_chars plain_char s.

(** What the round trip needs of [str] and [float]: [float(str(x))] is [x],
    and [str(x)] is a plain field (Python prints a float with digits, sign,
    point, [e], [inf] or [nan]). *)
Class FloatText (F : Type) `{FloatRead F} `{FloatShow F} : Prop := {
  float_of_string_of_float : forall x : F, float_of_string (string_of_float x) = Some x;
  string_of_float_plain : forall x : F, plain_field (string_of_float x) = true
}.

Arguments FloatText F {_ _}.

(** ** Reference formulas *)

Section Formulas.
Context {F : Type} `{Scalar F}.

(** A rectangular array of [n] rows and [m] columns. *)
Definition shape (n m : nat) (M : matrix F) : Prop :=
  length M = n /\ Forall (fun r => length r = m) M.

(** The dataset with the mean of each column subtracted from every row. *)
Definition centred (D : matrix F) : matrix F :=
  map (fun r => map2 sub r (mean_axis0 D)) D.

(** [transpose(A) x A] divided entry by entry by [c]. *)
Definition gram_over (A : matrix F) (m : nat) (c : F) : matrix F :=
  map (fun i => map (fun j => div (dotp (col i A) (col j A)) c) (seq 0 m)) (seq 0 m).

(** [A x B], entry by entry: row [r] of [A] against column [j] of [B]. *)
Definition product (A B : matrix F) (p : nat) : matrix F :=
  map (fun r => map (fun j => dotp r (col j B)) (seq 0 p)) A.

(** The total eigenvector as the sum of the eigenvalue-weighted
    eigenvector columns: entry [f] is the sum over [j] of
    [eigenvalue_j * eigenvector_j[f]], that is of [evecs[f][j] * evals[j]]. *)
Definition weighted_column_sum (evals : list F) (evecs : matrix F) : list F :=
  map (fun r => sum (map2 mul r evals)) evecs.

Definition normalised (v : list F) : list F :=
  map (fun x => div x (calcMagnitude v)) v.

(** The identity matrix of size [n]. *)
Definition identity (n : nat) : matrix F :=
  map (fun i => map (fun j => if i =? j then one else zero) (seq 0 n)) (seq 0 n).

(** [evals] and the columns of [evecs] are an orthonormal
    eigendecomposition of [M], as a symmetric eigensolver returns it:
    [M x V = V x diag(evals)] with [V] orthogonal, [V^T x V = I] and
    [V x V^T = I]. *)
Definition eigendecomposition (M : matrix F) (evals : list F) (evecs : matrix F) : Prop :=
  dot M evecs = Ok (map (fun r => map2 mul r evals) evecs) /\
  dot (transpose evecs) evecs = Ok (identity (length evals)) /\
  dot evecs (transpose evecs) = Ok (identity (length evals)).

(** The contract of [argsort]: a permutation of the positions that lists
    the values in ascending order. *)
Definition argsort_contract (sort : list F -> list nat) : Prop :=
  forall v : list F,
    Permutation (sort v) (seq 0 (length v)) /\
    StronglySorted (fun i j => leb (nth i v zero) (nth j v zero) = true) (sort v).

(** Insertion of a position into a list of positions ordered by value. *)
Fixpoint insert_by (v : list F) (i : nat) (sorted : list nat) : list nat :=
  match sorted with
  | [] => [i]
  | j :: sorted' =>
      if leb (nth i v zero) (nth j v zero) then i :: sorted
      else j :: insert_by v i sorted'
  end.

(** An [argsort] by insertion. *)
Definition insertion_argsort (v : list F) : list nat :=
  fold_right (insert_by v) [] (seq 0 (length v)).

End Formulas.

(** ** Exact rational arithmetic *)

(** The root of a rational: exact on the squares of rationals, rounded
    towards zero on the numerator otherwise. *)
Definition Qc_sqrt (x : Qc) : Qc :=
  Q2Qc (Z.sqrt (Qnum x * Zpos (Qden x)) # Qden x).

#[export] Instance Qc_scalar : Scalar Qc := {
  of_Z := fun z => Q2Qc (inject_Z z);
  add := Qcplus;
  sub := Qcminus;
  mul := Qcmult;
  div := Qcdiv;
  sqrt := Qc_sqrt;
  eqb := Qc_eq_bool;
  leb := fun x y => Qle_bool x y
}.

(** Decimal literals: an optional sign, digits, and an optional fraction. *)
Definition digit_of (c : ascii) : option Z :=
  let n := nat_of_ascii c in
  if (48 <=? n) && (n <=? 57) then Some (Z.of_nat (n - 48)) else None.

(** Reads digits: [num] accumulates the value and [den] the power of ten of
    the fraction read so far ([den = 0] before the point). *)
Fixpoint read_decimal (s : string) (num : Z) (den : Z) (seen : bool) : option (Z * Z) :=
  match s with
  | EmptyString => if seen then Some (num, Z.max den 1) else None
  | String c s' =>
      if Ascii.eqb c "." then
        if (den =? 0)%Z && seen then read_decimal s' num 1%Z seen else None
      else
        match digit_of c with
        | Some d => read_decimal s' (num * 10 + d)%Z (den * 10)%Z true
        | None => None
        end
  end.

Definition Qc_of_string (s : string) : option Qc :=
  let '(neg, body) := match s with
                      | String "-" s' => (true, s')
                      | _ => (false, s)
                      end in
  match read_decimal body 0%Z 0%Z false with
  | Some (n, d) =>
      let q := Q2Qc ((if neg then - n else n)%Z # Z.to_pos d) in Some q
  | None => None
  end.

#[export] Instance Qc_read : FloatRead Qc := Qc_of_string.

(** Integers printed and read in decimal. *)
#[export] Instance Z_show : FloatShow Z :=
  fun z => NilZero.string_of_int (Z.to_int z).
#[export] Instance Z_read : FloatRead Z :=
  fun s => option_map Z.of_int (NilZero.int_of_string s).

(** The rational [n / d]. *)
Definition q (n : Z) (d : positive) : Qc := Q2Qc (n # d).

(** Equality of lists, given the equality of their elements. *)
Fixpoint list_eqb {A : Type} (e : A -> A -> bool) (u v : list A) : bool :=
  match u, v with
  | [], [] => true
  | a :: u', b :: v' => e a b && list_eqb e u' v'
  | _, _ => false
  end.

Definition matrix_eqb (A B : matrix Qc) : bool := list_eqb (list_eqb Qc_eq_bool) A B.

(** A symmetric eigensolver that knows the decompositions of the two
    covariance matrices evaluated below, eigenvalues ascending as
    [numpy.linalg.eigh] returns them, and raises [LinAlgError] elsewhere. *)
Definition eigh_table (M : matrix Qc) : result (list Qc * matrix Qc) :=
  if matrix_eqb M [[q 9 1; q 12 1]; [q 12 1; q 16 1]]
  then Ok ([q 0 1; q 25 1], [[q 4 5; q 3 5]; [q (-3) 5; q 4 5]])
  else if matrix_eqb M [[q 18 1; q 24 1]; [q 24 1; q 32 1]]
  then Ok ([q 0 1; q 50 1], [[q 4 5; q 3 5]; [q (-3) 5; q 4 5]])
  else Raise LinAlgError.

#[export] Instance Qc_linalg : Linalg Qc := {
  eigh := eigh_table;
  argsort := insertion_argsort
}.

(** Decidable equality of results over [Qc], to compare them by
    evaluation. *)
Definition ok_matrix (r : result (matrix Qc)) (M : matrix Qc) : bool :=
  match r with
  | Ok M' => matrix_eqb M' M
  | Raise _ => false
  end.

Definition ok_scalar (r : result Qc) (x : Qc) : bool :=
  match r with
  | Ok x' => Qc_eq_bool x' x
  | Raise _ => false
  end.

Definition ok_vectors (r : result (list Qc * list Qc)) (u v : list Qc) : bool :=
  match r with
  | Ok (u', v') => list_eqb Qc_eq_bool u' u && list_eqb Qc_eq_bool v' v
  | Raise _ => false
  end.

(** ** Datasets, files and vocabulary of the properties *)

(** The dataset of the end-to-end scenario. *)
Definition scenario : matrix Qc := [[q 1 1; q 2 1]; [q 3 1; q 4 1]; [q 5 1; q 6 1]].

(** A square dataset of two units and two features, with the
    eigendecomposition of its covariance [[18,24],[24,32]] in descending
    order. *)
Definition square_dataset : matrix Qc := [[q 0 1; q 0 1]; [q 6 1; q 8 1]].
Definition square_evals : list Qc := [q 50 1; q 0 1].
Definition square_evecs : matrix Qc := [[q 3 5; q 4 5]; [q 4 5; q (-3) 5]].

(** A square array that is not symmetric. *)
Definition asymmetric : matrix Qc := [[q 1 1; q 2 1]; [q 3 1; q 4 1]].

(** A square dataset that is symmetric, of two units and two features; its
    centred columns are (3, -3) and (4, -4). *)
Definition symmetric_dataset : matrix Qc := [[q 14 1; q 8 1]; [q 8 1; q 0 1]].

(** The feature vector of the evaluation, its uncentred, unscaled covariance
    and the decomposition of that covariance, eigenvalues ascending. *)
Definition unit_vector : matrix Qc := [[q 3 1; q 4 1]].
Definition unit_cov : matrix Qc := [[q 9 1; q 12 1]; [q 12 1; q 16 1]].
Definition unit_evals : list Qc := [q 0 1; q 25 1].
Definition unit_evecs : matrix Qc := [[q 4 5; q 3 5]; [q (-3) 5; q 4 5]].

(** A reference file written for a covariance-based reference of two
    features. *)
Definition stored_reference : list string :=
  [ "BEGINAVGVECTOR"; "3.0,4.0"; "ENDAVGVECTOR";
    "BEGINSTANDDEV"; "2.0,2.0"; "ENDSTANDDEV";
    "ISCORRMATRIX"; "False"; "ENDCORRMATRIX";
    "BEGINEVALS"; "8.0,0.0"; "ENDEVALS";
    "BEGINEVECS"; "1.0,0.0"; "0.0,1.0"; "ENDEVECS" ]%string.

Definition stored_reference_parsed : reference Qc :=
  {| avgvec := Some [q 3 1; q 4 1]; stddev := Some [q 2 1; q 2 1];
     corr_matrix := Some "False"%string; evals := Some [q 8 1; q 0 1];
     evecs := [[q 1 1; q 0 1]; [q 0 1; q 1 1]] |}.

Definition option_vector_eqb (u v : option (list Qc)) : bool :=
  match u, v with
  | Some a, Some b => list_eqb Qc_eq_bool a b
  | None, None => true
  | _, _ => false
  end.

Definition ok_reference (r : result (reference Qc)) (st : reference Qc) : bool :=
  match r with
  | Ok st' =>
      option_vector_eqb (avgvec st') (avgvec st)
      && option_vector_eqb (stddev st') (stddev st)
      && match corr_matrix st', corr_matrix st with
         | Some a, Some b => String.eqb a b
         | None, None => true
         | _, _ => false
         end
      && option_vector_eqb (evals st') (evals st)
      && matrix_eqb (evecs st') (evecs st)
  | Raise _ => false
  end.

(** No line of the file holds the marker. *)
Definition absent (marker : string) (lines : list string) : Prop :=
  Forall (fun row => contains marker row = false) lines.

(** The current row and the unread lines are a tail of the file. *)
Definition tail_of (lines : list string) (row : string) (f : list string) : Prop :=
  exists before : list string, lines = before ++ row :: f.

(** What the parse maintains: a variable whose opening marker is absent
    keeps its initial value, and a flag text is the line that follows a line
    holding the flag marker. *)
Definition parse_invariant {F : Type} (lines : list string) (st : reference F) : Prop :=
  (absent "BEGINAVGVECTOR" lines -> avgvec st = None) /\
  (absent "BEGINEVALS" lines -> evals st = None) /\
  (absent "BEGINEVECS" lines -> evecs st = []) /\
  (forall flag : string,
      corr_matrix st = Some flag ->
      exists (before : list string) (marker : string) (after : list string),
        lines = before ++ marker :: flag :: after /\
        contains "ISCORRMATRIX" marker = true).

(** The stored reference without its eigenvalue section. *)
Definition reference_without_evals : list string :=
  [ "BEGINAVGVECTOR"; "3.0,4.0"; "ENDAVGVECTOR";
    "BEGINSTANDDEV"; "2.0,2.0"; "ENDSTANDDEV";
    "ISCORRMATRIX"; "False"; "ENDCORRMATRIX";
    "BEGINEVECS"; "1.0,0.0"; "0.0,1.0"; "ENDEVECS" ]%string.

Definition reference_without_evals_parsed : reference Qc :=
  {| avgvec := Some [q 3 1; q 4 1]; stddev := Some [q 2 1; q 2 1];
     corr_matrix := Some "False"%string; evals := None;
     evecs := [[q 1 1; q 0 1]; [q 0 1; q 1 1]] |}.

(** The sum of [f 0], ..., [f (n - 1)]. *)
Definition bigsum (n : nat) (f : nat -> Qc) : Qc := sum (map f (seq 0 n)).

(** Entry [(i, j)] of an array. *)
Definition entry (M : matrix Qc) (i j : nat) : Qc := nth j (nth i M []) zero.

Definition delta (i j : nat) : Qc := if i =? j then one else zero.

(** A dataset of three units and two features whose centred rows are
    multiples of (3, 4); its covariance is [[9,12],[12,16]]. *)
Definition tall_dataset : matrix Qc := [[q 0 1; q 0 1]; [q 3 1; q 4 1]; [q 6 1; q 8 1]].
Definition tall_evals : list Qc := [q 25 1; q 0 1].

(** The shape shared by the three blocks that read one vector. *)
Definition vector_section {F : Type} `{FloatRead F}
           (begin_marker end_marker : string)
           (set : list F -> reference F -> reference F)
           (row : string) (f : list string) (st : reference F)
  : result (string * list string * reference F) :=
  if contains begin_marker row then
    '(row, f) <- next f ;;
    v <- parse_row row ;;
    '(row, f) <- skip_until end_marker row f ;;
    Ok (row, f, set v st)
  else Ok (row, f, st).

(** ** Plots of sigqc_pca.py, as the data handed to matplotlib *)

(** [str(n)] for a non-negative [int]. *)
Definition str_nat (n : nat) : string := NilZero.string_of_uint (Nat.to_uint n).

(** One scatter plot of [plotPCScores]: the two columns handed to
    [plt.scatter], the axis labels, the title and the name given to
    [plt.savefig]. *)
Record scatter_figure (F : Type) : Type := {
  scatter_x : list F;
  scatter_y : list F;
  scatter_xlabel : string;
  scatter_ylabel : string;
  scatter_title : option string;
  scatter_file : string
}.

(** The bar chart of [plotCumPropVar]: the heights, the tick labels and the
    name given to [plt.savefig]. *)
Record bar_figure (F : Type) : Type := {
  bar_heights : list F;
  bar_labels : list string;
  bar_file : string
}.

Section Plots.
Context {F : Type} `{Scalar F}.

(** The Gram matrix [transpose(A) x A] of an array of [m] columns. *)
Definition gram (A : matrix F) (m : nat) : matrix F :=
  map (fun i => map (fun j => dotp (col i A) (col j A)) (seq 0 m)) (seq 0 m).

(** The loop of [plotPCScores] over [range_i]: the figures saved so far,
    and the exception that ended the loop, if any.  [pcscores[:,i]] and
    [pcscores[:,i+1]] are read when [plt.scatter] is called. *)
Fixpoint plotPCScores_loop (i_pcscores : matrix F) (i_header : option string)
         (o_path o_name : string) (range_i : list nat)
         (saved : list (scatter_figure F))
  : list (scatter_figure F) * option exn :=
  match range_i with
  | [] => (saved, None)
  | i :: range_i' =>
      match col_at i_pcscores i with
      | Raise e => (saved, Some e)
      | Ok xs =>
          match col_at i_pcscores (i + 1) with
          | Raise e => (saved, Some e)
          | Ok ys =>
              plotPCScores_loop i_pcscores i_header o_path o_name range_i'
                (saved ++
                 [{| scatter_x := xs; scatter_y := ys;
                     scatter_xlabel := String.append "PC" (str_nat (i + 1));
                     scatter_ylabel := String.append "PC" (str_nat (i + 2));
                     scatter_title := i_header;
                     scatter_file :=
                       String.append o_path
                         (String.append o_name
                            (String.append (str_nat i)
                               (String.append "-" (str_nat (i + 1))))) |}])
          end
      end
  end.

(** [plotPCScores(i_pcscores, i_header=None, o_path="", o_name="PCScores",
    n_pcs=2)] *)
Definition plotPCScores (i_pcscores : matrix F) (i_header : option string)
           (o_path o_name : string) (n_pcs : nat)
  : list (scatter_figure F) * option exn :=
  plotPCScores_loop i_pcscores i_header o_path o_name (seq 0 n_pcs) [].

(** [plotCumPropVar(i_dataset, i_evals, i_evects, o_path="",
    o_name="VarianceExplained", n_pcs=2, col="green")]: the heights are
    computed before anything is drawn. *)
Definition plotCumPropVar (i_dataset : matrix F) (i_evals : list F)
           (i_evects : matrix F) (o_path o_name : string) (n_pcs : nat)
  : result (bar_figure F) :=
  pc_prop <- mapM (fun j => getCumPropVar i_dataset i_evals i_evects (Some j))
                  (seq 1 n_pcs) ;;
  let xlabs := map (fun i => String.append "PC" (str_nat i)) (seq 1 n_pcs) in
  Ok {| bar_heights := pc_prop; bar_labels := xlabs;
        bar_file := String.append o_path o_name |}.

End Plots.

(** ** The angle of sigqc_hmethod.py *)

(** [c.lower()] on an ASCII character. *)
Definition lower_char (c : ascii) : ascii :=
  if is_upper c then ascii_of_nat (nat_of_ascii c + 32) else c.

(** [s.lower()] on ASCII text. *)
Fixpoint lower (s : string) : string :=
  match s with
  | EmptyString => EmptyString
  | String c s' => String (lower_char c) (lower s')
  end.

(** [np.math.acos] (which raises outside of its domain) and [np.pi] are
    library code: they are parameters of the embedding. *)
Class Trig (F : Type) : Type := {
  acos : F -> result F;
  pi : F
}.

Section Angle.
Context {F : Type} `{Scalar F} `{Linalg F} `{Trig F}.

(** [np.dot(u, v)] for 1-D arrays. *)
Definition dot1 (u v : list F) : result F :=
  if length u =? length v then Ok (dotp u v) else Raise ValueError.

(** [angleEvecs(itot_test_eigenvec, itot_ref_eigenvec, angle_units="d")] *)
Definition angleEvecs (itot_test_eigenvec itot_ref_eigenvec : list F)
           (angle_units : string) : result F :=
  Q <- dot1 itot_ref_eigenvec itot_test_eigenvec ;;
  angle <- acos Q ;;
  if String.eqb (lower angle_units) "d"
  then Ok (mul angle (div (of_Z 180) pi))
  else if String.eqb (lower angle_units) "r"
       then Ok angle
       else Raise UnitsError.

(** [hMethod(i_test_data, i_ref_data, angle_units="d")] *)
Definition hMethod (i_test_data i_ref_data : matrix F) (angle_units : string)
  : result F :=
  ' (total_test_evec, total_ref_evec) <-
    hMethod_total_evecs i_test_data i_ref_data ;;
  angleEvecs total_test_evec total_ref_evec angle_units.

End Angle.

(** An eigensolver that knows the Gram matrices of the feature vectors
    (0, 1) and (0, 0, 1): diagonal matrices with the eigenvalues on the
    diagonal in ascending order and the unit vectors as eigenvectors. *)
Definition eigh_axes (M : matrix Qc) : result (list Qc * matrix Qc) :=
  if matrix_eqb M [[q 0 1; q 0 1]; [q 0 1; q 1 1]]
  then Ok ([q 0 1; q 1 1], [[q 1 1; q 0 1]; [q 0 1; q 1 1]])
  else if matrix_eqb M [[q 0 1; q 0 1; q 0 1]; [q 0 1; q 0 1; q 0 1];
                        [q 0 1; q 0 1; q 1 1]]
  then Ok ([q 0 1; q 0 1; q 1 1],
           [[q 1 1; q 0 1; q 0 1]; [q 0 1; q 1 1; q 0 1]; [q 0 1; q 0 1; q 1 1]])
  else Raise LinAlgError.

Definition Qc_axes_linalg : Linalg Qc :=
  {| eigh := eigh_axes; argsort := insertion_argsort |}.

(** The one angle with a rational cosine and a rational value: the
    arccosine of 1 is 0. *)
Definition Qc_trig : Trig Qc :=
  {| acos := fun x => if Qc_eq_bool x (q 1 1) then Ok (q 0 1) else Raise ValueError;
     pi := q 355 113 |}.

(** Integer arithmetic as a scalar type, with decimal text: a dtype for
    which printing and reading back is exact. *)
#[export] Instance Z_scalar : Scalar Z := {|
  of_Z := fun z => z;
  add := Z.add;
  sub := Z.sub;
  mul := Z.mul;
  div := Z.div;
  sqrt := Z.sqrt;
  eqb := Z.eqb;
  leb := Z.leb
|}.

(** An eigensolver that knows the covariance [[2,0],[0,0]]: eigenvalues 0
    and 2 in ascending order, with the unit vectors (0,1) and (1,0) as
    columns. *)
Definition Z_eigh (M : matrix Z) : result (list Z * matrix Z) :=
  if list_eqb (list_eqb Z.eqb) M [[2; 0]; [0; 0]]%Z
  then Ok ([0; 2]%Z, [[0; 1]; [1; 0]]%Z)
  else Raise LinAlgError.

Definition Z_linalg : Linalg Z :=
  {| eigh := Z_eigh; argsort := @insertion_argsort Z Z_scalar |}.

(** ** sigqc_primitives.py: test case identifiers *)

(** An instance of [SigQCTestCaseID]. *)
Record SigQCTestCaseID : Type := {
  _productname : string;
  _testname : string;
  _casename : string;
  _exact : bool
}.

(** The truth value of a [str]: not empty. *)
Definition truthy (s : string) : bool := negb (String.eqb s "").

(** [s.endswith(suffix)] *)
Definition endswith (suffix s : string) : bool :=
  let n := String.length s in
  let k := String.length suffix in
  if k <=? n then String.eqb (substring (n - k) k s) suffix else false.

(** [SigQCTestCaseID.__str__] *)
Definition SigQCTestCaseID_str (self : SigQCTestCaseID) : string :=
  let extension := ""%string in
  let productname := _productname self in
  let testname := _testname self in
  let casename := _casename self in
  let extension := if Bool.eqb (_exact self) false then "~"%string else extension in
  let productname := if negb (truthy productname) then "*"%string else productname in
  let testname := if negb (truthy testname) then "*"%string else testname in
  let casename := if negb (truthy casename) then "*"%string else casename in
  String.append
    (String.append
       (String.append
          (String.append (String.append productname ".") testname) ".")
       casename)
    extension.

(** [SigQCTestCaseID.__eq__] *)
Definition SigQCTestCaseID_eq (self other : SigQCTestCaseID) : bool :=
  if String.eqb (_productname self) (_productname other) then
    if String.eqb (_testname self) (_testname other) then
      if String.eqb (_casename self) (_casename other) then
        if Bool.eqb (_exact self) (_exact other) then true else false
      else false
    else false
  else false.

(** [SigQCTestCaseID.IsExact] *)
Definition IsExact (self : SigQCTestCaseID) : bool :=
  if truthy (_productname self) && truthy (_testname self)
     && truthy (_casename self)
  then _exact self
  else false.

(** One name of the last branch of [IsMatch]: containment of the shorter
    name in the longer one. *)
Definition lesser_in (mine theirs : string) : bool :=
  if String.length theirs <? String.length mine
  then contains theirs mine
  else contains mine theirs.

(** [SigQCTestCaseID.IsMatch] *)
Definition IsMatch (self i_identifier : SigQCTestCaseID) : bool :=
  let state := true in
  if Bool.eqb (IsExact self) true && Bool.eqb (IsExact i_identifier) true then
    SigQCTestCaseID_eq self i_identifier
  else if Bool.eqb (IsExact self) true && Bool.eqb (IsExact i_identifier) false then
    let state := if truthy (_productname i_identifier)
                 then state && contains (_productname i_identifier) (_productname self)
                 else state in
    let state := if truthy (_testname i_identifier)
                 then state && contains (_testname i_identifier) (_testname self)
                 else state in
    let state := if truthy (_casename i_identifier)
                 then state && contains (_casename i_identifier) (_casename self)
                 else state in
    state
  else if Bool.eqb (IsExact self) false && Bool.eqb (IsExact i_identifier) true then
    let state := if truthy (_productname self)
                 then state && contains (_productname self) (_productname i_identifier)
                 else state in
    let state := if truthy (_testname self)
                 then state && contains (_testname self) (_testname i_identifier)
                 else state in
    let state := if truthy (_casename self)
                 then state && contains (_casename self) (_casename i_identifier)
                 else state in
    state
  else
    let state := state && lesser_in (_productname self) (_productname i_identifier) in
    let state := state && lesser_in (_testname self) (_testname i_identifier) in
    let state := state && lesser_in (_casename self) (_casename i_identifier) in
    state.

(** [SigQCTestCaseID.Parse(i_string)] for a [str]: the identifier after the
    call. *)
Definition Parse (self : SigQCTestCaseID) (i_string : string) : SigQCTestCaseID :=
  let text := split_on "." i_string in
  let count := length text in
  if 3 <=? count then
    let exact := true in
    let productname := nth 0 text ""%string in
    let testname := nth 1 text ""%string in
    let casename := nth 2 text ""%string in
    let '(casename, exact) :=
      if endswith "~" casename
      then (substring 0 (String.length casename - 1) casename, false)
      else (casename, exact) in
    let productname := if String.eqb productname "*" then ""%string else productname in
    let testname := if String.eqb testname "*" then ""%string else testname in
    let casename := if String.eqb casename "*" then ""%string else casename in
    {| _productname := productname; _testname := testname;
       _casename := casename; _exact := exact |}
  else self.

(** ** sigqc_asciitestcase.py: the data section of a test case *)

(** A [csv.reader]: the rows not yet read, and [line_num], the number of
    lines read so far (every row being one line of the file). *)
Record csv_reader : Type := {
  pending : list (list string);
  line_num : Z
}.

(** [next(i_reader)] *)
Definition next_row (i_reader : csv_reader) : result (list string * csv_reader) :=
  match pending i_reader with
  | [] => Raise StopIteration
  | row :: rows => Ok (row, {| pending := rows; line_num := line_num i_reader + 1 |})
  end.

(** An instance of [SigQCAsciiMatrix]; [Header] is the class of the header
    object that is handed through. *)
Record SigQCAsciiMatrix (Header : Type) : Type := {
  _line : Z;
  _serialnumbers : list string;
  _timestamps : list string;
  _xvalues : list string;
  _yvalues : list (list string);
  _header : option Header
}.

(** [SigQCAsciiMatrix()] *)
Definition SigQCAsciiMatrix_new (Header : Type) : SigQCAsciiMatrix Header :=
  {| _line := -1; _serialnumbers := []; _timestamps := []; _xvalues := [];
     _yvalues := []; _header := None |}.

(** [row[i]] *)
Definition field (row : list string) (i : nat) : result string :=
  match nth_error row i with
  | Some s => Ok s
  | None => Raise IndexError
  end.

(** [marker in row], for a row of fields. *)
Definition has_field (marker : string) (row : list string) : bool :=
  existsb (String.eqb marker) row.

(** The [while("ENDDATA" not in row)] loop of [SigQCAsciiMatrix.read]: the
    row and the reader the loop ends with, and the lists it has filled. *)
Fixpoint read_units (row : list string) (rows : list (list string)) (n : Z)
         (serialnumbers timestamps : list string) (yvals : list (list string))
  : result (list string * csv_reader * list string * list string
            * list (list string)) :=
  if has_field "ENDDATA" row
  then Ok (row, {| pending := rows; line_num := n |},
           serialnumbers, timestamps, yvals)
  else
    s <- field row 0 ;;
    t <- field row 1 ;;
    match rows with
    | [] => Raise StopIteration
    | row' :: rows' =>
        read_units row' rows' (n + 1) (serialnumbers ++ [s]) (timestamps ++ [t])
                   (yvals ++ [skipn 2 row])
    end.

(** [SigQCAsciiMatrix.read(i_header, i_reader)]: the object and the reader
    after the call.  [np.array(xvals)] takes any list of fields;
    [np.array(yvals)] needs rows of one length ([as_array]) and is built
    before the row after "ENDDATA" is read. *)
Definition SigQCAsciiMatrix_read {Header : Type} (self : SigQCAsciiMatrix Header)
           (i_header : Header) (i_reader : csv_reader)
  : result (SigQCAsciiMatrix Header * csv_reader) :=
  let line := line_num i_reader in
  ' (row, i_reader) <- next_row i_reader ;;
  let xvals := skipn 2 row in
  ' (row, i_reader) <- next_row i_reader ;;
  ' (row, i_reader, serialnumbers, timestamps, yvals) <-
    read_units row (pending i_reader) (line_num i_reader)
               (_serialnumbers self) (_timestamps self) [] ;;
  let xvalues := xvals in
  yvalues <- as_array yvals ;;
  ' (row, i_reader) <- next_row i_reader ;;
  Ok ({| _line := line_num i_reader;
         _serialnumbers := serialnumbers;
         _timestamps := timestamps;
         _xvalues := xvalues;
         _yvalues := yvalues;
         _header := Some i_header |},
      i_reader).

(** * Properties *)

(** ** Lists and arrays *)

Lemma map2_length {A B C : Type} (f : A -> B -> C) (u : list A) (v : list B) :
  length (map2 f u v) = Nat.min (length u) (length v).
Proof.
  revert v; induction u as [|a u IH]; intros [|b v]; simpl; auto.
Qed.

Lemma map2_repeat_r {A B C : Type} (f : A -> B -> C) (u : list A) (b : B) (n : nat) :
  length u = n -> map2 f u (repeat b n) = map (fun a => f a b) u.
Proof.
  revert n; induction u as [|a u IH]; intros [|n] E; simpl in *; try discriminate; auto.
  f_equal. apply IH. lia.
Qed.

Lemma map_nth_seq {A : Type} (d : A) (l : list A) :
  map (fun j => nth j l d) (seq 0 (length l)) = l.
Proof.
  induction l as [|a l IH]; simpl; auto.
  f_equal. rewrite <- seq_shift, map_map. exact IH.
Qed.

Lemma shape_cons {F : Type} (n m : nat) (r : list F) (M : matrix F) :
  shape n m (r :: M) -> length r = m /\ shape (pred n) m M.
Proof.
  intros [L A]. inversion A; subst. simpl. repeat split; auto.
Qed.

Section ArrayFacts.
Context {F : Type} `{Scalar F}.

Lemma ncols_shape (n m : nat) (M : matrix F) :
  1 <= n -> shape n m M -> ncols M = m.
Proof.
  intros Hn [L A]. destruct M as [|r M]; simpl in *; [lia|].
  inversion A; auto.
Qed.

Lemma row_at_0 (n m : nat) (M : matrix F) :
  1 <= n -> shape n m M -> exists r, row_at M 0 = Ok r /\ length r = m.
Proof.
  intros Hn [L A]. destruct M as [|r M]; simpl in *; [lia|].
  exists r. split; [reflexivity|]. inversion A; auto.
Qed.

Lemma col_at_ok (n m j : nat) (M : matrix F) :
  1 <= n -> shape n m M -> j < m -> col_at M j = Ok (col j M).
Proof.
  intros Hn S Hj. unfold col_at. rewrite (ncols_shape Hn S).
  destruct (Nat.ltb_spec j m); [reflexivity|lia].
Qed.

Lemma col_length (j : nat) (M : matrix F) : length (col j M) = length M.
Proof. unfold col. apply length_map. Qed.

Lemma transpose_length (M : matrix F) : length (transpose M) = ncols M.
Proof. unfold transpose. rewrite length_map, length_seq. reflexivity. Qed.

Lemma mean_axis0_length (M : matrix F) : length (mean_axis0 M) = ncols M.
Proof. unfold mean_axis0. rewrite length_map, length_seq. reflexivity. Qed.

(** [np.dot] of a non-empty array with an array of matching height is the
    array of the products of rows with columns. *)
Lemma dot_product (A B : matrix F) (n m p : nat) :
  1 <= n -> 1 <= m -> shape n m A -> shape m p B ->
  dot A B = Ok (product A B p).
Proof.
  intros Hn Hm SA SB. unfold dot.
  rewrite (ncols_shape Hn SA).
  destruct A as [|r A]; [destruct SA; simpl in *; lia|].
  destruct SB as [LB FB]. unfold nrows. rewrite LB, Nat.eqb_refl.
  unfold product, transpose. rewrite (ncols_shape Hm (conj LB FB)).
  f_equal. apply map_ext. intros a. rewrite map_map. reflexivity.
Qed.

Lemma shape_centred (n m : nat) (D : matrix F) :
  1 <= n -> shape n m D -> shape n m (centred D).
Proof.
  intros Hn S. pose proof (ncols_shape Hn S) as C.
  destruct S as [L A]. split.
  - unfold centred. rewrite length_map. exact L.
  - unfold centred. rewrite Forall_map. eapply Forall_impl; [|exact A].
    intros r Hr. simpl. rewrite map2_length, mean_axis0_length, C, Hr. lia.
Qed.

Lemma shape_transpose (n m : nat) (M : matrix F) :
  1 <= n -> shape n m M -> shape m n (transpose M).
Proof.
  intros Hn S. pose proof (ncols_shape Hn S) as C. destruct S as [L A]. split.
  - rewrite transpose_length. exact C.
  - unfold transpose. rewrite Forall_map. apply Forall_forall.
    intros j _. rewrite col_length. exact L.
Qed.

Context `{!ScalarUnits F}.

Lemma dotp_one (x : F) : dotp [one] [x] = x.
Proof.
  unfold dotp, sum, one, zero. simpl. rewrite mul_one_l, add_zero_l. reflexivity.
Qed.

(** [np.dot(ones, means)] repeats the row of means once per unit. *)
Lemma dot_ones_means (n : nat) (mu : list F) :
  dot (np_ones n) [mu] = Ok (repeat mu n).
Proof.
  destruct n as [|n]; [reflexivity|].
  unfold dot, np_ones. simpl repeat. cbv iota beta.
  change (ncols ([one] :: repeat [one] n)) with 1.
  change (nrows [mu]) with 1. simpl Nat.eqb. cbv iota.
  f_equal.
  assert (R : map (fun c => dotp [one] c) (transpose [mu]) = mu).
  { unfold transpose, col. simpl ncols. rewrite map_map. simpl map at 1.
    transitivity (map (fun j => nth j mu zero) (seq 0 (length mu))).
    - apply map_ext. intros j. apply dotp_one.
    - apply map_nth_seq. }
  change (map (fun r : list F => map (fun c : list F => dotp r c) (transpose [mu]))
              ([one] :: repeat [one] n))
    with (map (fun c => dotp [one] c) (transpose [mu])
          :: map (fun r : list F => map (fun c : list F => dotp r c) (transpose [mu]))
                 (repeat [one] n)).
  rewrite R. simpl repeat. f_equal.
  induction n as [|k IH]; simpl; [reflexivity|].
  rewrite R. f_equal. exact IH.
Qed.

(** The centring of lines 57-60 subtracts the column means from every
    row. *)
Lemma centring (n m : nat) (D : matrix F) :
  1 <= n -> 1 <= m -> shape n m D ->
  (row0 <- row_at D 0 ;;
   col0 <- col_at D 0 ;;
   means_prime <- dot (np_ones (length col0)) [mean_axis0 D] ;;
   Ok (msub D means_prime)) = Ok (centred D).
Proof.
  intros Hn Hm S.
  destruct (row_at_0 Hn S) as [r [R _]]. rewrite R.
  rewrite (col_at_ok (j:=0) Hn S) by lia.
  cbn [bind]. rewrite dot_ones_means. cbn [bind].
  f_equal. unfold msub, centred. rewrite col_length.
  apply map2_repeat_r. reflexivity.
Qed.

End ArrayFacts.

(** ** Evaluation over the rationals *)

Lemma list_eqb_eq {A : Type} (e : A -> A -> bool) :
  (forall a b, e a b = true -> a = b) ->
  forall u v, list_eqb e u v = true -> u = v.
Proof.
  intros He u; induction u as [|a u IH]; intros [|b v] E; simpl in E;
    try discriminate; auto.
  apply andb_prop in E. destruct E as [E1 E2].
  f_equal; auto.
Qed.

Lemma vector_eqb_eq (u v : list Qc) : list_eqb Qc_eq_bool u v = true -> u = v.
Proof. apply list_eqb_eq. apply Qc_eq_bool_correct. Qed.

Lemma matrix_eqb_eq (A B : matrix Qc) : matrix_eqb A B = true -> A = B.
Proof. apply list_eqb_eq. apply vector_eqb_eq. Qed.

Lemma ok_matrix_eq (r : result (matrix Qc)) (M : matrix Qc) :
  ok_matrix r M = true -> r = Ok M.
Proof.
  destruct r as [M'|e]; simpl; [|discriminate].
  intros E. f_equal. apply matrix_eqb_eq. exact E.
Qed.

Lemma ok_scalar_eq (r : result Qc) (x : Qc) : ok_scalar r x = true -> r = Ok x.
Proof.
  destruct r as [x'|e]; simpl; [|discriminate].
  intros E. f_equal. apply Qc_eq_bool_correct. exact E.
Qed.

Lemma ok_vectors_eq (r : result (list Qc * list Qc)) (u v : list Qc) :
  ok_vectors r u v = true -> r = Ok (u, v).
Proof.
  destruct r as [[u' v']|e]; simpl; [|discriminate].
  intros E. apply andb_prop in E. destruct E as [E1 E2].
  apply vector_eqb_eq in E1. apply vector_eqb_eq in E2. subst. reflexivity.
Qed.

#[export] Instance Qc_units : ScalarUnits Qc.
Proof.
  split; intros x; simpl.
  - change (Q2Qc (inject_Z 0)) with 0%Qc. apply Qcplus_0_l.
  - change (Q2Qc (inject_Z 1)) with 1%Qc. apply Qcmult_1_l.
Qed.

(** ** Covariance *)

(** With centring and scaling on and the correlation form off the result
    is the scaled Gram matrix of the centred dataset. *)
Lemma getCovariance_gram (F : Type) (S : Scalar F) (U : ScalarUnits F)
      (D : matrix F) (n m : nat) :
  1 <= n -> 1 <= m -> shape n m D ->
  getCovariance D false true true
  = Ok (gram_over (centred D) m (of_Z (Z.of_nat n - 1))).
Proof.
  intros Hn Hm SD.
  pose proof (centring Hn Hm SD) as E.
  pose proof (shape_centred Hn SD) as SA.
  pose proof (shape_transpose Hn SA) as ST.
  unfold getCovariance. cbv zeta.
  destruct (row_at_0 Hn SD) as [r [R _]].
  rewrite R in E |- *.
  rewrite (col_at_ok (j:=0) Hn SD) in E |- * by lia.
  cbn [bind] in E |- *.
  destruct (dot (np_ones (length (col 0 D))) [mean_axis0 D]) as [mp|e];
    cbn [bind] in E |- *; [|discriminate].
  injection E as E. rewrite E.
  rewrite (dot_product Hm Hn ST SA). cbn [bind].
  f_equal. unfold div_scalar, product, gram_over, transpose.
  rewrite (ncols_shape Hn SA), col_length. destruct SD as [L _]. rewrite L.
  rewrite !map_map. apply map_ext. intros i. rewrite map_map. reflexivity.
Qed.

(** C9.  With centring and scaling on and the correlation form off,
    [getCovariance] returns [transpose(A) x A] divided entry by entry by
    [n_rows - 1], where [A] is the dataset with the mean of each column
    subtracted from every row; on [[1,2],[3,4],[5,6]] the result is exactly
    [[4,4],[4,4]]. *)
Theorem getCovariance_centred_scaled :
  (forall (F : Type) (S : Scalar F) (U : ScalarUnits F) (D : matrix F) (n m : nat),
      1 <= n -> 1 <= m -> shape n m D ->
      getCovariance D false true true
      = Ok (gram_over (centred D) m (of_Z (Z.of_nat n - 1)))) /\
  getCovariance scenario false true true = Ok [[q 4 1; q 4 1]; [q 4 1; q 4 1]].
Proof.
  split.
  - intros F S U D n m Hn Hm SD. apply getCovariance_gram; assumption.
  - apply ok_matrix_eq. vm_compute. reflexivity.
Qed.

(** The formula of C9 at the scenario dataset. *)
Lemma getCovariance_centred_scaled_witness :
  1 <= 3 /\ 1 <= 2 /\ shape 3 2 scenario /\
  getCovariance scenario false true true
  = Ok (gram_over (centred scenario) 2 (of_Z (Z.of_nat 3 - 1))).
Proof.
  assert (S : shape 3 2 scenario).
  { split; [reflexivity|]. repeat constructor. }
  refine (conj _ (conj _ (conj S _))); [lia | lia |].
  apply (proj1 getCovariance_centred_scaled Qc Qc_scalar Qc_units scenario 3 2);
    [lia | lia | exact S].
Defined.

(** C10.  Without centring the correlation flag has no effect: the test of
    [corr_matrix] sits inside the branch of [center_around_mean]. *)
Theorem getCovariance_corr_ignored_without_centring :
  forall (F : Type) (S : Scalar F) (D : matrix F) (scale_by_nrows : bool),
    getCovariance D true scale_by_nrows false
    = getCovariance D false scale_by_nrows false.
Proof.
  intros F S D scale_by_nrows. unfold getCovariance. reflexivity.
Qed.

(** ** PC scores *)

(** [getPCScores] returns the centred dataset times the whole eigenvector
    matrix, whatever [n_pcs] is. *)
Lemma getPCScores_projection (F : Type) (S : Scalar F) (U : ScalarUnits F)
      (D : matrix F) (i_evals : list F) (E : matrix F) (n_pcs : option nat)
      (n m p : nat) :
  1 <= n -> 1 <= m -> shape n m D -> shape m p E ->
  getPCScores D i_evals E n_pcs = Ok (product (centred D) E p).
Proof.
  intros Hn Hm SD SE.
  pose proof (centring Hn Hm SD) as C.
  unfold getPCScores. cbv zeta.
  destruct (row_at_0 Hm SE) as [e [RE _]].
  destruct (row_at_0 Hn SD) as [r [R _]].
  rewrite R in C |- *.
  rewrite (col_at_ok (j:=0) Hn SD) in C |- * by lia.
  destruct n_pcs as [k|]; [|rewrite RE]; cbn [bind] in C |- *;
    (destruct (dot (np_ones (length (col 0 D))) [mean_axis0 D]) as [mp|err];
     cbn [bind] in C |- *; [|discriminate]);
    injection C as C; rewrite C;
    rewrite (dot_product Hn Hm (shape_centred Hn SD) SE); reflexivity.
Qed.

(** C4 (what the code does).  [n_pcs] never reaches the result: every
    explicit value gives the same scores, and with [n_pcs = 1] the scores of
    a dataset of two features still have two columns. *)
Theorem getPCScores_ignores_n_pcs :
  (forall (F : Type) (S : Scalar F) (D : matrix F) (i_evals : list F)
          (E : matrix F) (k k' : nat),
      getPCScores D i_evals E (Some k) = getPCScores D i_evals E (Some k')) /\
  getPCScores square_dataset square_evals square_evecs (Some 1)
  = Ok [[q (-5) 1; q 0 1]; [q 5 1; q 0 1]].
Proof.
  split.
  - intros. unfold getPCScores. reflexivity.
  - apply ok_matrix_eq. vm_compute. reflexivity.
Qed.

(** ** Total variance *)

Section SymmetryLoop.
Context {F : Type} `{Scalar F}.

Lemma get_ok (n m i j : nat) (M : matrix F) :
  shape n m M -> i < n -> j < m -> exists x, get M i j = Ok x.
Proof.
  intros [L A] Hi Hj. unfold get.
  destruct (nth_error M i) as [r|] eqn:E.
  - assert (length r = m).
    { rewrite Forall_forall in A. apply A. eapply nth_error_In; eauto. }
    destruct (nth_error r j) as [x|] eqn:E'; [eauto|].
    apply nth_error_None in E'. lia.
  - apply nth_error_None in E. lia.
Qed.

(** Once the flag is set no path through the inner loop clears it. *)
Lemma symmetry_inner_true (n : nat) (M : matrix F) (i : nat) (range_j : list nat) :
  shape n n M -> i < n -> Forall (fun j => j < n) range_j ->
  symmetry_inner M i range_j true = Ok true.
Proof.
  intros S Hi. induction range_j as [|j js IH]; intros A; [reflexivity|].
  inversion A as [|? ? Hj A']; subst. simpl.
  destruct (get_ok S Hi Hj) as [x ->].
  destruct (get_ok S Hj Hi) as [y ->]. cbn [bind].
  destruct (negb (eqb x y)); [reflexivity|]. apply IH. exact A'.
Qed.

Lemma symmetry_outer_true (n : nat) (M : matrix F) (range_i : list nat) :
  shape n n M -> Forall (fun i => i < n) range_i ->
  symmetry_outer M range_i n true = Ok true.
Proof.
  intros S. induction range_i as [|i rest IH]; intros A; [reflexivity|].
  inversion A as [|? ? Hi A']; subst. simpl.
  rewrite (symmetry_inner_true S Hi).
  - cbn [bind]. apply IH. exact A'.
  - apply Forall_forall. intros j Hj. apply in_seq in Hj. lia.
Qed.

(** Every square array whose first entry equals itself is classified as a
    covariance matrix: the first comparison, of [M[0,0]] with itself, sets
    the flag, and [break] only leaves the inner loop. *)
Lemma isCovMatrix_square (n : nat) (M : matrix F) (x : F) :
  1 <= n -> shape n n M -> get M 0 0 = Ok x -> eqb x x = true ->
  isCovMatrix_of M = Ok true.
Proof.
  intros Hn S G E. unfold isCovMatrix_of.
  destruct (row_at_0 Hn S) as [r [R Lr]].
  rewrite (col_at_ok (j:=0) Hn S) by lia. rewrite R. cbn [bind].
  rewrite col_length, Lr. destruct S as [L A]. rewrite L, Nat.eqb_refl.
  destruct n as [|k]; [lia|]. cbn [seq symmetry_outer symmetry_inner].
  rewrite G. cbn [bind]. rewrite E. cbn [negb].
  assert (R1 : symmetry_inner M 0 (seq 1 k) true = Ok true).
  { apply (symmetry_inner_true (n:=S k)); [split; auto | lia |].
    apply Forall_forall. intros j Hj. apply in_seq in Hj. lia. }
  rewrite R1. cbn [bind].
  apply (symmetry_outer_true (n:=S k)); [split; auto|].
  apply Forall_forall. intros j Hj. apply in_seq in Hj. lia.
Qed.

End SymmetryLoop.

(** C3 (what the code does).  On [[1,2],[3,4]], where entry (0,1) differs
    from entry (1,0), [getTotalVariance] sets [isCovMatrix] and returns the
    sum of the input's own diagonal, 5; the diagonal of the covariance of
    the input sums to 4. *)
Theorem getTotalVariance_square_asymmetric :
  get asymmetric 0 1 = Ok (q 2 1) /\
  get asymmetric 1 0 = Ok (q 3 1) /\
  isCovMatrix_of asymmetric = Ok true /\
  getTotalVariance asymmetric = Ok (q 5 1) /\
  sum (diagonal asymmetric) = q 5 1 /\
  getCovariance asymmetric false true true = Ok [[q 2 1; q 2 1]; [q 2 1; q 2 1]] /\
  sum (diagonal [[q 2 1; q 2 1]; [q 2 1; q 2 1]]) = q 4 1.
Proof.
  repeat apply conj.
  - apply ok_scalar_eq. vm_compute. reflexivity.
  - apply ok_scalar_eq. vm_compute. reflexivity.
  - apply (isCovMatrix_square (n:=2) (M:=asymmetric) (x:=q 1 1)).
    + lia.
    + split; [reflexivity|repeat constructor].
    + apply ok_scalar_eq. vm_compute. reflexivity.
    + vm_compute. reflexivity.
  - apply ok_scalar_eq. vm_compute. reflexivity.
  - apply Qc_eq_bool_correct. vm_compute. reflexivity.
  - apply ok_matrix_eq. vm_compute. reflexivity.
  - apply Qc_eq_bool_correct. vm_compute. reflexivity.
Qed.

(** ** Cumulative proportion of variance *)

(** C2 as stated fails.  The eigenvalues 50 and 0 with the eigenvectors
    (3/5, 4/5) and (4/5, -3/5) are an orthonormal eigendecomposition of the
    covariance [[18,24],[24,32]] of the symmetric dataset [[14,8],[8,0]],
    and they are what [getEigen] returns; but [getTotalVariance] takes the
    dataset itself for a covariance matrix and sums its diagonal, 14, so
    with [n_pcs] omitted [getCumPropVar] returns 50/14 + 0/14 = 25/7. *)
Lemma getCumPropVar_symmetric_dataset :
  getCovariance symmetric_dataset false true true
  = Ok [[q 18 1; q 24 1]; [q 24 1; q 32 1]] /\
  eigendecomposition [[q 18 1; q 24 1]; [q 24 1; q 32 1]] square_evals square_evecs /\
  getEigen [[q 18 1; q 24 1]; [q 24 1; q 32 1]] = Ok (square_evals, square_evecs) /\
  getTotalVariance symmetric_dataset = Ok (q 14 1) /\
  getCumPropVar symmetric_dataset square_evals square_evecs None = Ok (q 25 7) /\
  q 25 7 <> q 1 1.
Proof.
  split; [|split; [|split; [|split; [|split]]]].
  - apply ok_matrix_eq. vm_compute. reflexivity.
  - repeat apply conj; apply ok_matrix_eq; vm_compute; reflexivity.
  - assert (E : match getEigen [[q 18 1; q 24 1]; [q 24 1; q 32 1]] with
                | Ok (v, V) => list_eqb Qc_eq_bool v square_evals
                               && matrix_eqb V square_evecs
                | Raise _ => false
                end = true) by (vm_compute; reflexivity).
    destruct (getEigen _) as [[v V]|e]; [|discriminate].
    apply andb_prop in E. destruct E as [E1 E2].
    apply vector_eqb_eq in E1. apply matrix_eqb_eq in E2. subst. reflexivity.
  - apply ok_scalar_eq. vm_compute. reflexivity.
  - apply ok_scalar_eq. vm_compute. reflexivity.
  - intros E. apply (f_equal this) in E. vm_compute in E. discriminate.
Qed.

(** ** H-Method *)

(** C5 (what the code does).  For the feature vector (3, 4) the eigenvectors
    (4/5, -3/5) and (3/5, 4/5) have the eigenvalues 0 and 25.  The sum of the
    eigenvalue-weighted eigenvectors is (15, 20), of unit form (3/5, 4/5);
    [np.sum(..., axis=0)] instead adds up the entries of each weighted
    eigenvector, giving (0, 35), and [hMethod] normalises that to (0, 1). *)
Theorem hMethod_total_evec_sums_within_columns :
  getCovariance unit_vector false false false = Ok unit_cov /\
  eigh unit_cov = Ok (unit_evals, unit_evecs) /\
  eigendecomposition unit_cov unit_evals unit_evecs /\
  weight_loop [0; 1] unit_evals unit_evals unit_evecs unit_evecs
  = Ok ([[q 0 1; q 15 1]; [q 0 1; q 20 1]], [[q 0 1; q 15 1]; [q 0 1; q 20 1]]) /\
  sum_axis0 [[q 0 1; q 15 1]; [q 0 1; q 20 1]] = [q 0 1; q 35 1] /\
  hMethod_total_evecs unit_vector unit_vector
  = Ok ([q 0 1; q 1 1], [q 0 1; q 1 1]) /\
  weighted_column_sum unit_evals unit_evecs = [q 15 1; q 20 1] /\
  normalised (weighted_column_sum unit_evals unit_evecs) = [q 3 5; q 4 5] /\
  [q 0 1; q 1 1] <> [q 3 5; q 4 5].
Proof.
  repeat apply conj.
  - apply ok_matrix_eq. vm_compute. reflexivity.
  - reflexivity.
  - apply ok_matrix_eq. vm_compute. reflexivity.
  - apply ok_matrix_eq. vm_compute. reflexivity.
  - apply ok_matrix_eq. vm_compute. reflexivity.
  - assert (E : match weight_loop [0; 1] unit_evals unit_evals unit_evecs unit_evecs with
                | Ok (T, R) => matrix_eqb T [[q 0 1; q 15 1]; [q 0 1; q 20 1]]
                               && matrix_eqb R [[q 0 1; q 15 1]; [q 0 1; q 20 1]]
                | Raise _ => false
                end = true) by (vm_compute; reflexivity).
    destruct (weight_loop _ _ _ _ _) as [[T R]|e]; [|discriminate].
    apply andb_prop in E. destruct E as [E1 E2].
    apply matrix_eqb_eq in E1. apply matrix_eqb_eq in E2. subst. reflexivity.
  - apply vector_eqb_eq. vm_compute. reflexivity.
  - apply ok_vectors_eq. vm_compute. reflexivity.
  - apply vector_eqb_eq. vm_compute. reflexivity.
  - apply vector_eqb_eq. vm_compute. reflexivity.
  - intros E. apply (f_equal (map this)) in E. vm_compute in E. discriminate.
Qed.

(** ** Sorting of eigenpairs *)

Lemma StronglySorted_rev {A : Type} (R : A -> A -> Prop) (l : list A) :
  StronglySorted R l -> StronglySorted (fun a b => R b a) (rev l).
Proof.
  induction 1 as [|a l S IH Fa]; simpl; [constructor|].
  induction (rev l) as [|b k IHk] eqn:E in IH, Fa, l, S |- *.
  - simpl. repeat constructor.
  - assert (Fb : Forall (R a) (b :: k)).
    { rewrite <- E. apply Forall_rev. exact Fa. }
    clear E. revert Fb. induction IH as [|c k' Sk IHk' Fc]; intros Fb.
    + simpl. repeat constructor.
    + simpl. constructor.
      * apply IHk'. inversion Fb; auto.
      * apply Forall_app. split; [exact Fc|].
        constructor; [|constructor]. inversion Fb; auto.
Qed.

Lemma StronglySorted_map {A B : Type} (f : A -> B) (R : B -> B -> Prop) (l : list A) :
  StronglySorted (fun a b => R (f a) (f b)) l -> StronglySorted R (map f l).
Proof.
  induction 1 as [|a l S IH Fa]; simpl; constructor; auto.
  rewrite Forall_map. exact Fa.
Qed.

Lemma StronglySorted_adjacent {A : Type} (R : A -> A -> Prop) (d : A) (l : list A) :
  StronglySorted R l ->
  forall i, i + 1 < length l -> R (nth i l d) (nth (i + 1) l d).
Proof.
  induction 1 as [|a l S IH Fa]; intros i Hi; simpl in Hi; [lia|].
  destruct i as [|i]; simpl.
  - destruct l as [|b l]; simpl in *; [lia|]. inversion Fa; auto.
  - apply IH. lia.
Qed.

Lemma map_via_positions {A B : Type} (f : A -> B) (d : A) (l : list A) :
  map f l = map (fun j => f (nth j l d)) (seq 0 (length l)).
Proof.
  rewrite <- (map_nth_seq d l) at 1. rewrite map_map. reflexivity.
Qed.

Lemma nth_map_lt {A B : Type} (f : A -> B) (d : A) (d' : B) (l : list A) (j : nat) :
  j < length l -> nth j (map f l) d' = f (nth j l d).
Proof.
  intros Hj. rewrite (nth_indep _ d' (f d)) by (rewrite length_map; exact Hj).
  apply map_nth.
Qed.

Lemma combine_map {A B C : Type} (f : A -> B) (g : A -> C) (l : list A) :
  combine (map f l) (map g l) = map (fun a => (f a, g a)) l.
Proof.
  induction l as [|a l IH]; simpl; [reflexivity|]. f_equal. exact IH.
Qed.

Section SortEigen.
Context {F : Type} `{Scalar F} `{Linalg F}.

Lemma take_ok (v : list F) (indices : list nat) :
  Forall (fun i => i < length v) indices ->
  take v indices = Ok (map (fun i => nth i v zero) indices).
Proof.
  induction 1 as [|i l Hi A IH]; [reflexivity|].
  unfold take in *. cbn [mapM map].
  destruct (nth_error v i) as [x|] eqn:E.
  - cbn [bind]. rewrite IH. cbn [bind].
    rewrite (nth_error_nth _ _ zero E). reflexivity.
  - apply nth_error_None in E. lia.
Qed.

Lemma take_cols_ok (n m : nat) (M : matrix F) (indices : list nat) :
  shape n m M -> (n = 0 -> indices = []) ->
  Forall (fun i => i < m) indices ->
  take_cols M indices
  = Ok (map (fun r => map (fun i => nth i r zero) indices) M).
Proof.
  intros [L A] Hz Hi.
  assert (E : mapM (fun r => take r indices) M
              = Ok (map (fun r => map (fun i => nth i r zero) indices) M)).
  { clear L Hz. induction A as [|r M Hr A IH]; [reflexivity|].
    cbn [mapM map]. rewrite take_ok by (rewrite Hr; exact Hi).
    cbn [bind]. rewrite IH. reflexivity. }
  unfold take_cols. destruct M as [|r M]; [|exact E].
  simpl in L. rewrite Hz by auto. reflexivity.
Qed.

Lemma transpose_take_cols (n : nat) (M : matrix F) (indices : list nat) :
  1 <= n -> length M = n ->
  transpose (map (fun r => map (fun i => nth i r zero) indices) M)
  = map (fun i => col i M) indices.
Proof.
  intros Hn L. unfold transpose.
  destruct M as [|r M]; [simpl in L; lia|].
  cbn [map ncols]. rewrite length_map.
  rewrite (map_via_positions (fun i => col i (r :: M)) 0 indices).
  apply map_ext_in. intros j Hj. apply in_seq in Hj.
  unfold col. cbn [map]. f_equal.
  - apply (nth_map_lt (fun i => nth i r zero) 0 zero). lia.
  - rewrite map_map. apply map_ext. intros r'.
    apply (nth_map_lt (fun i => nth i r' zero) 0 zero). lia.
Qed.

End SortEigen.

(** C6.  Whenever [argsort] keeps its contract, [sortEigen] (and [getEigen],
    which sorts what the eigensolver returns) succeeds on [n] eigenvalues
    paired with the columns of an [n x n] matrix, its output pairs are a
    permutation of the input pairs of eigenvalue and eigenvector column, and
    the output eigenvalues are non-increasing:
    [evals[i] >= evals[i+1]] for every valid [i]. *)
Theorem sortEigen_sorted_permutation :
  forall (F : Type) (Sc : Scalar F) (L : Linalg F)
         (i_evals : list F) (i_evects : matrix F) (n : nat),
    argsort_contract argsort ->
    length i_evals = n -> shape n n i_evects ->
    exists (eigenvalues : list F) (eigenvectors : matrix F),
      sortEigen i_evals i_evects = Ok (eigenvalues, eigenvectors) /\
      (forall A : matrix F,
          eigh A = Ok (i_evals, i_evects) ->
          getEigen A = Ok (eigenvalues, eigenvectors)) /\
      Permutation (combine eigenvalues (transpose eigenvectors))
                  (combine i_evals (transpose i_evects)) /\
      (forall i : nat,
          i + 1 < length eigenvalues ->
          leb (nth (i + 1) eigenvalues zero) (nth i eigenvalues zero) = true).
Proof.
  intros F Sc L i_evals i_evects n C Ln SE.
  destruct (C i_evals) as [P Sorted].
  set (sigma := rev (argsort i_evals)).
  assert (Ps : Permutation sigma (seq 0 n)).
  { unfold sigma. rewrite <- Ln.
    eapply Permutation_trans; [apply Permutation_sym, Permutation_rev | exact P]. }
  assert (Fs : Forall (fun i => i < n) sigma).
  { apply Forall_forall. intros i Hi.
    apply (Permutation_in _ Ps) in Hi. apply in_seq in Hi. lia. }
  assert (Z0 : n = 0 -> sigma = []).
  { intros ->. apply Permutation_nil. apply Permutation_sym. exact Ps. }
  exists (map (fun i => nth i i_evals zero) sigma).
  exists (map (fun r => map (fun i => nth i r zero) sigma) i_evects).
  assert (E : sortEigen i_evals i_evects
              = Ok (map (fun i => nth i i_evals zero) sigma,
                    map (fun r => map (fun i => nth i r zero) sigma) i_evects)).
  { unfold sortEigen. fold sigma. cbv zeta.
    rewrite take_ok by (rewrite Ln; exact Fs). cbn [bind].
    rewrite (take_cols_ok SE Z0 Fs). reflexivity. }
  split; [exact E|]. split; [|split].
  - intros A EA. unfold getEigen. rewrite EA. cbn [bind]. exact E.
  - destruct n as [|k].
    + rewrite Z0 by reflexivity.
      destruct i_evals; [|discriminate]. reflexivity.
    + destruct SE as [LE AE].
      rewrite (transpose_take_cols (n:=S k) i_evects sigma) by (lia || exact LE).
      rewrite combine_map.
      assert (R : combine i_evals (transpose i_evects)
                  = map (fun i => (nth i i_evals zero, col i i_evects)) (seq 0 (S k))).
      { rewrite <- combine_map. f_equal.
        - rewrite <- Ln. symmetry. apply map_nth_seq.
        - unfold transpose. rewrite (ncols_shape (n:=S k) (m:=S k)); [reflexivity|lia|].
          split; assumption. }
      rewrite R. apply Permutation_map. exact Ps.
  - apply (StronglySorted_adjacent (R := fun x y : F => leb y x = true)).
    apply StronglySorted_map with (R := fun x y : F => leb y x = true).
    unfold sigma. apply StronglySorted_rev in Sorted. exact Sorted.
Qed.

Section InsertionArgsort.
Context {F : Type} `{Scalar F}.
Hypothesis leb_total : forall x y : F, leb x y = false -> leb y x = true.
Hypothesis leb_trans : forall x y z : F, leb x y = true -> leb y z = true -> leb x z = true.

Lemma insert_by_perm (v : list F) (i : nat) (l : list nat) :
  Permutation (insert_by v i l) (i :: l).
Proof.
  induction l as [|j l IH]; simpl; [reflexivity|].
  destruct (leb (nth i v zero) (nth j v zero)); [reflexivity|].
  rewrite IH. apply perm_swap.
Qed.

Lemma insert_by_sorted (v : list F) (i : nat) (l : list nat) :
  StronglySorted (fun a b => leb (nth a v zero) (nth b v zero) = true) l ->
  StronglySorted (fun a b => leb (nth a v zero) (nth b v zero) = true) (insert_by v i l).
Proof.
  induction 1 as [|j l S IH Fj]; simpl; [repeat constructor|].
  destruct (leb (nth i v zero) (nth j v zero)) eqn:E.
  - constructor; [constructor; assumption|].
    constructor; [exact E|].
    eapply Forall_impl; [|exact Fj]. intros a Ha. simpl in Ha.
    eapply leb_trans; eassumption.
  - constructor; [exact IH|].
    eapply Permutation_Forall; [apply Permutation_sym, insert_by_perm|].
    constructor; [apply leb_total; exact E | exact Fj].
Qed.

Lemma insertion_argsort_contract : argsort_contract insertion_argsort.
Proof.
  intros v. unfold insertion_argsort.
  generalize (seq 0 (length v)) as l. intros l. split.
  - induction l as [|i l IH]; simpl; [reflexivity|].
    rewrite insert_by_perm. constructor. exact IH.
  - induction l as [|i l IH]; simpl; [constructor|].
    apply insert_by_sorted. exact IH.
Qed.

End InsertionArgsort.

Lemma Qc_argsort_contract : argsort_contract (F:=Qc) argsort.
Proof.
  apply insertion_argsort_contract; simpl.
  - intros x y E. apply Qle_bool_iff.
    destruct (Qlt_le_dec y x) as [Lt|Le].
    + apply Qlt_le_weak. exact Lt.
    + apply Qle_bool_iff in Le. congruence.
  - intros x y z A B. apply Qle_bool_iff. apply Qle_bool_iff in A, B.
    eapply Qle_trans; eassumption.
Qed.

(** C6 at three eigenvalues 1, 3, 2 paired with the columns of a 3 x 3
    matrix. *)
Lemma sortEigen_sorted_permutation_witness :
  exists (eigenvalues : list Qc) (eigenvectors : matrix Qc),
    sortEigen [q 1 1; q 3 1; q 2 1]
              [[q 1 1; q 2 1; q 3 1]; [q 4 1; q 5 1; q 6 1]; [q 7 1; q 8 1; q 9 1]]
    = Ok (eigenvalues, eigenvectors) /\
    (forall A : matrix Qc,
        eigh A = Ok ([q 1 1; q 3 1; q 2 1],
                     [[q 1 1; q 2 1; q 3 1]; [q 4 1; q 5 1; q 6 1]; [q 7 1; q 8 1; q 9 1]]) ->
        getEigen A = Ok (eigenvalues, eigenvectors)) /\
    Permutation (combine eigenvalues (transpose eigenvectors))
                (combine [q 1 1; q 3 1; q 2 1]
                         (transpose [[q 1 1; q 2 1; q 3 1]; [q 4 1; q 5 1; q 6 1];
                                     [q 7 1; q 8 1; q 9 1]])) /\
    (forall i : nat,
        i + 1 < length eigenvalues ->
        leb (nth (i + 1) eigenvalues zero) (nth i eigenvalues zero) = true).
Proof.
  apply (@sortEigen_sorted_permutation Qc Qc_scalar Qc_linalg _ _ 3).
  - exact Qc_argsort_contract.
  - reflexivity.
  - split; [reflexivity|repeat constructor].
Defined.

(** ** Text *)

Lemma all_chars_append (p : ascii -> bool) (s t : string) :
  all_chars p (String.append s t) = all_chars p s && all_chars p t.
Proof.
  unfold all_chars. induction s as [|c s IH]; simpl; [reflexivity|].
  rewrite IH. apply andb_assoc.
Qed.

Lemma all_chars_impl (p p' : ascii -> bool) (s : string) :
  (forall c, p c = true -> p' c = true) ->
  all_chars p s = true -> all_chars p' s = true.
Proof.
  intros I. unfold all_chars. rewrite !forallb_forall. auto.
Qed.

Lemma plain_char_not_upper (c : ascii) : plain_char c = true -> negb (is_upper c) = true.
Proof.
  unfold plain_char. intros E. apply negb_true_iff in E.
  apply orb_false_iff in E. destruct E as [E _]. rewrite E. reflexivity.
Qed.

Lemma plain_char_not_special (c : ascii) :
  plain_char c = true -> negb (csv_special c) = true.
Proof.
  unfold plain_char. intros E. apply negb_true_iff in E.
  apply orb_false_iff in E. destruct E as [_ E]. rewrite E. reflexivity.
Qed.

Lemma plain_char_not_comma (c : ascii) :
  plain_char c = true -> negb (Ascii.eqb c ",") = true.
Proof.
  intros E. apply plain_char_not_special in E. unfold csv_special in E.
  destruct (Ascii.eqb c ","); [discriminate|reflexivity].
Qed.

(** A marker that starts with an upper-case letter does not occur in a text
    without upper-case letters. *)
Lemma contains_upper_first (c : ascii) (marker s : string) :
  is_upper c = true ->
  all_chars (fun a => negb (is_upper a)) s = true ->
  contains (String c marker) s = false.
Proof.
  intros U. induction s as [|a s IH]; intros A; [reflexivity|].
  unfold all_chars in A. simpl in A. apply andb_prop in A. destruct A as [Na A].
  cbn [contains prefix].
  destruct (ascii_dec c a) as [->|D].
  - rewrite U in Na. discriminate.
  - apply IH. exact A.
Qed.

Lemma split_on_without (sep : ascii) (s : string) :
  all_chars (fun c => negb (Ascii.eqb c sep)) s = true ->
  split_on sep s = [s].
Proof.
  unfold all_chars. induction s as [|c s IH]; simpl; [reflexivity|].
  intros A. apply andb_prop in A. destruct A as [N A].
  apply negb_true_iff in N. rewrite N, (IH A). reflexivity.
Qed.

Lemma split_on_append (sep : ascii) (s t : string) :
  all_chars (fun c => negb (Ascii.eqb c sep)) s = true ->
  split_on sep (String.append s (String sep t)) = s :: split_on sep t.
Proof.
  unfold all_chars. induction s as [|c s IH]; simpl.
  - intros _. rewrite Ascii.eqb_refl. reflexivity.
  - intros A. apply andb_prop in A. destruct A as [N A].
    apply negb_true_iff in N. rewrite N, (IH A). reflexivity.
Qed.

Lemma concat_comma_cons (x y : string) (rest : list string) :
  String.concat "," (x :: y :: rest)
  = String.append x (String "," (String.concat "," (y :: rest))).
Proof. reflexivity. Qed.

(** [",".join(fields).split(",")] gives the fields back. *)
Lemma split_on_concat (fields : list string) :
  fields <> [] ->
  Forall (fun s => all_chars (fun c => negb (Ascii.eqb c ",")) s = true) fields ->
  split_on "," (String.concat "," fields) = fields.
Proof.
  intros N A. induction A as [|x rest Hx A IH]; [congruence|].
  destruct rest as [|y rest].
  - simpl. apply split_on_without. exact Hx.
  - rewrite concat_comma_cons.
    rewrite (@split_on_append "," x _ Hx). f_equal. apply IH. discriminate.
Qed.

Lemma all_chars_concat (p : ascii -> bool) (fields : list string) :
  p ","%char = true ->
  Forall (fun s => all_chars p s = true) fields ->
  all_chars p (String.concat "," fields) = true.
Proof.
  intros Pc A. induction A as [|x rest Hx A IH]; [reflexivity|].
  destruct rest as [|y rest]; [exact Hx|].
  rewrite concat_comma_cons, all_chars_append, Hx.
  unfold all_chars in *. cbn [list_ascii_of_string forallb]. rewrite Pc, IH.
  reflexivity.
Qed.

Lemma csv_field_plain (s : string) : plain_field s = true -> csv_field s = s.
Proof.
  unfold plain_field, csv_field. intros E. apply andb_prop in E. destruct E as [_ E].
  rewrite (@all_chars_impl _ _ _ plain_char_not_special E). reflexivity.
Qed.

Lemma writerow_plain (fields : list string) :
  Forall (fun s => plain_field s = true) fields ->
  writerow fields = String.concat "," fields.
Proof.
  intros A. unfold writerow.
  assert (M : map csv_field fields = fields).
  { induction A as [|x rest Hx A IH]; [reflexivity|].
    simpl. rewrite (csv_field_plain _ Hx), IH. reflexivity. }
  destruct fields as [|x [|y rest]].
  - reflexivity.
  - destruct x as [|c x].
    + inversion A as [|? ? P]. discriminate P.
    + rewrite M. reflexivity.
  - rewrite M. destruct x; reflexivity.
Qed.

Section PrintedRows.
Context {F : Type} `{FloatRead F} `{FloatShow F} `{!FloatText F}.

Lemma printed_plain (v : list F) :
  Forall (fun s => plain_field s = true) (map string_of_float v).
Proof.
  rewrite Forall_map. apply Forall_forall. intros x _. apply string_of_float_plain.
Qed.

Lemma printed_all (p : ascii -> bool) (v : list F) :
  (forall c, plain_char c = true -> p c = true) ->
  Forall (fun s => all_chars p s = true) (map string_of_float v).
Proof.
  intros I. rewrite Forall_map. apply Forall_forall. intros x _.
  pose proof (string_of_float_plain x) as P. unfold plain_field in P.
  apply andb_prop in P. destruct P as [_ P].
  apply (@all_chars_impl _ _ _ I P).
Qed.

(** A row of printed floats reads back as the floats. *)
Lemma parse_row_writerow (v : list F) :
  v <> [] -> parse_row (writerow (map string_of_float v)) = Ok v.
Proof.
  intros N. rewrite writerow_plain by apply printed_plain.
  unfold parse_row. rewrite split_on_concat.
  - clear N. induction v as [|x v IH]; [reflexivity|].
    cbn [map mapM]. rewrite float_of_string_of_float. cbn [bind].
    rewrite IH. reflexivity.
  - destruct v; [congruence|discriminate].
  - apply printed_all. apply plain_char_not_comma.
Qed.

(** No marker that starts with an upper-case letter occurs in a row of
    printed floats. *)
Lemma contains_writerow (c : ascii) (marker : string) (v : list F) :
  is_upper c = true ->
  contains (String c marker) (writerow (map string_of_float v)) = false.
Proof.
  intros U. rewrite writerow_plain by apply printed_plain.
  apply contains_upper_first; [exact U|].
  apply all_chars_concat; [reflexivity|].
  apply printed_all. apply plain_char_not_upper.
Qed.

End PrintedRows.

(** ** The parse of a reference file *)

Section ParseSections.
Context {F : Type} `{FloatRead F}.

Lemma parse_loop_step (fuel : nat) (row : string) (f : list string) (st : reference F) :
  parse_loop (S fuel) (row :: f) st
  = ('(_, f'', st') <- parse_body row f st ;; parse_loop fuel f'' st').
Proof. reflexivity. Qed.

Lemma skip_until_found (marker row : string) (f : list string) :
  contains marker row = true -> skip_until marker row f = Ok (row, f).
Proof. intros C. destruct f; simpl; rewrite C; reflexivity. Qed.

Lemma skip_until_next (marker row row' : string) (f : list string) :
  contains marker row = false ->
  skip_until marker row (row' :: f) = skip_until marker row' f.
Proof. intros C. simpl. rewrite C. reflexivity. Qed.

(** Decides the marker tests on literal rows and steps past them. *)
Ltac marker_tests :=
  repeat (match goal with
          | |- context [contains ?m ?r] =>
              let b := eval vm_compute in (contains m r) in
              match b with
              | true => change (contains m r) with true
              | false => change (contains m r) with false
              end
          end; cbn [bind next]).

Lemma parse_body_avg (values : string) (v : list F) (f : list string) (st : reference F) :
  parse_row values = Ok v ->
  contains "ENDAVGVECTOR" values = false ->
  parse_body "BEGINAVGVECTOR" (values :: "ENDAVGVECTOR"%string :: f) st
  = Ok ("ENDAVGVECTOR"%string, f,
        {| avgvec := Some v; stddev := stddev st; corr_matrix := corr_matrix st;
           evals := evals st; evecs := evecs st |}).
Proof.
  intros P C. unfold parse_body. marker_tests. rewrite P. cbn [bind].
  rewrite skip_until_next by exact C. rewrite skip_until_found by reflexivity.
  cbn [bind]. marker_tests. reflexivity.
Qed.

Lemma parse_body_std (values : string) (v : list F) (f : list string) (st : reference F) :
  parse_row values = Ok v ->
  contains "ENDSTANDDEV" values = false ->
  parse_body "BEGINSTANDDEV" (values :: "ENDSTANDDEV"%string :: f) st
  = Ok ("ENDSTANDDEV"%string, f,
        {| avgvec := avgvec st; stddev := Some v; corr_matrix := corr_matrix st;
           evals := evals st; evecs := evecs st |}).
Proof.
  intros P C. unfold parse_body. marker_tests. rewrite P. cbn [bind].
  rewrite skip_until_next by exact C. rewrite skip_until_found by reflexivity.
  cbn [bind]. marker_tests. reflexivity.
Qed.

Lemma parse_body_flag (b : bool) (f : list string) (st : reference F) :
  parse_body "ISCORRMATRIX" (str_bool b :: "ENDCORRMATRIX"%string :: f) st
  = Ok ("ENDCORRMATRIX"%string, f,
        {| avgvec := avgvec st; stddev := stddev st; corr_matrix := Some (str_bool b);
           evals := evals st; evecs := evecs st |}).
Proof.
  assert (C : contains "ENDCORRMATRIX" (str_bool b) = false) by (destruct b; reflexivity).
  unfold parse_body. marker_tests.
  rewrite skip_until_next by exact C. rewrite skip_until_found by reflexivity.
  cbn [bind]. marker_tests. reflexivity.
Qed.

Lemma parse_body_evals (values : string) (v : list F) (f : list string) (st : reference F) :
  parse_row values = Ok v ->
  contains "ENDEVALS" values = false ->
  parse_body "BEGINEVALS" (values :: "ENDEVALS"%string :: f) st
  = Ok ("ENDEVALS"%string, f,
        {| avgvec := avgvec st; stddev := stddev st; corr_matrix := corr_matrix st;
           evals := Some v; evecs := evecs st |}).
Proof.
  intros P C. unfold parse_body. marker_tests. rewrite P. cbn [bind].
  rewrite skip_until_next by exact C. rewrite skip_until_found by reflexivity.
  cbn [bind]. marker_tests. reflexivity.
Qed.

(** The loop of lines 113-115 on rows that read back as [vs], followed by
    the closing marker. *)
Lemma read_evecs_rows (rows : list string) (vs acc : list (list F))
      (row : string) (f : list string) :
  Forall2 (fun r v => parse_row r = Ok v /\ contains "ENDEVECS" r = false) rows vs ->
  row :: f = rows ++ ["ENDEVECS"%string] ->
  read_evecs row f acc = Ok ("ENDEVECS"%string, [], acc ++ vs).
Proof.
  intros A. revert acc row f.
  induction A as [|r v rows vs [P C] A IH]; intros acc row f E.
  - injection E as -> ->. cbn [read_evecs].
    change (contains "ENDEVECS" "ENDEVECS") with true.
    rewrite app_nil_r. reflexivity.
  - cbn [app] in E. injection E as -> ->.
    destruct (rows ++ ["ENDEVECS"%string]) as [|row' f'] eqn:E'.
    + destruct rows; discriminate.
    + cbn [read_evecs]. rewrite C, P. cbn [bind].
      rewrite (IH (acc ++ [v]) row' f' eq_refl).
      rewrite <- app_assoc. reflexivity.
Qed.

Lemma parse_body_evecs (rows : list string) (vs : list (list F)) (st : reference F) :
  Forall2 (fun r v => parse_row r = Ok v /\ contains "ENDEVECS" r = false) rows vs ->
  parse_body "BEGINEVECS" (rows ++ ["ENDEVECS"%string]) st
  = Ok ("ENDEVECS"%string, [],
        {| avgvec := avgvec st; stddev := stddev st; corr_matrix := corr_matrix st;
           evals := evals st; evecs := evecs st ++ vs |}).
Proof.
  intros A. unfold parse_body. marker_tests.
  destruct (rows ++ ["ENDEVECS"%string]) as [|row f] eqn:E.
  - destruct rows; discriminate.
  - cbn [next bind]. rewrite (read_evecs_rows (evecs st) A (eq_sym E)).
    reflexivity.
Qed.

End ParseSections.

(** ** Round trip of the reference file *)

Section RoundTrip.
Context {F : Type} `{FloatRead F} `{FloatShow F} `{!FloatText F}.

Lemma reference_lines_layout (mean_vector stddev_vector : list F) (flag : bool)
      (eigenvalues : list F) (eigenvectors : matrix F) :
  reference_lines mean_vector stddev_vector flag eigenvalues eigenvectors
  = "BEGINAVGVECTOR"%string :: writerow (map string_of_float mean_vector)
    :: "ENDAVGVECTOR"%string
    :: "BEGINSTANDDEV"%string :: writerow (map string_of_float stddev_vector)
    :: "ENDSTANDDEV"%string
    :: "ISCORRMATRIX"%string :: str_bool flag :: "ENDCORRMATRIX"%string
    :: "BEGINEVALS"%string :: writerow (map string_of_float eigenvalues)
    :: "ENDEVALS"%string
    :: "BEGINEVECS"%string
    :: (map (fun r => writerow (map string_of_float r)) eigenvectors
        ++ ["ENDEVECS"%string]).
Proof. unfold reference_lines. destruct flag; reflexivity. Qed.

Lemma printed_rows_read_back (eigenvectors : matrix F) :
  Forall (fun r => r <> []) eigenvectors ->
  Forall2 (fun r v => parse_row r = Ok v /\ contains "ENDEVECS" r = false)
          (map (fun r => writerow (map string_of_float r)) eigenvectors)
          eigenvectors.
Proof.
  induction 1 as [|r rows N A IH]; simpl; constructor; [|exact IH].
  split; [apply parse_row_writerow; exact N|].
  apply contains_writerow. reflexivity.
Qed.

End RoundTrip.

(** C7.  When [float(str(x))] gives [x] back and [str(x)] is a plain field,
    the parse of [implementPCA] recovers from the lines written by
    [storeReferenceData] the mean vector, the standard deviations, the
    eigenvalues and the eigenvector matrix that were written, and the text
    of the correlation flag, on which the test for ["True"] gives the flag
    back.  Every vector holds at least one feature. *)
Theorem reference_round_trip :
  forall (F : Type) (R : FloatRead F) (Sh : FloatShow F) (T : FloatText F)
         (mean_vector stddev_vector : list F) (flag : bool)
         (eigenvalues : list F) (eigenvectors : matrix F),
    mean_vector <> [] -> stddev_vector <> [] -> eigenvalues <> [] ->
    Forall (fun r => r <> []) eigenvectors ->
    parse_reference
      (reference_lines mean_vector stddev_vector flag eigenvalues eigenvectors)
    = Ok {| avgvec := Some mean_vector; stddev := Some stddev_vector;
            corr_matrix := Some (str_bool flag); evals := Some eigenvalues;
            evecs := eigenvectors |}
    /\ contains "True" (str_bool flag) = flag.
Proof.
  intros F R Sh T mean_vector stddev_vector flag eigenvalues eigenvectors
         Nm Ns Ne Nv.
  split; [|destruct flag; reflexivity].
  unfold parse_reference. rewrite reference_lines_layout. cbn [length].
  rewrite parse_loop_step, parse_body_avg with (v := mean_vector);
    [ | apply parse_row_writerow; exact Nm | apply contains_writerow; reflexivity ].
  cbn [bind avgvec stddev corr_matrix evals evecs].
  rewrite parse_loop_step, parse_body_std with (v := stddev_vector);
    [ | apply parse_row_writerow; exact Ns | apply contains_writerow; reflexivity ].
  cbn [bind avgvec stddev corr_matrix evals evecs].
  rewrite parse_loop_step, parse_body_flag.
  cbn [bind avgvec stddev corr_matrix evals evecs].
  rewrite parse_loop_step, parse_body_evals with (v := eigenvalues);
    [ | apply parse_row_writerow; exact Ne | apply contains_writerow; reflexivity ].
  cbn [bind avgvec stddev corr_matrix evals evecs].
  rewrite parse_loop_step, parse_body_evecs with (vs := eigenvectors);
    [ | apply printed_rows_read_back; exact Nv ].
  cbn [bind avgvec stddev corr_matrix evals evecs app].
  destruct (length _); reflexivity.
Qed.

(** Integers in decimal are a text format that round-trips. *)
Lemma digits_plain (d : Decimal.uint) :
  all_chars plain_char (NilEmpty.string_of_uint d) = true.
Proof.
  unfold all_chars. induction d; simpl; auto.
Qed.

Lemma digits_nonempty (d : Decimal.uint) :
  d <> Decimal.Nil -> NilEmpty.string_of_uint d <> EmptyString.
Proof. destruct d; simpl; congruence. Qed.

Lemma uint_plain (d : Decimal.uint) : plain_field (NilZero.string_of_uint d) = true.
Proof.
  unfold plain_field. apply andb_true_intro. split.
  - destruct d; reflexivity.
  - destruct d; try reflexivity; apply (digits_plain (_ d)).
Qed.

#[export] Instance Z_text : FloatText Z.
Proof.
  split; intros z; unfold string_of_float, float_of_string, Z_show, Z_read.
  - rewrite NilZero.isi.
    + simpl. f_equal. apply DecimalZ.of_to.
    + destruct z; simpl; try discriminate.
      intros E. injection E as E. apply (Unsigned.to_uint_nonnil _ E).
    + destruct z; simpl; try discriminate.
      intros E. injection E as E. apply (Unsigned.to_uint_nonnil _ E).
  - destruct (Z.to_int z) as [d|d]; simpl.
    + apply uint_plain.
    + pose proof (uint_plain d) as P. unfold plain_field in *.
      apply andb_prop in P. destruct P as [_ P].
      unfold all_chars in *. simpl. exact P.
Qed.

(** C7 at a reference of two features held in integers. *)
Lemma reference_round_trip_witness :
  parse_reference
    (reference_lines [1%Z; (-2)%Z] [3%Z; 4%Z] true [6%Z; 5%Z]
                     [[7%Z; 8%Z]; [9%Z; 10%Z]])
  = Ok {| avgvec := Some [1%Z; (-2)%Z]; stddev := Some [3%Z; 4%Z];
          corr_matrix := Some (str_bool true); evals := Some [6%Z; 5%Z];
          evecs := [[7%Z; 8%Z]; [9%Z; 10%Z]] |}
  /\ contains "True" (str_bool true) = true.
Proof.
  apply (@reference_round_trip Z Z_read Z_show Z_text).
  - discriminate.
  - discriminate.
  - discriminate.
  - repeat constructor; discriminate.
Defined.

(** ** Scoring against a reference *)

Section Scoring.
Context {F : Type} `{Scalar F}.

Lemma broadcast_rows (op : F -> F -> F) (n m : nat) (M : matrix F) (v : list F) :
  1 <= n -> shape n m M -> length v = m ->
  broadcast op M v = Ok (map (fun r => map2 op r v) M)
  /\ shape n m (map (fun r => map2 op r v) M).
Proof.
  intros Hn S Lv. pose proof (ncols_shape Hn S) as C. split.
  - unfold broadcast. rewrite C, Lv, Nat.eqb_refl.
    destruct M; [destruct S; simpl in *; lia|reflexivity].
  - destruct S as [L A]. split; [rewrite length_map; exact L|].
    rewrite Forall_map. eapply Forall_impl; [|exact A].
    intros r Hr. cbv beta in Hr |- *. rewrite map2_length, Hr, Lv.
    apply Nat.min_id.
Qed.

Lemma as_array_shape (m p : nat) (E : list (list F)) :
  1 <= m -> shape m p E -> as_array E = Ok E.
Proof.
  intros Hm S. unfold as_array. rewrite (ncols_shape Hm S).
  destruct S as [_ A].
  assert (B : forallb (fun r => length r =? p) E = true).
  { apply forallb_forall. rewrite Forall_forall in A.
    intros r Hr. apply Nat.eqb_eq. auto. }
  rewrite B. reflexivity.
Qed.

End Scoring.

(** C1.  Against a reference parsed from a reference file, [implementPCA]
    scores the test dataset as [((dataset - mean) / stddev) x evecs] when
    the flag text holds ["True"] and as [(dataset - mean) x evecs]
    otherwise, with the mean and the standard deviations read from the file:
    no statistic of the test dataset enters. *)
Theorem implementPCA_scores_with_stored_statistics :
  forall (F : Type) (Sc : Scalar F) (R : FloatRead F)
         (reference_file : list string) (st : reference F) (dataset : matrix F)
         (mean : list F) (flag : string) (n m p : nat),
    parse_reference reference_file = Ok st ->
    avgvec st = Some mean -> corr_matrix st = Some flag ->
    1 <= n -> 1 <= m -> shape n m dataset ->
    length mean = m -> shape m p (evecs st) ->
    (contains "True" flag = true ->
     forall sd : list F,
       stddev st = Some sd -> length sd = m ->
       implementPCA reference_file dataset
       = Ok (product (map (fun r => map2 div (map2 sub r mean) sd) dataset)
                     (evecs st) p)) /\
    (contains "True" flag = false ->
     implementPCA reference_file dataset
     = Ok (product (map (fun r => map2 sub r mean) dataset) (evecs st) p)).
Proof.
  intros F Sc R reference_file st dataset mean flag n m p
         P Em Ef Hn Hm SD Lm SE.
  destruct (@broadcast_rows _ _ sub _ _ _ _ Hn SD Lm) as [B1 S1].
  pose proof (as_array_shape Hm SE) as A.
  unfold implementPCA. rewrite P. cbn [bind]. unfold score. cbv zeta.
  rewrite Ef, Em. cbn [bound bind]. split.
  - intros T sd Es Ls. rewrite T, B1, Es. cbn [bound bind].
    destruct (@broadcast_rows _ _ div _ _ _ _ Hn S1 Ls) as [B2 S2].
    rewrite B2, A. cbn [bind]. rewrite map_map in S2 |- *.
    apply (dot_product Hn Hm S2 SE).
  - intros T. rewrite T, B1, A. cbn [bind].
    apply (dot_product Hn Hm S1 SE).
Qed.

Lemma option_vector_eqb_eq (u v : option (list Qc)) :
  option_vector_eqb u v = true -> u = v.
Proof.
  destruct u, v; simpl; try discriminate; auto.
  intros E. f_equal. apply vector_eqb_eq. exact E.
Qed.

Lemma ok_reference_eq (r : result (reference Qc)) (st : reference Qc) :
  ok_reference r st = true -> r = Ok st.
Proof.
  destruct r as [st'|e]; simpl; [|discriminate].
  intros E. repeat (apply andb_prop in E; destruct E as [E ?]).
  destruct st', st; simpl in *. f_equal.
  repeat match goal with
         | X : option_vector_eqb _ _ = true |- _ => apply option_vector_eqb_eq in X
         | X : matrix_eqb _ _ = true |- _ => apply matrix_eqb_eq in X
         end.
  subst. f_equal.
  destruct corr_matrix0, corr_matrix1; try discriminate; auto.
  f_equal. apply String.eqb_eq. assumption.
Qed.

Lemma stored_reference_parses : parse_reference stored_reference = Ok stored_reference_parsed.
Proof. apply ok_reference_eq. vm_compute. reflexivity. Qed.

(** C1 at the stored reference and a test dataset of two units. *)
Lemma implementPCA_scores_with_stored_statistics_witness :
  (contains "True" "False" = true ->
   forall sd : list Qc,
     stddev stored_reference_parsed = Some sd -> length sd = 2 ->
     implementPCA stored_reference [[q 1 1; q 2 1]; [q 5 1; q 6 1]]
     = Ok (product (map (fun r => map2 div (map2 sub r [q 3 1; q 4 1]) sd)
                        [[q 1 1; q 2 1]; [q 5 1; q 6 1]])
                   (evecs stored_reference_parsed) 2)) /\
  (contains "True" "False" = false ->
   implementPCA stored_reference [[q 1 1; q 2 1]; [q 5 1; q 6 1]]
   = Ok (product (map (fun r => map2 sub r [q 3 1; q 4 1])
                      [[q 1 1; q 2 1]; [q 5 1; q 6 1]])
                 (evecs stored_reference_parsed) 2)).
Proof.
  apply (@implementPCA_scores_with_stored_statistics Qc Qc_scalar Qc_read
           stored_reference stored_reference_parsed
           [[q 1 1; q 2 1]; [q 5 1; q 6 1]] [q 3 1; q 4 1] "False" 2 2 2).
  - exact stored_reference_parses.
  - reflexivity.
  - reflexivity.
  - lia.
  - lia.
  - split; [reflexivity|repeat constructor].
  - reflexivity.
  - split; [reflexivity|repeat constructor].
Defined.

(** ** Reference files with absent sections *)

Section AbsentSections.
Context {F : Type} `{FloatRead F}.

Lemma parse_body_blocks (row : string) (f : list string) (st : reference F) :
  parse_body row f st
  = ('(row, f, st) <-
       vector_section "BEGINAVGVECTOR" "ENDAVGVECTOR"
         (fun v st => {| avgvec := Some v; stddev := stddev st;
                         corr_matrix := corr_matrix st; evals := evals st;
                         evecs := evecs st |}) row f st ;;
     '(row, f, st) <-
       vector_section "BEGINSTANDDEV" "ENDSTANDDEV"
         (fun v st => {| avgvec := avgvec st; stddev := Some v;
                         corr_matrix := corr_matrix st; evals := evals st;
                         evecs := evecs st |}) row f st ;;
     '(row, f, st) <-
       (if contains "ISCORRMATRIX" row then
          '(row, f) <- next f ;;
          let flag := row in
          '(row, f) <- skip_until "ENDCORRMATRIX" row f ;;
          Ok (row, f, {| avgvec := avgvec st; stddev := stddev st;
                         corr_matrix := Some flag; evals := evals st;
                         evecs := evecs st |})
        else Ok (row, f, st)) ;;
     '(row, f, st) <-
       vector_section "BEGINEVALS" "ENDEVALS"
         (fun v st => {| avgvec := avgvec st; stddev := stddev st;
                         corr_matrix := corr_matrix st; evals := Some v;
                         evecs := evecs st |}) row f st ;;
     if contains "BEGINEVECS" row then
       '(row, f) <- next f ;;
       '(row, f, vs) <- read_evecs row f (evecs st) ;;
       Ok (row, f, {| avgvec := avgvec st; stddev := stddev st;
                      corr_matrix := corr_matrix st; evals := evals st;
                      evecs := vs |})
     else Ok (row, f, st)).
Proof. reflexivity. Qed.

Lemma tail_of_in (lines : list string) (row : string) (f : list string) :
  tail_of lines row f -> In row lines.
Proof. intros [before ->]. apply in_elt. Qed.

Lemma next_tail (lines : list string) (row row' : string) (f f' : list string) :
  tail_of lines row f -> next f = Ok (row', f') -> tail_of lines row' f'.
Proof.
  intros [before ->] E. destruct f as [|r f0]; [discriminate|].
  injection E as -> ->. exists (before ++ [row]). rewrite <- app_assoc. reflexivity.
Qed.

Lemma skip_until_tail (lines : list string) (marker : string) (f : list string) :
  forall (row row' : string) (f' : list string),
    tail_of lines row f -> skip_until marker row f = Ok (row', f') ->
    tail_of lines row' f'.
Proof.
  induction f as [|r f IH]; intros row row' f' T E; simpl in E.
  - destruct (contains marker row); [|discriminate].
    injection E as E1 E2. subst. exact T.
  - destruct (contains marker row).
    + injection E as E1 E2. subst. exact T.
    + apply (IH r row' f'); [|exact E].
      apply (next_tail T (f:=r :: f)). reflexivity.
Qed.

Lemma read_evecs_tail (lines : list string) (f : list string) :
  forall (row row' : string) (f' : list string) (acc vs : list (list F)),
    tail_of lines row f -> read_evecs row f acc = Ok (row', f', vs) ->
    tail_of lines row' f'.
Proof.
  induction f as [|r f IH]; intros row row' f' acc vs T E; simpl in E.
  - destruct (contains "ENDEVECS" row).
    + injection E as E1 E2 _. subst. exact T.
    + destruct (parse_row row); discriminate.
  - destruct (contains "ENDEVECS" row).
    + injection E as E1 E2 _. subst. exact T.
    + destruct (parse_row row) as [v|]; [|discriminate]. cbn [bind] in E.
      apply (IH r row' f' (acc ++ [v]) vs); [|exact E].
      apply (next_tail T (f:=r :: f)). reflexivity.
Qed.

(** A vector block either leaves everything as it is, or saw its opening
    marker in the current row and set its variable. *)
Lemma vector_section_cases (lines : list string) (begin_marker end_marker : string)
      (set : list F -> reference F -> reference F)
      (row row' : string) (f f' : list string) (st st' : reference F) :
  tail_of lines row f ->
  vector_section begin_marker end_marker set row f st = Ok (row', f', st') ->
  tail_of lines row' f' /\
  (st' = st \/ (contains begin_marker row = true /\ exists v, st' = set v st)).
Proof.
  intros T E. unfold vector_section in E.
  destruct (contains begin_marker row) eqn:C.
  - destruct (next f) as [[r1 f1]|] eqn:N; [|discriminate]. cbn [bind] in E.
    destruct (parse_row r1) as [v|]; [|discriminate]. cbn [bind] in E.
    destruct (skip_until end_marker r1 f1) as [[r2 f2]|] eqn:K; [|discriminate].
    cbn [bind] in E. injection E as -> -> <-. split.
    + eapply skip_until_tail; [|exact K]. eapply next_tail; eassumption.
    + right. split; [reflexivity|]. exists v. reflexivity.
  - injection E as -> -> <-. split; [exact T|]. left. reflexivity.
Qed.

Lemma absent_in (marker : string) (lines : list string) (row : string) (f : list string) :
  tail_of lines row f -> contains marker row = true -> absent marker lines -> False.
Proof.
  intros T C A. unfold absent in A. rewrite Forall_forall in A.
  rewrite (A row (tail_of_in T)) in C. discriminate.
Qed.

(** One pass through the body of the loop keeps the invariant. *)
Lemma parse_body_invariant (lines : list string) (row row' : string)
      (f f' : list string) (st st' : reference F) :
  tail_of lines row f -> parse_invariant lines st ->
  parse_body row f st = Ok (row', f', st') ->
  tail_of lines row' f' /\ parse_invariant lines st'.
Proof.
  intros T0 I0 E. rewrite parse_body_blocks in E.
  (* average vector *)
  destruct (vector_section "BEGINAVGVECTOR" _ _ row f st) as [[[r1 f1] s1]|] eqn:B1;
    [|discriminate].
  cbn [bind] in E.
  destruct (vector_section_cases _ _ _ _ T0 B1) as [T1 C1].
  assert (I1 : parse_invariant lines s1).
  { destruct C1 as [->|[C [v ->]]]; [exact I0|].
    destruct I0 as [_ [Ie [Iv If]]]. repeat split; auto.
    intros A. destruct (absent_in T0 C A). }
  clear B1 C1 I0 T0.
  (* standard deviations *)
  destruct (vector_section "BEGINSTANDDEV" _ _ r1 f1 s1) as [[[r2 f2] s2]|] eqn:B2;
    [|discriminate].
  cbn [bind] in E.
  destruct (vector_section_cases _ _ _ _ T1 B2) as [T2 C2].
  assert (I2 : parse_invariant lines s2).
  { destruct C2 as [->|[C [v ->]]]; [exact I1|].
    destruct I1 as [Ia [Ie [Iv If]]]. repeat split; auto. }
  clear B2 C2 I1 T1.
  (* correlation flag *)
  assert (B3 : exists r3 f3 s3,
             tail_of lines r3 f3 /\ parse_invariant lines s3 /\
             ('(row, f, st) <- Ok (r3, f3, s3) ;;
              '(row, f, st) <-
                vector_section "BEGINEVALS" "ENDEVALS"
                  (fun v st => {| avgvec := avgvec st; stddev := stddev st;
                                  corr_matrix := corr_matrix st; evals := Some v;
                                  evecs := evecs st |}) row f st ;;
              if contains "BEGINEVECS" row then
                '(row, f) <- next f ;;
                '(row, f, vs) <- read_evecs row f (evecs st) ;;
                Ok (row, f, {| avgvec := avgvec st; stddev := stddev st;
                               corr_matrix := corr_matrix st; evals := evals st;
                               evecs := vs |})
              else Ok (row, f, st)) = Ok (row', f', st')).
  { destruct (contains "ISCORRMATRIX" r2) eqn:C.
    - destruct (next f2) as [[flag f3]|] eqn:N; [|discriminate]. cbn [bind] in E.
      cbv zeta in E.
      destruct (skip_until "ENDCORRMATRIX" flag f3) as [[r4 f4]|] eqn:K; [|discriminate].
      cbn [bind] in E.
      exists r4, f4.
      exists {| avgvec := avgvec s2; stddev := stddev s2; corr_matrix := Some flag;
                evals := evals s2; evecs := evecs s2 |}.
      split; [|split; [|exact E]].
      + eapply skip_until_tail; [|exact K]. eapply next_tail; eassumption.
      + destruct I2 as [Ia [Ie [Iv If]]]. repeat split; auto.
        cbn [corr_matrix]. intros flag' Efl. injection Efl as <-.
        destruct T2 as [before ->].
        destruct f2 as [|x f2']; [discriminate|]. injection N as -> ->.
        exists before, r2, f3. split; [reflexivity|exact C].
    - exists r2, f2, s2. split; [exact T2|]. split; [exact I2|exact E]. }
  clear E I2 T2. destruct B3 as [r3 [f3 [s3 [T3 [I3 E]]]]]. cbn [bind] in E.
  (* eigenvalues *)
  destruct (vector_section "BEGINEVALS" _ _ r3 f3 s3) as [[[r4 f4] s4]|] eqn:B4;
    [|discriminate].
  cbn [bind] in E.
  destruct (vector_section_cases _ _ _ _ T3 B4) as [T4 C4].
  assert (I4 : parse_invariant lines s4).
  { destruct C4 as [->|[C [v ->]]]; [exact I3|].
    destruct I3 as [Ia [Ie [Iv If]]]. repeat split; auto.
    intros A. destruct (absent_in T3 C A). }
  clear B4 C4 I3 T3.
  (* eigenvectors *)
  destruct (contains "BEGINEVECS" r4) eqn:C.
  - destruct (next f4) as [[r5 f5]|] eqn:N; [|discriminate]. cbn [bind] in E.
    destruct (read_evecs r5 f5 (evecs s4)) as [[[r6 f6] vs]|] eqn:K; [|discriminate].
    cbn [bind] in E. injection E as -> -> <-. split.
    + eapply read_evecs_tail; [|exact K]. eapply next_tail; eassumption.
    + destruct I4 as [Ia [Ie [Iv If]]]. repeat split; auto.
      intros A. destruct (absent_in T4 C A).
  - injection E as -> -> <-. split; assumption.
Qed.

(** The loop keeps the invariant, whatever the fuel. *)
Lemma parse_loop_invariant (lines : list string) (fuel : nat) :
  forall (f : list string) (st st' : reference F),
    (exists before, lines = before ++ f) -> parse_invariant lines st ->
    parse_loop fuel f st = Ok st' -> parse_invariant lines st'.
Proof.
  induction fuel as [|fuel IH]; intros f st st' S I E.
  - destruct f; injection E as <-; exact I.
  - destruct f as [|row f]; [injection E as <-; exact I|].
    rewrite parse_loop_step in E.
    destruct (parse_body row f st) as [[[r1 f1] s1]|] eqn:B; [|discriminate].
    cbn [bind] in E.
    destruct (parse_body_invariant S I B) as [[before ->] I1].
    apply (IH f1 s1 st'); [|exact I1|exact E].
    exists (before ++ [r1]). rewrite <- app_assoc. reflexivity.
Qed.

Lemma parse_reference_invariant (lines : list string) (st : reference F) :
  parse_reference lines = Ok st -> parse_invariant lines st.
Proof.
  intros E. unfold parse_reference in E.
  eapply parse_loop_invariant; [| |exact E].
  - exists []. reflexivity.
  - repeat split; intros; try reflexivity. discriminate.
Qed.

End AbsentSections.

Lemma reference_without_evals_parses :
  parse_reference reference_without_evals = Ok reference_without_evals_parsed.
Proof. apply ok_reference_eq. vm_compute. reflexivity. Qed.

(** C8 as stated fails: a reference file with no eigenvalue section is
    parsed to the end without any error, the eigenvalues stay [None], and
    the scores are computed. *)
Lemma absent_eigenvalue_section_is_accepted :
  absent "BEGINEVALS" reference_without_evals /\
  parse_reference reference_without_evals = Ok reference_without_evals_parsed /\
  evals reference_without_evals_parsed = None /\
  implementPCA reference_without_evals [[q 1 1; q 2 1]; [q 5 1; q 6 1]]
  = Ok [[q (-2) 1; q (-2) 1]; [q 2 1; q 2 1]].
Proof.
  split; [|split; [|split]].
  - unfold absent, reference_without_evals. repeat constructor.
  - exact reference_without_evals_parses.
  - reflexivity.
  - apply ok_matrix_eq. vm_compute. reflexivity.
Qed.

(** C8, amended.  The parse has no error of its own for an absent section:
    when it completes, a section whose opening marker occurs in no line
    leaves its variable as initialised ([avgvec] and [evals] are [None],
    [evecs] is empty).  Without the average vector the scoring raises
    [TypeError] when a flag was read and [NameError] when none was read, as
    is the case when the flag section is absent too; the eigenvalues are
    not used by the scoring at all.  When a flag was read, it is the line
    after a line that holds [ISCORRMATRIX], and the scoring branches on
    whether that line holds the text [True]. *)
Theorem parse_with_absent_sections :
  forall (F : Type) (Sc : Scalar F) (R : FloatRead F)
         (reference_file : list string) (st : reference F),
    parse_reference reference_file = Ok st ->
    (absent "BEGINAVGVECTOR" reference_file ->
     avgvec st = None /\
     forall dataset : matrix F,
       (forall flag : string,
           corr_matrix st = Some flag ->
           implementPCA reference_file dataset = Raise TypeError) /\
       (corr_matrix st = None ->
        implementPCA reference_file dataset = Raise NameError) /\
       (absent "ISCORRMATRIX" reference_file ->
        corr_matrix st = None /\
        implementPCA reference_file dataset = Raise NameError)) /\
    (absent "BEGINEVALS" reference_file ->
     evals st = None /\
     forall (dataset : matrix F) (v : option (list F)),
       implementPCA reference_file dataset
       = score dataset {| avgvec := avgvec st; stddev := stddev st;
                          corr_matrix := corr_matrix st; evals := v;
                          evecs := evecs st |}) /\
    (absent "BEGINEVECS" reference_file -> evecs st = []) /\
    (forall flag : string,
        corr_matrix st = Some flag ->
        (exists (before : list string) (marker : string) (after : list string),
            reference_file = before ++ marker :: flag :: after /\
            contains "ISCORRMATRIX" marker = true) /\
        forall dataset : matrix F,
          implementPCA reference_file dataset
          = if contains "True" flag then
              mu <- bound TypeError (avgvec st) ;;
              centred <- broadcast sub dataset mu ;;
              sd <- bound NameError (stddev st) ;;
              scaled <- broadcast div centred sd ;;
              e <- as_array (evecs st) ;;
              dot scaled e
            else
              mu <- bound TypeError (avgvec st) ;;
              centred <- broadcast sub dataset mu ;;
              e <- as_array (evecs st) ;;
              dot centred e).
Proof.
  intros F Sc R reference_file st P.
  destruct (parse_reference_invariant _ P) as [Ia [Ie [Iv If]]].
  split; [|split; [|split]].
  - intros A. split; [exact (Ia A)|].
    intros dataset.
    assert (T : forall flag : string,
               corr_matrix st = Some flag ->
               implementPCA reference_file dataset = Raise TypeError).
    { intros flag Ef. unfold implementPCA. rewrite P. cbn [bind].
      unfold score. cbv zeta. rewrite (Ia A), Ef. cbn [bound bind].
      destruct (contains "True" flag); reflexivity. }
    assert (N : corr_matrix st = None ->
                implementPCA reference_file dataset = Raise NameError).
    { intros Ef. unfold implementPCA. rewrite P. cbn [bind].
      unfold score. cbv zeta. rewrite Ef. reflexivity. }
    split; [exact T|]. split; [exact N|].
    intros Af.
    assert (Ef : corr_matrix st = None).
    { destruct (corr_matrix st) as [flag|] eqn:Ef; [|reflexivity].
      destruct (If flag eq_refl) as [before [marker [after [El Cm]]]].
      unfold absent in Af. rewrite Forall_forall in Af.
      rewrite (Af marker) in Cm; [discriminate|].
      rewrite El. apply in_or_app. right. left. reflexivity. }
    split; [exact Ef|exact (N Ef)].
  - intros A. split; [exact (Ie A)|].
    intros dataset v. unfold implementPCA. rewrite P. reflexivity.
  - exact Iv.
  - intros flag Ef. split; [exact (If flag Ef)|].
    intros dataset. unfold implementPCA. rewrite P. cbn [bind].
    unfold score. cbv zeta. rewrite Ef. reflexivity.
Qed.

(** The amended C8 at the reference without eigenvalue section, at a file
    that holds the flag section only, and at the empty file. *)
Lemma parse_with_absent_sections_witness :
  absent "BEGINEVALS" reference_without_evals /\
  evals reference_without_evals_parsed = None /\
  (exists (before : list string) (marker : string) (after : list string),
      reference_without_evals = before ++ marker :: "False"%string :: after /\
      contains "ISCORRMATRIX" marker = true) /\
  @implementPCA Qc Qc_scalar Qc_read
    ["ISCORRMATRIX"; "False"; "ENDCORRMATRIX"]%string [[q 1 1; q 2 1]]
  = Raise TypeError /\
  @implementPCA Qc Qc_scalar Qc_read [] [[q 1 1; q 2 1]] = Raise NameError.
Proof.
  pose proof (@parse_with_absent_sections Qc Qc_scalar Qc_read
                reference_without_evals reference_without_evals_parsed
                reference_without_evals_parses) as [_ [Pe [_ Pf]]].
  assert (A : absent "BEGINEVALS" reference_without_evals).
  { unfold absent, reference_without_evals. repeat constructor. }
  assert (P1 : @parse_reference Qc Qc_read
                 ["ISCORRMATRIX"; "False"; "ENDCORRMATRIX"]%string
               = Ok {| avgvec := None; stddev := None;
                       corr_matrix := Some "False"%string; evals := None;
                       evecs := [] |}) by (vm_compute; reflexivity).
  assert (P2 : @parse_reference Qc Qc_read []
               = Ok {| avgvec := None; stddev := None; corr_matrix := None;
                       evals := None; evecs := [] |}) by reflexivity.
  pose proof (@parse_with_absent_sections Qc Qc_scalar Qc_read _ _ P1)
    as [Pa1 _].
  pose proof (@parse_with_absent_sections Qc Qc_scalar Qc_read _ _ P2)
    as [Pa2 _].
  assert (A1 : absent "BEGINAVGVECTOR" ["ISCORRMATRIX"; "False"; "ENDCORRMATRIX"]%string).
  { unfold absent. repeat constructor. }
  assert (A2 : absent "BEGINAVGVECTOR" []) by constructor.
  assert (A3 : absent "ISCORRMATRIX" []) by constructor.
  split; [exact A|]. split; [exact (proj1 (Pe A))|].
  split; [exact (proj1 (Pf "False"%string eq_refl))|].
  split.
  - exact (proj1 (proj2 (Pa1 A1) [[q 1 1; q 2 1]]) "False"%string eq_refl).
  - exact (proj2 (proj2 (proj2 (proj2 (Pa2 A2) [[q 1 1; q 2 1]])) A3)).
Defined.

(** ** Fuel of the parse loop *)

Section Fuel.
Context {F : Type} `{FloatRead F}.

(** The body of the loop hands back a tail of the lines it was given. *)
Lemma parse_body_tail (lines : list string) (row row' : string)
      (f f' : list string) (st st' : reference F) :
  tail_of lines row f ->
  parse_body row f st = Ok (row', f', st') ->
  tail_of lines row' f'.
Proof.
  intros T0 E. rewrite parse_body_blocks in E.
  destruct (vector_section "BEGINAVGVECTOR" _ _ row f st) as [[[r1 f1] s1]|] eqn:B1;
    [|discriminate].
  cbn [bind] in E.
  destruct (vector_section_cases _ _ _ _ T0 B1) as [T1 _]. clear B1 T0.
  destruct (vector_section "BEGINSTANDDEV" _ _ r1 f1 s1) as [[[r2 f2] s2]|] eqn:B2;
    [|discriminate].
  cbn [bind] in E.
  destruct (vector_section_cases _ _ _ _ T1 B2) as [T2 _]. clear B2 T1.
  assert (B3 : exists r3 f3 s3,
             tail_of lines r3 f3 /\
             ('(row, f, st) <- Ok (r3, f3, s3) ;;
              '(row, f, st) <-
                vector_section "BEGINEVALS" "ENDEVALS"
                  (fun v st => {| avgvec := avgvec st; stddev := stddev st;
                                  corr_matrix := corr_matrix st; evals := Some v;
                                  evecs := evecs st |}) row f st ;;
              if contains "BEGINEVECS" row then
                '(row, f) <- next f ;;
                '(row, f, vs) <- read_evecs row f (evecs st) ;;
                Ok (row, f, {| avgvec := avgvec st; stddev := stddev st;
                               corr_matrix := corr_matrix st; evals := evals st;
                               evecs := vs |})
              else Ok (row, f, st)) = Ok (row', f', st')).
  { destruct (contains "ISCORRMATRIX" r2).
    - destruct (next f2) as [[flag f3]|] eqn:N; [|discriminate]. cbn [bind] in E.
      cbv zeta in E.
      destruct (skip_until "ENDCORRMATRIX" flag f3) as [[r4 f4]|] eqn:K; [|discriminate].
      cbn [bind] in E.
      exists r4, f4.
      exists {| avgvec := avgvec s2; stddev := stddev s2; corr_matrix := Some flag;
                evals := evals s2; evecs := evecs s2 |}.
      split; [|exact E].
      eapply skip_until_tail; [|exact K]. eapply next_tail; eassumption.
    - exists r2, f2, s2. split; [exact T2|exact E]. }
  clear E T2. destruct B3 as [r3 [f3 [s3 [T3 E]]]]. cbn [bind] in E.
  destruct (vector_section "BEGINEVALS" _ _ r3 f3 s3) as [[[r4 f4] s4]|] eqn:B4;
    [|discriminate].
  cbn [bind] in E.
  destruct (vector_section_cases _ _ _ _ T3 B4) as [T4 _]. clear B4 T3.
  destruct (contains "BEGINEVECS" r4).
  - destruct (next f4) as [[r5 f5]|] eqn:N; [|discriminate]. cbn [bind] in E.
    destruct (read_evecs r5 f5 (evecs s4)) as [[[r6 f6] vs]|] eqn:K; [|discriminate].
    cbn [bind] in E. injection E as -> -> _.
    eapply read_evecs_tail; [|exact K]. eapply next_tail; eassumption.
  - injection E as -> -> _. exact T4.
Qed.

Lemma parse_body_shortens (row row' : string) (f f' : list string)
      (st st' : reference F) :
  parse_body row f st = Ok (row', f', st') -> length f' <= length f.
Proof.
  intros E.
  assert (T : tail_of (row :: f) row f) by (exists []; reflexivity).
  destruct (parse_body_tail _ T E) as [before Eq].
  apply (f_equal (@length string)) in Eq.
  rewrite length_app in Eq. simpl in Eq. lia.
Qed.

(** One unit of fuel per line is enough: with at least that much the
    result of the loop does not depend on the fuel, so it never runs
    out. *)
Lemma parse_loop_fuel (fuel : nat) :
  forall (fuel' : nat) (f : list string) (st : reference F),
    length f <= fuel -> length f <= fuel' ->
    parse_loop fuel f st = parse_loop fuel' f st.
Proof.
  induction fuel as [|fuel IH]; intros fuel' f st L L'.
  - destruct f; [|simpl in L; lia]. destruct fuel'; reflexivity.
  - destruct f as [|row f]; [destruct fuel'; reflexivity|].
    destruct fuel' as [|fuel']; [simpl in L'; lia|].
    rewrite !parse_loop_step.
    destruct (parse_body row f st) as [[[r1 f1] s1]|] eqn:B; [|reflexivity].
    cbn [bind]. pose proof (parse_body_shortens _ _ _ B) as Sh.
    simpl in L, L'. apply IH; lia.
Qed.

End Fuel.

(** ** Sums over the rationals *)

Section ExactSums.
Local Open Scope Qc_scope.

Lemma fold_left_Qcplus (v : list Qc) (a : Qc) :
  fold_left Qcplus v a = a + fold_left Qcplus v 0.
Proof.
  revert a. induction v as [|x v IH]; intros a; simpl.
  - ring.
  - rewrite IH, (IH (0 + x)). ring.
Qed.

Lemma sum_nil : sum (F:=Qc) [] = 0.
Proof. reflexivity. Qed.

Lemma sum_cons (x : Qc) (v : list Qc) : sum (x :: v) = x + sum v.
Proof.
  unfold sum. change (@add Qc Qc_scalar) with Qcplus.
  change (@zero Qc Qc_scalar) with 0. cbn [fold_left].
  rewrite fold_left_Qcplus. ring.
Qed.

Lemma sum_app (u v : list Qc) : sum (u ++ v) = sum u + sum v.
Proof.
  induction u as [|x u IH]; simpl.
  - rewrite sum_nil. ring.
  - rewrite !sum_cons, IH. ring.
Qed.

Lemma bigsum_0 (f : nat -> Qc) : bigsum 0 f = 0.
Proof. reflexivity. Qed.

Lemma bigsum_S (n : nat) (f : nat -> Qc) : bigsum (S n) f = bigsum n f + f n.
Proof.
  unfold bigsum. rewrite seq_S, map_app, sum_app. simpl.
  rewrite sum_cons, sum_nil. ring.
Qed.

Lemma bigsum_ext (n : nat) (f g : nat -> Qc) :
  (forall i, (i < n)%nat -> f i = g i) -> bigsum n f = bigsum n g.
Proof.
  induction n as [|n IH]; intros E; [reflexivity|].
  rewrite !bigsum_S, IH, E by auto. reflexivity.
Qed.

Lemma bigsum_add (n : nat) (f g : nat -> Qc) :
  bigsum n (fun i => f i + g i) = bigsum n f + bigsum n g.
Proof.
  induction n as [|n IH]; [rewrite !bigsum_0; ring|].
  rewrite !bigsum_S, IH. ring.
Qed.

Lemma bigsum_scale (n : nat) (c : Qc) (f : nat -> Qc) :
  bigsum n (fun i => c * f i) = c * bigsum n f.
Proof.
  induction n as [|n IH]; [rewrite !bigsum_0; ring|].
  rewrite !bigsum_S, IH. ring.
Qed.

Lemma bigsum_zero (n : nat) (f : nat -> Qc) :
  (forall i, (i < n)%nat -> f i = 0) -> bigsum n f = 0.
Proof.
  induction n as [|n IH]; intros E; [reflexivity|].
  rewrite bigsum_S, IH, E by auto. ring.
Qed.

Lemma bigsum_exchange (n m : nat) (f : nat -> nat -> Qc) :
  bigsum n (fun i => bigsum m (fun j => f i j))
  = bigsum m (fun j => bigsum n (fun i => f i j)).
Proof.
  induction n as [|n IH].
  - rewrite bigsum_0. symmetry. apply bigsum_zero. intros; apply bigsum_0.
  - rewrite bigsum_S, IH, <- bigsum_add.
    apply bigsum_ext. intros j _. rewrite bigsum_S. reflexivity.
Qed.

Lemma delta_same (i : nat) : delta i i = 1.
Proof. unfold delta. rewrite Nat.eqb_refl. reflexivity. Qed.

Lemma delta_other (i j : nat) : i <> j -> delta i j = 0.
Proof.
  intros N. unfold delta. destruct (Nat.eqb_spec i j); [contradiction|reflexivity].
Qed.

Lemma bigsum_delta (n i : nat) (f : nat -> Qc) :
  (i < n)%nat -> bigsum n (fun k => f k * delta i k) = f i.
Proof.
  induction n as [|n IH]; intros L; [lia|].
  rewrite bigsum_S. destruct (Nat.eq_dec i n) as [->|N].
  - rewrite delta_same, bigsum_zero; [ring|].
    intros k Hk. rewrite delta_other by lia. ring.
  - rewrite IH by lia. rewrite delta_other by exact N. ring.
Qed.

(** The trace of a matrix is the sum of its eigenvalues: with [c v = v l],
    [v^T v = 1] and [v v^T = 1] entry by entry, the sum of the [l j] is the
    sum of the [c i i]. *)
Lemma trace_is_sum_of_eigenvalues (m : nat) (c v : nat -> nat -> Qc) (l : nat -> Qc) :
  (forall i j, (i < m)%nat -> (j < m)%nat ->
               bigsum m (fun k => c i k * v k j) = v i j * l j) ->
  (forall i j, (i < m)%nat -> (j < m)%nat ->
               bigsum m (fun k => v k i * v k j) = delta i j) ->
  (forall i j, (i < m)%nat -> (j < m)%nat ->
               bigsum m (fun k => v i k * v j k) = delta i j) ->
  bigsum m l = bigsum m (fun i => c i i).
Proof.
  intros A B C.
  transitivity (bigsum m (fun j => bigsum m (fun i => bigsum m (fun k =>
                 c i k * (v i j * v k j))))).
  - apply bigsum_ext. intros j Hj.
    transitivity (bigsum m (fun i => v i j * (v i j * l j))).
    + rewrite <- (Qcmult_1_l (l j)) at 1. rewrite <- (delta_same j).
      rewrite <- (B j j Hj Hj). rewrite Qcmult_comm, <- bigsum_scale.
      apply bigsum_ext. intros i _. ring.
    + apply bigsum_ext. intros i Hi. rewrite <- (A i j Hi Hj).
      rewrite <- bigsum_scale. apply bigsum_ext. intros k _. ring.
  - rewrite bigsum_exchange. apply bigsum_ext. intros i Hi.
    rewrite bigsum_exchange.
    rewrite <- (bigsum_delta (fun k => c i k) Hi).
    apply bigsum_ext. intros k Hk.
    rewrite <- (C i k Hi Hk), <- bigsum_scale. reflexivity.
Qed.

Lemma fold_left_proportion (t : Qc) (v : list Qc) (a : Qc) :
  fold_left (fun cumu_prop val => cumu_prop + val / t) v a = a + sum v / t.
Proof.
  revert a. induction v as [|x v IH]; intros a; simpl.
  - rewrite sum_nil. unfold Qcdiv. ring.
  - rewrite IH, sum_cons. unfold Qcdiv. ring.
Qed.

End ExactSums.

(** ** Entries of products *)

Lemma nth_map2 {A B C : Type} (f : A -> B -> C) (da : A) (db : B) (dc : C)
      (u : list A) (v : list B) (j : nat) :
  j < length u -> j < length v ->
  nth j (map2 f u v) dc = f (nth j u da) (nth j v db).
Proof.
  revert v j. induction u as [|a u IH]; intros [|b v] [|j] Lu Lv; simpl in *;
    try lia; [reflexivity|]. apply IH; lia.
Qed.

Lemma shape_row (n m i : nat) (M : matrix Qc) :
  shape n m M -> i < n -> length (nth i M []) = m.
Proof.
  intros [L A] Hi. rewrite Forall_forall in A. apply A. apply nth_In. lia.
Qed.

Lemma dotp_bigsum (u v : list Qc) (n : nat) :
  length u = n -> length v = n ->
  dotp u v = bigsum n (fun k => (nth k u zero * nth k v zero)%Qc).
Proof.
  intros Lu Lv. unfold dotp, bigsum. f_equal.
  revert v n Lu Lv. induction u as [|a u IH]; intros [|b v] [|n] Lu Lv;
    simpl in *; try discriminate; [reflexivity|].
  f_equal. rewrite <- seq_shift, map_map. apply IH; lia.
Qed.

Lemma entry_col (M : matrix Qc) (j k : nat) :
  k < length M -> nth k (col j M) zero = entry M k j.
Proof.
  intros Hk. unfold col, entry.
  apply (nth_map_lt (fun r : list Qc => nth j r zero) [] zero). exact Hk.
Qed.

(** An entry of [np.dot(A, B)] is the sum of the products along a row of
    [A] and a column of [B]. *)
Lemma dot_entry (A B M : matrix Qc) (n m p : nat) :
  1 <= n -> 1 <= m -> shape n m A -> shape m p B -> dot A B = Ok M ->
  forall i j, i < n -> j < p ->
    entry M i j = bigsum m (fun k => (entry A i k * entry B k j)%Qc).
Proof.
  intros Hn Hm SA SB E i j Hi Hj.
  rewrite (dot_product Hn Hm SA SB) in E. injection E as <-.
  unfold entry at 1. unfold product.
  rewrite (nth_map_lt _ [] []) by (destruct SA as [L _]; lia).
  rewrite (nth_map_lt _ 0 zero) by (rewrite length_seq; lia).
  rewrite seq_nth by lia. cbn [Nat.add].
  rewrite (@dotp_bigsum _ _ m).
  - apply bigsum_ext. intros k Hk. rewrite entry_col; [reflexivity|].
    destruct SB as [L _]. lia.
  - apply (shape_row SA Hi).
  - rewrite col_length. destruct SB as [L _]. exact L.
Qed.

Lemma entry_transpose (M : matrix Qc) (n m i j : nat) :
  1 <= n -> shape n m M -> i < m -> j < n ->
  entry (transpose M) i j = entry M j i.
Proof.
  intros Hn S Hi Hj. unfold entry at 1. unfold transpose.
  rewrite (ncols_shape Hn S).
  rewrite (nth_map_lt _ 0 []) by (rewrite length_seq; lia).
  rewrite seq_nth by lia. cbn [Nat.add].
  apply entry_col. destruct S as [L _]. lia.
Qed.

Lemma entry_identity (n i j : nat) :
  i < n -> j < n -> entry (identity n) i j = delta i j.
Proof.
  intros Hi Hj. unfold entry, identity.
  rewrite (nth_map_lt _ 0 []) by (rewrite length_seq; lia).
  rewrite (nth_map_lt _ 0 zero) by (rewrite length_seq; lia).
  rewrite !seq_nth by lia. reflexivity.
Qed.

Lemma entry_scaled_columns (V : matrix Qc) (evals : list Qc) (m i j : nat) :
  shape m m V -> length evals = m -> i < m -> j < m ->
  entry (map (fun r => map2 mul r evals) V) i j
  = (entry V i j * nth j evals zero)%Qc.
Proof.
  intros S L Hi Hj. unfold entry.
  rewrite (nth_map_lt _ [] []) by (destruct S as [LV _]; lia).
  apply nth_map2; [rewrite (shape_row S Hi)|rewrite L]; exact Hj.
Qed.

Lemma shape_gram_over (A : matrix Qc) (m : nat) (c : Qc) :
  shape m m (gram_over A m c).
Proof.
  unfold gram_over. split.
  - rewrite length_map, length_seq. reflexivity.
  - rewrite Forall_map. apply Forall_forall. intros i _.
    rewrite length_map, length_seq. reflexivity.
Qed.

Lemma sum_diagonal (M : matrix Qc) (m : nat) :
  1 <= m -> shape m m M -> sum (diagonal M) = bigsum m (fun i => entry M i i).
Proof.
  intros Hm S. unfold diagonal, bigsum, entry.
  rewrite (ncols_shape Hm S). destruct S as [L _].
  unfold nrows. rewrite L, Nat.min_id. reflexivity.
Qed.

(** ** Cumulative proportion of variance, all components *)

Lemma Qc_eqb_refl (x : Qc) : eqb x x = true.
Proof. simpl. unfold Qc_eq_bool. destruct (Qc_eq_dec x x); congruence. Qed.

(** A dataset that is not square is never taken for a covariance matrix. *)
Lemma getTotalVariance_not_square (D C : matrix Qc) (n m : nat) :
  1 <= n -> 1 <= m -> n <> m -> shape n m D ->
  getCovariance D false true true = Ok C ->
  getTotalVariance D = Ok (sum (diagonal C)).
Proof.
  intros Hn Hm N S E. unfold getTotalVariance, isCovMatrix_of.
  destruct (row_at_0 Hn S) as [r [R Lr]].
  rewrite (col_at_ok (j:=0) Hn S) by lia. rewrite R. cbn [bind].
  rewrite col_length, Lr. destruct S as [L A]. rewrite L.
  destruct (Nat.eqb_spec n m); [contradiction|].
  cbn [bind]. rewrite E. reflexivity.
Qed.

(** The eigenvalues of an orthonormal eigendecomposition add up to the
    trace. *)
Lemma eigenvalues_sum_to_trace (C : matrix Qc) (evals : list Qc) (evecs : matrix Qc)
      (m : nat) :
  1 <= m -> shape m m C -> length evals = m -> shape m m evecs ->
  eigendecomposition C evals evecs ->
  sum evals = sum (diagonal C).
Proof.
  intros Hm SC L SV [A [B O]]. rewrite L in B, O.
  rewrite (sum_diagonal Hm SC).
  transitivity (bigsum m (fun j => nth j evals zero)).
  - unfold bigsum. rewrite <- L, map_nth_seq. reflexivity.
  - pose proof (shape_transpose Hm SV) as ST.
    apply (@trace_is_sum_of_eigenvalues m (entry C) (entry evecs)
                                        (fun j => nth j evals zero)).
    + intros i j Hi Hj.
      rewrite <- (dot_entry Hm Hm SC SV A Hi Hj).
      apply entry_scaled_columns with (m := m); assumption.
    + intros i j Hi Hj.
      rewrite <- (entry_identity Hi Hj).
      rewrite (dot_entry Hm Hm ST SV B Hi Hj).
      apply bigsum_ext. intros k Hk.
      rewrite (entry_transpose Hm SV Hi Hk). reflexivity.
    + intros i j Hi Hj.
      rewrite <- (entry_identity Hi Hj).
      rewrite (dot_entry Hm Hm SV ST O Hi Hj).
      apply bigsum_ext. intros k Hk.
      rewrite (entry_transpose Hm SV Hk Hj). reflexivity.
Qed.

(** C2, amended.  In exact arithmetic, for every dataset whose number of
    units differs from its number of features and whose total variance is
    not zero, [getCumPropVar] with [n_pcs] omitted returns exactly 1 when
    the eigenvalues and eigenvectors passed are an orthonormal
    eigendecomposition of [getCovariance] of that dataset.  A square
    symmetric dataset is taken for a covariance matrix: its total variance
    is the sum of its own diagonal. *)
Theorem getCumPropVar_all_components :
  (forall (D C : matrix Qc) (n m : nat) (evals : list Qc) (evecs : matrix Qc),
      1 <= n -> 1 <= m -> n <> m -> shape n m D ->
      getCovariance D false true true = Ok C ->
      length evals = m -> shape m m evecs ->
      eigendecomposition C evals evecs ->
      sum (diagonal C) <> zero ->
      getTotalVariance D = Ok (sum (diagonal C)) /\
      getCumPropVar D evals evecs None = Ok one) /\
  (forall (D : matrix Qc) (n : nat),
      1 <= n -> shape n n D ->
      (forall i j, i < n -> j < n -> entry D i j = entry D j i) ->
      getTotalVariance D = Ok (sum (diagonal D))).
Proof.
  split.
  - intros D C n m evals evecs Hn Hm N SD EC L SV ED NZ.
    pose proof (getTotalVariance_not_square Hn Hm N SD EC) as TV.
    split; [exact TV|].
    assert (SC : shape m m C).
    { rewrite (getCovariance_gram Qc_units Hn Hm SD) in EC.
      injection EC as <-. apply shape_gram_over. }
    unfold getCumPropVar.
    destruct (row_at_0 Hm SV) as [e [RE Le]]. rewrite RE. cbn [bind].
    rewrite TV. cbn [bind]. f_equal.
    rewrite Le, <- L, firstn_all.
    change (fold_left (fun cumu_prop val => (cumu_prop + val / sum (diagonal C))%Qc)
                      evals 0%Qc = 1%Qc).
    rewrite fold_left_proportion.
    rewrite (eigenvalues_sum_to_trace Hm SC L SV ED).
    change (@zero Qc Qc_scalar) with 0%Qc in NZ.
    field. exact NZ.
  - intros D n Hn SD _. unfold getTotalVariance.
    destruct (get_ok SD (i:=0) (j:=0)) as [x G]; [lia|lia|].
    rewrite (isCovMatrix_square Hn SD G (Qc_eqb_refl x)). reflexivity.
Qed.

(** The amended C2 at the 3 x 2 dataset [[0,0],[3,4],[6,8]] and at the
    symmetric dataset [[14,8],[8,0]]. *)
Lemma getCumPropVar_all_components_witness :
  (getTotalVariance tall_dataset = Ok (sum (diagonal unit_cov)) /\
   getCumPropVar tall_dataset tall_evals square_evecs None = Ok one) /\
  getTotalVariance symmetric_dataset = Ok (sum (diagonal symmetric_dataset)).
Proof.
  split.
  - apply (proj1 getCumPropVar_all_components tall_dataset unit_cov 3 2).
    + lia.
    + lia.
    + lia.
    + split; [reflexivity|repeat constructor].
    + apply ok_matrix_eq. vm_compute. reflexivity.
    + reflexivity.
    + split; [reflexivity|repeat constructor].
    + repeat apply conj; apply ok_matrix_eq; vm_compute; reflexivity.
    + intros E. apply (f_equal this) in E. vm_compute in E. discriminate.
  - apply (proj2 getCumPropVar_all_components symmetric_dataset 2).
    + lia.
    + split; [reflexivity|repeat constructor].
    + intros i j Hi Hj.
      destruct i as [|[|i]]; destruct j as [|[|j]]; try lia; reflexivity.
Defined.

(** * Further properties *)

(** ** Covariance without the correlation form *)

Section CovarianceForms.
Context {F : Type} `{Scalar F}.

(** [np.dot(a.T, a)] is the Gram matrix of the columns of [a]. *)
Lemma dot_transpose_gram (A : matrix F) (n m : nat) :
  1 <= n -> 1 <= m -> shape n m A -> dot (transpose A) A = Ok (gram A m).
Proof.
  intros Hn Hm SA.
  rewrite (dot_product Hm Hn (shape_transpose Hn SA) SA).
  f_equal. unfold product, gram, transpose.
  rewrite (ncols_shape Hn SA), map_map. reflexivity.
Qed.

Lemma gram_over_gram (A : matrix F) (m : nat) (c : F) :
  gram_over A m c = div_scalar (gram A m) c.
Proof.
  unfold gram_over, gram, div_scalar. rewrite map_map.
  apply map_ext. intros i. rewrite map_map. reflexivity.
Qed.

(** The four forms of [getCovariance] without the correlation flag. *)
Lemma getCovariance_form (U : ScalarUnits F) (D : matrix F) (n m : nat)
      (scale_by_nrows center_around_mean : bool) :
  1 <= n -> 1 <= m -> shape n m D ->
  getCovariance D false scale_by_nrows center_around_mean
  = Ok (let a := if center_around_mean then centred D else D in
        if scale_by_nrows then gram_over a m (of_Z (Z.of_nat n - 1))
        else gram a m).
Proof.
  intros Hn Hm SD.
  assert (SA : shape n m (if center_around_mean then centred D else D)).
  { destruct center_around_mean; [apply shape_centred; assumption|exact SD]. }
  pose proof (dot_transpose_gram Hn Hm SA) as G.
  assert (C0 : col_at D 0 = Ok (col 0 D)) by (apply (col_at_ok Hn SD); lia).
  assert (L : length (col 0 D) = n) by (rewrite col_length; apply SD).
  unfold getCovariance. cbv zeta. destruct center_around_mean.
  - pose proof (centring Hn Hm SD) as E.
    destruct (row_at_0 Hn SD) as [r [R _]]. rewrite R in E |- *.
    rewrite C0 in E |- *. cbn [bind] in E |- *.
    destruct (dot (np_ones (length (col 0 D))) [mean_axis0 D]) as [mp|e];
      cbn [bind] in E |- *; [|discriminate].
    injection E as E. rewrite E, G. cbn [bind].
    destruct scale_by_nrows; [|reflexivity].
    rewrite L, gram_over_gram. reflexivity.
  - cbn [bind]. rewrite G. cbn [bind].
    destruct scale_by_nrows; [|reflexivity].
    rewrite C0. cbn [bind]. rewrite L, gram_over_gram. reflexivity.
Qed.

Lemma dotp_comm (u v : list F) :
  (forall x y : F, mul x y = mul y x) -> dotp u v = dotp v u.
Proof.
  intros C. unfold dotp. f_equal. revert v.
  induction u as [|a u IH]; intros [|b v]; simpl; try reflexivity.
  rewrite C, IH. reflexivity.
Qed.

Lemma transpose_table (f : nat -> nat -> F) (m : nat) :
  1 <= m ->
  transpose (map (fun i => map (fun j => f i j) (seq 0 m)) (seq 0 m))
  = map (fun j => map (fun i => f i j) (seq 0 m)) (seq 0 m).
Proof.
  intros Hm. unfold transpose.
  assert (C : ncols (map (fun i => map (fun j => f i j) (seq 0 m)) (seq 0 m)) = m).
  { destruct m as [|k]; [lia|]. simpl.
    rewrite length_map, length_seq. reflexivity. }
  rewrite C. apply map_ext_in. intros j Hj. apply in_seq in Hj.
  unfold col. rewrite map_map. apply map_ext. intros i.
  rewrite (nth_map_lt _ 0 zero) by (rewrite length_seq; lia).
  rewrite seq_nth by lia. reflexivity.
Qed.

End CovarianceForms.

(** X1.  Without centring and scaling (the call of the H-Method)
    [getCovariance] returns the Gram matrix [transpose(D) x D] of the raw
    dataset, whatever the correlation flag: entry [(i, j)] is the dot
    product of the columns [i] and [j]. *)
Theorem getCovariance_uncentred_unscaled :
  forall (F : Type) (Sc : Scalar F) (D : matrix F) (n m : nat) (corr_matrix : bool),
    1 <= n -> 1 <= m -> shape n m D ->
    getCovariance D corr_matrix false false = Ok (gram D m).
Proof.
  intros F Sc D n m corr_matrix Hn Hm SD.
  unfold getCovariance. cbn [bind].
  rewrite (dot_transpose_gram Hn Hm SD). reflexivity.
Qed.

Lemma getCovariance_uncentred_unscaled_witness :
  getCovariance scenario true false false = Ok (gram scenario 2).
Proof.
  apply (@getCovariance_uncentred_unscaled Qc Qc_scalar scenario 3 2 true).
  - lia.
  - lia.
  - split; [reflexivity|repeat constructor].
Defined.

(** X2.  For a dataset of a single row [r] the uncentred, unscaled
    covariance is the outer product of the row with itself: entry [(i, j)]
    is [r[i] * r[j]]. *)
Theorem getCovariance_single_row :
  forall (F : Type) (Sc : Scalar F) (U : ScalarUnits F) (r : list F)
         (corr_matrix : bool),
    r <> [] ->
    getCovariance [r] corr_matrix false false
    = Ok (map (fun x => map (fun y => mul x y) r) r).
Proof.
  intros F Sc U r corr_matrix N.
  assert (Hm : 1 <= length r) by (destruct r; [congruence|simpl; lia]).
  assert (SD : shape 1 (length r) [r]) by (split; [reflexivity|repeat constructor]).
  unfold getCovariance. cbn [bind].
  rewrite (dot_transpose_gram (le_n 1) Hm SD). cbn [bind]. f_equal.
  unfold gram.
  rewrite (map_via_positions (fun x => map (fun y => mul x y) r) zero r).
  apply map_ext. intros i.
  rewrite (map_via_positions (fun y => mul (nth i r zero) y) zero r).
  apply map_ext. intros j.
  unfold col, dotp, sum. cbn [map map2 fold_left].
  apply add_zero_l.
Qed.

Lemma getCovariance_single_row_witness :
  getCovariance [[q 1 1; q 2 1; q 3 1]] false false false
  = Ok (map (fun x => map (fun y => mul x y) [q 1 1; q 2 1; q 3 1])
            [q 1 1; q 2 1; q 3 1]).
Proof.
  apply (@getCovariance_single_row Qc Qc_scalar Qc_units).
  discriminate.
Defined.

(** X3.  When the multiplication commutes, the matrix returned by
    [getCovariance] without the correlation form is symmetric, for every
    choice of centring and scaling. *)
Theorem getCovariance_symmetric :
  forall (F : Type) (Sc : Scalar F) (U : ScalarUnits F) (D C : matrix F)
         (n m : nat) (scale_by_nrows center_around_mean : bool),
    (forall x y : F, mul x y = mul y x) ->
    1 <= n -> 1 <= m -> shape n m D ->
    getCovariance D false scale_by_nrows center_around_mean = Ok C ->
    transpose C = C.
Proof.
  intros F Sc U D C n m s c Comm Hn Hm SD E.
  rewrite (getCovariance_form U s c Hn Hm SD) in E. injection E as <-.
  cbv zeta. destruct s.
  - unfold gram_over. rewrite (transpose_table _ Hm).
    apply map_ext. intros j. apply map_ext. intros i.
    f_equal. apply dotp_comm. exact Comm.
  - unfold gram. rewrite (transpose_table _ Hm).
    apply map_ext. intros j. apply map_ext. intros i.
    apply dotp_comm. exact Comm.
Qed.

Lemma getCovariance_symmetric_witness :
  transpose [[q 4 1; q 4 1]; [q 4 1; q 4 1]] = [[q 4 1; q 4 1]; [q 4 1; q 4 1]].
Proof.
  apply (@getCovariance_symmetric Qc Qc_scalar Qc_units scenario
           [[q 4 1; q 4 1]; [q 4 1; q 4 1]] 3 2 true true).
  - intros x y. apply Qcmult_comm.
  - lia.
  - lia.
  - split; [reflexivity|repeat constructor].
  - apply ok_matrix_eq. vm_compute. reflexivity.
Defined.

(** ** PC scores *)

(** X4.  For a dataset of [n] units and [m] features and an eigenvector
    matrix of [m] rows and [p] columns, [getPCScores] returns, for every
    [n_pcs], the [n x p] product of the dataset centred on its own column
    means with the eigenvector matrix. *)
Theorem getPCScores_centred_product :
  forall (F : Type) (Sc : Scalar F) (U : ScalarUnits F)
         (D : matrix F) (i_evals : list F) (E : matrix F) (n_pcs : option nat)
         (n m p : nat),
    1 <= n -> 1 <= m -> shape n m D -> shape m p E ->
    getPCScores D i_evals E n_pcs = Ok (product (centred D) E p) /\
    shape n p (product (centred D) E p).
Proof.
  intros F Sc U D i_evals E n_pcs n m p Hn Hm SD SE. split.
  - apply getPCScores_projection with (n := n) (m := m); assumption.
  - unfold product. destruct (shape_centred Hn SD) as [L _]. split.
    + rewrite length_map. exact L.
    + rewrite Forall_map. apply Forall_forall. intros r _.
      rewrite length_map, length_seq. reflexivity.
Qed.

Lemma getPCScores_centred_product_witness :
  getPCScores square_dataset square_evals square_evecs None
  = Ok (product (centred square_dataset) square_evecs 2) /\
  shape 2 2 (product (centred square_dataset) square_evecs 2).
Proof.
  apply (@getPCScores_centred_product Qc Qc_scalar Qc_units
           square_dataset square_evals square_evecs None 2 2 2).
  - lia.
  - lia.
  - split; [reflexivity|repeat constructor].
  - split; [reflexivity|repeat constructor].
Defined.

(** X5.  When the eigenvector matrix does not have one row per feature,
    [getPCScores] with an explicit [n_pcs] raises [ValueError] (the shapes
    of [np.dot] are not aligned). *)
Theorem getPCScores_misaligned :
  forall (F : Type) (Sc : Scalar F) (U : ScalarUnits F)
         (D : matrix F) (i_evals : list F) (E : matrix F) (k n m : nat),
    1 <= n -> 1 <= m -> shape n m D -> length E <> m ->
    getPCScores D i_evals E (Some k) = Raise ValueError.
Proof.
  intros F Sc U D i_evals E k n m Hn Hm SD NE.
  pose proof (centring Hn Hm SD) as C.
  pose proof (shape_centred Hn SD) as SA.
  unfold getPCScores. cbv zeta. cbn [bind].
  destruct (row_at_0 Hn SD) as [r [R _]]. rewrite R in C |- *.
  rewrite (col_at_ok (j:=0) Hn SD) in C |- * by lia.
  cbn [bind] in C |- *.
  destruct (dot (np_ones (length (col 0 D))) [mean_axis0 D]) as [mp|err];
    cbn [bind] in C |- *; [|discriminate].
  injection C as C. rewrite C.
  unfold dot. rewrite (ncols_shape Hn SA).
  destruct (centred D) as [|a A] eqn:EA.
  - destruct SA as [L _]. simpl in L. lia.
  - unfold nrows. destruct (Nat.eqb_spec m (length E)); [congruence|reflexivity].
Qed.

Lemma getPCScores_misaligned_witness :
  getPCScores square_dataset square_evals [[q 1 1; q 0 1]] (Some 1)
  = Raise ValueError.
Proof.
  apply (@getPCScores_misaligned Qc Qc_scalar Qc_units
           square_dataset square_evals [[q 1 1; q 0 1]] 1 2 2).
  - lia.
  - lia.
  - split; [reflexivity|repeat constructor].
  - discriminate.
Defined.

(** ** Total variance *)

Section TotalVariance.
Context {F : Type} `{Scalar F}.

Lemma getTotalVariance_of_dataset (D C : matrix F) (n m : nat) :
  1 <= n -> 1 <= m -> n <> m -> shape n m D ->
  getCovariance D false true true = Ok C ->
  getTotalVariance D = Ok (sum (diagonal C)).
Proof.
  intros Hn Hm N S E. unfold getTotalVariance, isCovMatrix_of.
  destruct (row_at_0 Hn S) as [r [R Lr]].
  rewrite (col_at_ok (j:=0) Hn S) by lia. rewrite R. cbn [bind].
  rewrite col_length, Lr. destruct S as [L A]. rewrite L.
  destruct (Nat.eqb_spec n m); [contradiction|].
  cbn [bind]. rewrite E. reflexivity.
Qed.

Lemma shape_gram_over_any (A : matrix F) (m : nat) (c : F) :
  shape m m (gram_over A m c).
Proof.
  unfold gram_over. split.
  - rewrite length_map, length_seq. reflexivity.
  - rewrite Forall_map. apply Forall_forall. intros i _.
    rewrite length_map, length_seq. reflexivity.
Qed.

End TotalVariance.

(** X6.  For a dataset that is not square, [getTotalVariance] gives the
    same value whether it is handed the dataset or the covariance matrix of
    the dataset: the sum of the diagonal of the covariance.  (The equality
    test of the scalars is reflexive.) *)
Theorem getTotalVariance_dataset_or_covariance :
  forall (F : Type) (Sc : Scalar F) (U : ScalarUnits F) (D C : matrix F)
         (n m : nat),
    (forall x : F, eqb x x = true) ->
    1 <= n -> 1 <= m -> n <> m -> shape n m D ->
    getCovariance D false true true = Ok C ->
    getTotalVariance D = Ok (sum (diagonal C)) /\
    getTotalVariance C = Ok (sum (diagonal C)).
Proof.
  intros F Sc U D C n m R Hn Hm N SD E. split.
  - apply (getTotalVariance_of_dataset Hn Hm N SD E).
  - assert (SC : shape m m C).
    { rewrite (getCovariance_gram U Hn Hm SD) in E. injection E as <-.
      apply shape_gram_over_any. }
    unfold getTotalVariance.
    destruct (get_ok SC (i:=0) (j:=0)) as [x G]; [lia|lia|].
    rewrite (isCovMatrix_square Hm SC G (R x)). reflexivity.
Qed.

Lemma getTotalVariance_dataset_or_covariance_witness :
  getTotalVariance scenario
  = Ok (sum (diagonal [[q 4 1; q 4 1]; [q 4 1; q 4 1]])) /\
  getTotalVariance [[q 4 1; q 4 1]; [q 4 1; q 4 1]]
  = Ok (sum (diagonal [[q 4 1; q 4 1]; [q 4 1; q 4 1]])).
Proof.
  apply (@getTotalVariance_dataset_or_covariance Qc Qc_scalar Qc_units
           scenario [[q 4 1; q 4 1]; [q 4 1; q 4 1]] 3 2).
  - exact Qc_eqb_refl.
  - lia.
  - lia.
  - lia.
  - split; [reflexivity|repeat constructor].
  - apply ok_matrix_eq. vm_compute. reflexivity.
Defined.

(** ** Cumulative proportion of variance, explicit number of components *)

Lemma firstn_succ {A : Type} (d : A) (l : list A) (k : nat) :
  k < length l -> firstn (S k) l = firstn k l ++ [nth k l d].
Proof.
  revert k. induction l as [|a l IH]; intros k Hk; simpl in Hk; [lia|].
  destruct k as [|k]; [reflexivity|].
  cbn [firstn nth app]. f_equal. apply IH. lia.
Qed.

(** X7.  [getCumPropVar] is cumulative: with one more component the result
    grows by the next eigenvalue divided by the total variance. *)
Theorem getCumPropVar_next_component :
  forall (F : Type) (Sc : Scalar F) (D : matrix F) (i_evals : list F)
         (E : matrix F) (k : nat) (p : F),
    k < length i_evals ->
    getCumPropVar D i_evals E (Some k) = Ok p ->
    exists tot_var : F,
      getTotalVariance D = Ok tot_var /\
      getCumPropVar D i_evals E (Some (S k))
      = Ok (add p (div (nth k i_evals zero) tot_var)).
Proof.
  intros F Sc D i_evals E k p Hk P. unfold getCumPropVar in *.
  cbn [bind] in *.
  destruct (getTotalVariance D) as [t|e]; [|discriminate].
  cbn [bind] in *. exists t. split; [reflexivity|].
  injection P as <-. f_equal.
  rewrite (firstn_succ zero _ Hk), fold_left_app. reflexivity.
Qed.

Lemma getCumPropVar_next_component_witness :
  exists tot_var : Qc,
    getTotalVariance scenario = Ok tot_var /\
    getCumPropVar scenario [q 8 1; q 0 1] [] (Some 1)
    = Ok (add zero (div (nth 0 [q 8 1; q 0 1] zero) tot_var)).
Proof.
  apply (@getCumPropVar_next_component Qc Qc_scalar scenario
           [q 8 1; q 0 1] [] 0 zero).
  - simpl. lia.
  - unfold getCumPropVar. cbn [bind].
    replace (getTotalVariance scenario) with (Ok (q 8 1) : result Qc);
      [reflexivity|].
    symmetry. apply ok_scalar_eq. vm_compute. reflexivity.
Defined.

(** X8.  Asking for more components than there are eigenvalues gives the
    value for all of them: the slice [i_evals[:n_pcs]] stops at the end of
    the array. *)
Theorem getCumPropVar_clamped :
  forall (F : Type) (Sc : Scalar F) (D : matrix F) (i_evals : list F)
         (E : matrix F) (k : nat),
    length i_evals <= k ->
    getCumPropVar D i_evals E (Some k)
    = getCumPropVar D i_evals E (Some (length i_evals)).
Proof.
  intros F Sc D i_evals E k Hk. unfold getCumPropVar. cbn [bind].
  rewrite firstn_all. rewrite firstn_all2 by exact Hk. reflexivity.
Qed.

Lemma getCumPropVar_clamped_witness :
  getCumPropVar scenario [q 8 1; q 0 1] [] (Some 7)
  = getCumPropVar scenario [q 8 1; q 0 1] [] (Some (length [q 8 1; q 0 1])).
Proof.
  apply (@getCumPropVar_clamped Qc Qc_scalar). simpl. lia.
Defined.

(** X9.  In exact arithmetic the result for [n_pcs = k] is the sum of the
    first [k] eigenvalues divided by the total variance. *)
Theorem getCumPropVar_closed_form :
  forall (D : matrix Qc) (i_evals : list Qc) (E : matrix Qc) (k : nat)
         (tot_var : Qc),
    getTotalVariance D = Ok tot_var ->
    getCumPropVar D i_evals E (Some k)
    = Ok (div (sum (firstn k i_evals)) tot_var).
Proof.
  intros D i_evals E k t T. unfold getCumPropVar. cbn [bind].
  rewrite T. cbn [bind]. f_equal.
  change (fold_left (fun cumu_prop val => (cumu_prop + val / t)%Qc)
                    (firstn k i_evals) 0%Qc
          = (sum (firstn k i_evals) / t)%Qc).
  rewrite fold_left_proportion. ring.
Qed.

Lemma getCumPropVar_closed_form_witness :
  getCumPropVar scenario [q 8 1; q 0 1] [] (Some 1)
  = Ok (div (sum (firstn 1 [q 8 1; q 0 1])) (q 8 1)).
Proof.
  apply getCumPropVar_closed_form.
  apply ok_scalar_eq. vm_compute. reflexivity.
Defined.

(** ** Plots *)

Lemma mapM_ok {A B : Type} (f : A -> result B) (g : A -> B) (l : list A) :
  (forall a, In a l -> f a = Ok (g a)) -> mapM f l = Ok (map g l).
Proof.
  induction l as [|a l IH]; intros E; [reflexivity|].
  cbn [mapM map]. rewrite (E a) by (left; reflexivity). cbn [bind].
  rewrite IH by (intros b Hb; apply E; right; exact Hb). reflexivity.
Qed.

Section PlotLoops.
Context {F : Type} `{Scalar F}.

Lemma plotPCScores_loop_run (P : matrix F) (h : option string)
      (o_path o_name : string) (n m : nat) :
  1 <= n -> shape n m P ->
  forall (k a : nat) (saved : list (scatter_figure F)),
    a < m ->
    plotPCScores_loop P h o_path o_name (seq a k) saved
    = (saved ++
       map (fun i =>
              {| scatter_x := col i P; scatter_y := col (i + 1) P;
                 scatter_xlabel := String.append "PC" (str_nat (i + 1));
                 scatter_ylabel := String.append "PC" (str_nat (i + 2));
                 scatter_title := h;
                 scatter_file :=
                   String.append o_path
                     (String.append o_name
                        (String.append (str_nat i)
                           (String.append "-" (str_nat (i + 1))))) |})
           (seq a (Nat.min k (m - 1 - a))),
       if a + k <? m then None else Some IndexError).
Proof.
  intros Hn S. induction k as [|k IH]; intros a saved Ha.
  - cbn [seq plotPCScores_loop Nat.min map]. rewrite app_nil_r.
    destruct (Nat.ltb_spec (a + 0) m); [reflexivity|lia].
  - cbn [seq plotPCScores_loop].
    rewrite (col_at_ok Hn S Ha).
    destruct (Nat.lt_ge_cases (a + 1) m) as [L|G].
    + rewrite (col_at_ok Hn S L).
      replace (Datatypes.S a) with (a + 1) by lia.
      rewrite IH by exact L.
      replace (Nat.min (Datatypes.S k) (m - 1 - a))
        with (Datatypes.S (Nat.min k (m - 1 - (a + 1)))) by lia.
      cbn [seq map]. rewrite <- app_assoc. cbn [app].
      replace (Datatypes.S a) with (a + 1) by lia.
      replace (a + 1 + k) with (a + Datatypes.S k) by lia. reflexivity.
    + unfold col_at at 1. rewrite (ncols_shape Hn S).
      destruct (Nat.ltb_spec (a + 1) m); [lia|].
      replace (m - 1 - a) with 0 by lia. rewrite Nat.min_0_r.
      cbn [seq map]. rewrite app_nil_r.
      destruct (Nat.ltb_spec (a + Datatypes.S k) m); [lia|reflexivity].
Qed.

End PlotLoops.

(** X10.  For a score array of [m >= 1] columns, [plotPCScores] saves one
    scatter plot for each pair of neighbouring columns [(i, i+1)] with
    [i < n_pcs] that exists; it completes only when [n_pcs < m], and raises
    [IndexError] after [m - 1] figures otherwise (so plotting as many
    components as there are columns fails). *)
Theorem plotPCScores_neighbouring_columns :
  forall (F : Type) (Sc : Scalar F) (P : matrix F) (i_header : option string)
         (o_path o_name : string) (n_pcs n m : nat),
    1 <= n -> 1 <= m -> shape n m P ->
    plotPCScores P i_header o_path o_name n_pcs
    = (map (fun i =>
              {| scatter_x := col i P; scatter_y := col (i + 1) P;
                 scatter_xlabel := String.append "PC" (str_nat (i + 1));
                 scatter_ylabel := String.append "PC" (str_nat (i + 2));
                 scatter_title := i_header;
                 scatter_file :=
                   String.append o_path
                     (String.append o_name
                        (String.append (str_nat i)
                           (String.append "-" (str_nat (i + 1))))) |})
           (seq 0 (Nat.min n_pcs (m - 1))),
       if n_pcs <? m then None else Some IndexError).
Proof.
  intros F Sc P h o_path o_name n_pcs n m Hn Hm S. unfold plotPCScores.
  rewrite (plotPCScores_loop_run h o_path o_name Hn S n_pcs (a:=0) []) by lia.
  cbn [app]. rewrite Nat.sub_0_r. reflexivity.
Qed.

Lemma plotPCScores_neighbouring_columns_witness :
  plotPCScores scenario None "" "PCScores" 2
  = (map (fun i =>
            {| scatter_x := col i scenario; scatter_y := col (i + 1) scenario;
               scatter_xlabel := String.append "PC" (str_nat (i + 1));
               scatter_ylabel := String.append "PC" (str_nat (i + 2));
               scatter_title := None;
               scatter_file :=
                 String.append ""
                   (String.append "PCScores"
                      (String.append (str_nat i)
                         (String.append "-" (str_nat (i + 1))))) |})
         (seq 0 (Nat.min 2 (2 - 1))),
     if 2 <? 2 then None else Some IndexError).
Proof.
  apply (@plotPCScores_neighbouring_columns Qc Qc_scalar scenario None
           ""%string "PCScores"%string 2 3 2).
  - lia.
  - lia.
  - split; [reflexivity|repeat constructor].
Defined.

(** X11.  When the total variance of the dataset can be computed,
    [plotCumPropVar] draws [n_pcs] bars labelled PC1, PC2, ...; bar [j+1]
    has the height [getCumPropVar] gives for [n_pcs = j+1], and all bars
    from the number of eigenvalues onwards have the same height. *)
Theorem plotCumPropVar_bars :
  forall (F : Type) (Sc : Scalar F) (D : matrix F) (i_evals : list F)
         (E : matrix F) (o_path o_name : string) (n_pcs : nat) (tot_var : F),
    getTotalVariance D = Ok tot_var ->
    exists heights : list F,
      plotCumPropVar D i_evals E o_path o_name n_pcs
      = Ok {| bar_heights := heights;
              bar_labels := map (fun i => String.append "PC" (str_nat i))
                                (seq 1 n_pcs);
              bar_file := String.append o_path o_name |} /\
      length heights = n_pcs /\
      (forall j, j < n_pcs ->
         getCumPropVar D i_evals E (Some (S j)) = Ok (nth j heights zero)) /\
      (forall i j, length i_evals <= S i -> i <= j -> j < n_pcs ->
         nth j heights zero = nth i heights zero).
Proof.
  intros F Sc D i_evals E o_path o_name n_pcs t T.
  set (g := fun j : nat =>
              fold_left (fun cumu_prop val => add cumu_prop (div val t))
                        (firstn j i_evals) zero).
  assert (G : forall j, getCumPropVar D i_evals E (Some j) = Ok (g j)).
  { intros j. unfold getCumPropVar. cbn [bind]. rewrite T. reflexivity. }
  assert (N : forall j, j < n_pcs ->
                nth j (map g (seq 1 n_pcs)) zero = g (S j)).
  { intros j Hj. rewrite (nth_map_lt g 0 zero) by (rewrite length_seq; exact Hj).
    rewrite seq_nth by exact Hj. reflexivity. }
  exists (map g (seq 1 n_pcs)). split; [|split; [|split]].
  - unfold plotCumPropVar.
    rewrite (mapM_ok _ g) by (intros j _; apply G). reflexivity.
  - rewrite length_map, length_seq. reflexivity.
  - intros j Hj. rewrite N by exact Hj. apply G.
  - intros i j Li Hij Hj. rewrite !N by lia. unfold g.
    rewrite !firstn_all2 by lia. reflexivity.
Qed.

Lemma plotCumPropVar_bars_witness :
  exists heights : list Qc,
    plotCumPropVar scenario [q 8 1; q 0 1] [] "" "VarianceExplained" 3
    = Ok {| bar_heights := heights;
            bar_labels := map (fun i => String.append "PC" (str_nat i))
                              (seq 1 3);
            bar_file := String.append "" "VarianceExplained" |} /\
    length heights = 3 /\
    (forall j, j < 3 ->
       getCumPropVar scenario [q 8 1; q 0 1] [] (Some (S j))
       = Ok (nth j heights zero)) /\
    (forall i j, length [q 8 1; q 0 1] <= S i -> i <= j -> j < 3 ->
       nth j heights zero = nth i heights zero).
Proof.
  apply (@plotCumPropVar_bars Qc Qc_scalar scenario [q 8 1; q 0 1] []
           ""%string "VarianceExplained"%string 3 (q 8 1)).
  apply ok_scalar_eq. vm_compute. reflexivity.
Defined.

(** ** Sorting with too few eigenvector columns *)

Section Raising.
Context {F : Type} `{Scalar F} `{Linalg F}.

Lemma take_raises (v : list F) (indices : list nat) (e : exn) :
  take v indices = Raise e -> e = IndexError.
Proof.
  unfold take. induction indices as [|i l IH]; cbn [mapM]; [discriminate|].
  destruct (nth_error v i); cbn [bind]; [|congruence].
  destruct (mapM _ l); cbn [bind]; [discriminate|].
  intros E. apply IH. exact E.
Qed.

Lemma take_out_of_range (v : list F) (indices : list nat) :
  Exists (fun i => length v <= i) indices -> take v indices = Raise IndexError.
Proof.
  intros X. destruct (take v indices) as [w|e] eqn:E.
  - exfalso. unfold take in E. revert w E.
    induction X as [i l Hi|i l X IH]; intros w E; cbn [mapM] in E.
    + apply nth_error_None in Hi. rewrite Hi in E. discriminate.
    + destruct (nth_error v i); cbn [bind] in E; [|discriminate].
      destruct (mapM _ l) as [w'|] eqn:E'; [|discriminate].
      apply (IH w'). reflexivity.
  - f_equal. apply (take_raises _ _ E).
Qed.

End Raising.

(** X12.  When the eigenvector matrix has fewer columns than there are
    eigenvalues, [sortEigen] raises [IndexError] (whenever [argsort] keeps
    its contract): the reordering [i_evects[:,indeces]] names a column that
    does not exist. *)
Theorem sortEigen_too_few_columns :
  forall (F : Type) (Sc : Scalar F) (L : Linalg F)
         (i_evals : list F) (i_evects : matrix F) (n m : nat),
    argsort_contract argsort ->
    1 <= n -> shape n m i_evects -> m < length i_evals ->
    sortEigen i_evals i_evects = Raise IndexError.
Proof.
  intros F Sc L i_evals i_evects n m C Hn [Ln A] Hm.
  destruct (C i_evals) as [P _].
  set (sigma := rev (argsort i_evals)).
  assert (Ps : Permutation sigma (seq 0 (length i_evals))).
  { unfold sigma.
    eapply Permutation_trans; [apply Permutation_sym, Permutation_rev | exact P]. }
  assert (Fs : Forall (fun i => i < length i_evals) sigma).
  { apply Forall_forall. intros i Hi.
    apply (Permutation_in _ Ps) in Hi. apply in_seq in Hi. lia. }
  assert (X : Exists (fun i => m <= i) sigma).
  { apply Exists_exists. exists m. split; [|lia].
    apply (Permutation_in _ (Permutation_sym Ps)). apply in_seq. lia. }
  unfold sortEigen. fold sigma. cbv zeta.
  rewrite take_ok by exact Fs. cbn [bind].
  destruct i_evects as [|r M]; [simpl in Ln; lia|].
  unfold take_cols.
  destruct sigma as [|s0 sigma'] eqn:Es; [inversion X|].
  rewrite <- Es in *. cbn [mapM].
  inversion A as [|r' M' Lr AM]; subst r' M'.
  rewrite take_out_of_range by (rewrite Lr; exact X).
  reflexivity.
Qed.

Lemma sortEigen_too_few_columns_witness :
  sortEigen [q 1 1; q 3 1; q 2 1] [[q 1 1; q 2 1]; [q 4 1; q 5 1]]
  = Raise IndexError.
Proof.
  apply (@sortEigen_too_few_columns Qc Qc_scalar Qc_linalg
           [q 1 1; q 3 1; q 2 1] [[q 1 1; q 2 1]; [q 4 1; q 5 1]] 2 2).
  - exact Qc_argsort_contract.
  - lia.
  - split; [reflexivity|repeat constructor].
  - simpl. lia.
Defined.

(** ** The weighting loop of the H-Method *)

Section Weighting.
Context {F : Type} `{Scalar F} `{Linalg F}.

(** A row of which the first [k] entries have been weighted. *)
Lemma weighted_row_step (k : nat) (r ev : list F) :
  k < length r -> k < length ev ->
  firstn k (map2 mul (firstn k r) ev ++ skipn k r)
  ++ mul (nth k (map2 mul (firstn k r) ev ++ skipn k r) zero) (nth k ev zero)
  :: skipn (S k) (map2 mul (firstn k r) ev ++ skipn k r)
  = map2 mul (firstn (S k) r) ev ++ skipn (S k) r.
Proof.
  revert r ev. induction k as [|k IH]; intros [|a r] [|e ev] Hr He;
    simpl in Hr, He; try lia.
  - reflexivity.
  - specialize (IH r ev ltac:(lia) ltac:(lia)).
    cbn [firstn map2 skipn app nth] in *. f_equal. exact IH.
Qed.

Lemma weighted_row_length (k : nat) (r ev : list F) :
  k <= length r -> k <= length ev ->
  length (map2 mul (firstn k r) ev ++ skipn k r) = length r.
Proof.
  intros Hr He. rewrite length_app, map2_length, length_firstn, length_skipn. lia.
Qed.

Lemma weighted_shape (k n m : nat) (ev : list F) (M : matrix F) :
  shape n m M -> k <= m -> k <= length ev ->
  shape n m (map (fun r => map2 mul (firstn k r) ev ++ skipn k r) M).
Proof.
  intros [L A] Hk He. split; [rewrite length_map; exact L|].
  rewrite Forall_map. rewrite Forall_forall in *. intros r Hr.
  rewrite weighted_row_length; [apply A; exact Hr|rewrite (A r Hr); exact Hk|exact He].
Qed.

Lemma scale_col_weighted (k n m : nat) (ev : list F) (M : matrix F) :
  1 <= n -> shape n m M -> k < m -> k < length ev ->
  scale_col (map (fun r => map2 mul (firstn k r) ev ++ skipn k r) M) k
            (nth k ev zero)
  = Ok (map (fun r => map2 mul (firstn (S k) r) ev ++ skipn (S k) r) M).
Proof.
  intros Hn S Hk He. unfold scale_col.
  rewrite (ncols_shape Hn (weighted_shape (k:=k) ev S ltac:(lia) ltac:(lia))).
  destruct (Nat.ltb_spec k m); [|lia]. f_equal.
  rewrite map_map. apply map_ext_in. intros r Hr.
  destruct S as [_ A]. rewrite Forall_forall in A.
  apply weighted_row_step; [rewrite (A r Hr); exact Hk|exact He].
Qed.

Lemma take_one (v : list F) (i : nat) :
  i < length v -> take v [i] = Ok [nth i v zero].
Proof.
  intros Hi. apply (@take_ok _ _ v [i]). constructor; [exact Hi|constructor].
Qed.

Lemma weight_loop_run (n m n' m' : nat) (te re : list F) (T R : matrix F) :
  1 <= n -> 1 <= n' -> shape n m T -> shape n' m' R ->
  forall k a : nat,
    a + k <= m -> a + k <= m' -> a + k <= length te -> a + k <= length re ->
    weight_loop (seq a k) te re
      (map (fun r => map2 mul (firstn a r) te ++ skipn a r) T)
      (map (fun r => map2 mul (firstn a r) re ++ skipn a r) R)
    = Ok (map (fun r => map2 mul (firstn (a + k) r) te ++ skipn (a + k) r) T,
          map (fun r => map2 mul (firstn (a + k) r) re ++ skipn (a + k) r) R).
Proof.
  intros Hn Hn' ST SR. induction k as [|k IH]; intros a H1 H2 H3 H4.
  - rewrite Nat.add_0_r. reflexivity.
  - cbn [seq weight_loop].
    rewrite take_one by lia. cbn [bind hd].
    rewrite (scale_col_weighted te Hn ST) by lia. cbn [bind].
    rewrite take_one by lia. cbn [bind hd].
    rewrite (scale_col_weighted re Hn' SR) by lia. cbn [bind].
    rewrite IH by lia.
    replace (S a + k) with (a + S k) by lia. reflexivity.
Qed.

Lemma unweighted (ev : list F) (M : matrix F) :
  map (fun r => map2 mul (firstn 0 r) ev ++ skipn 0 r) M = M.
Proof.
  rewrite <- (map_id M) at 2. apply map_ext. intros r. reflexivity.
Qed.

Lemma fully_weighted (n m : nat) (ev : list F) (M : matrix F) :
  shape n m M ->
  map (fun r => map2 mul (firstn m r) ev ++ skipn m r) M
  = map (fun r => map2 mul r ev) M.
Proof.
  intros [_ A]. rewrite Forall_forall in A. apply map_ext_in. intros r Hr.
  rewrite <- (A r Hr), firstn_all, skipn_all, app_nil_r. reflexivity.
Qed.

Lemma weight_loop_all (n m n' m' : nat) (te re : list F) (T R : matrix F) :
  1 <= n -> 1 <= n' -> shape n m T -> shape n' m' R ->
  m <= m' -> m <= length te -> m <= length re ->
  weight_loop (seq 0 m) te re T R
  = Ok (map (fun r => map2 mul r te) T,
        map (fun r => map2 mul (firstn m r) re ++ skipn m r) R).
Proof.
  intros Hn Hn' ST SR H1 H2 H3.
  pose proof (weight_loop_run te re Hn Hn' ST SR m 0
                ltac:(lia) ltac:(lia) ltac:(lia) ltac:(lia)) as E.
  rewrite !unweighted in E. cbn [Nat.add] in E.
  rewrite (fully_weighted te ST) in E. exact E.
Qed.

Lemma scale_col_raises (M : matrix F) (i : nat) (c : F) (e : exn) :
  scale_col M i c = Raise e -> e = IndexError.
Proof.
  unfold scale_col. destruct (i <? ncols M); [discriminate|congruence].
Qed.

Lemma scale_col_ncols (M M' : matrix F) (i : nat) (c : F) :
  scale_col M i c = Ok M' -> ncols M' = ncols M.
Proof.
  unfold scale_col. destruct (Nat.ltb_spec i (ncols M)) as [L|]; [|discriminate].
  intros E. injection E as <-. destruct M as [|r M]; [reflexivity|].
  unfold ncols in *.
  change (length (firstn i r ++ mul (nth i r zero) c :: skipn (S i) r) = length r).
  rewrite length_app, length_firstn.
  change (Nat.min i (length r) + S (length (skipn (S i) r)) = length r).
  rewrite length_skipn. lia.
Qed.

Lemma weight_loop_out_of_range (range_i : list nat) (te re : list F) (i : nat) :
  In i range_i ->
  forall T R : matrix F,
    ncols R <= i ->
    weight_loop range_i te re T R = Raise IndexError.
Proof.
  induction range_i as [|j l IH]; intros I T R Hi; [destruct I|].
  cbn [weight_loop].
  destruct (take te [j]) as [tv|e] eqn:E1; cbn [bind];
    [|rewrite (take_raises _ _ E1); reflexivity].
  destruct (scale_col T j (hd zero tv)) as [T'|e] eqn:E2; cbn [bind];
    [|rewrite (scale_col_raises _ _ _ E2); reflexivity].
  destruct (take re [j]) as [rv|e] eqn:E3; cbn [bind];
    [|rewrite (take_raises _ _ E3); reflexivity].
  destruct (scale_col R j (hd zero rv)) as [R'|e] eqn:E4; cbn [bind];
    [|rewrite (scale_col_raises _ _ _ E4); reflexivity].
  assert (J : j < ncols R).
  { unfold scale_col in E4. destruct (Nat.ltb_spec j (ncols R)); [assumption|discriminate]. }
  apply IH.
  - destruct I as [->|I]; [lia|exact I].
  - rewrite (scale_col_ncols _ _ _ E4). exact Hi.
Qed.

Lemma weight_loop_same (range_i : list nat) (ev : list F) :
  forall M A B : matrix F,
    weight_loop range_i ev ev M M = Ok (A, B) -> A = B.
Proof.
  induction range_i as [|i l IH]; intros M A B E; cbn [weight_loop] in E.
  - injection E as <- <-. reflexivity.
  - destruct (take ev [i]) as [tv|e]; cbn [bind] in E; [|discriminate].
    destruct (scale_col M i (hd zero tv)) as [M'|e]; cbn [bind] in E; [|discriminate].
    apply (IH M'). exact E.
Qed.

End Weighting.

(** X13.  The loop of [hMethod] multiplies every row of the test
    eigenvector matrix entry by entry with the test eigenvalues; of the
    reference matrix it weights only as many columns as the test matrix
    has, and leaves the further columns as they were. *)
Theorem weight_loop_weights_rows :
  forall (F : Type) (Sc : Scalar F)
         (test_evals ref_evals : list F) (test_evecs ref_evecs : matrix F)
         (n m n' m' : nat),
    1 <= n -> 1 <= n' -> shape n m test_evecs -> shape n' m' ref_evecs ->
    m <= m' -> m <= length test_evals -> m <= length ref_evals ->
    weight_loop (seq 0 m) test_evals ref_evals test_evecs ref_evecs
    = Ok (map (fun r => map2 mul r test_evals) test_evecs,
          map (fun r => map2 mul (firstn m r) ref_evals ++ skipn m r) ref_evecs).
Proof.
  intros F Sc te re T R n m n' m' Hn Hn' ST SR H1 H2 H3.
  apply (weight_loop_all te re Hn Hn' ST SR H1 H2 H3).
Qed.

Lemma weight_loop_weights_rows_witness :
  weight_loop (seq 0 2) [q 2 1; q 3 1] [q 5 1; q 7 1; q 9 1]
    [[q 1 1; q 1 1]; [q 1 1; q 1 1]]
    [[q 1 1; q 1 1; q 1 1]]
  = Ok (map (fun r => map2 mul r [q 2 1; q 3 1]) [[q 1 1; q 1 1]; [q 1 1; q 1 1]],
        map (fun r => map2 mul (firstn 2 r) [q 5 1; q 7 1; q 9 1] ++ skipn 2 r)
            [[q 1 1; q 1 1; q 1 1]]).
Proof.
  apply (@weight_loop_weights_rows Qc Qc_scalar
           [q 2 1; q 3 1] [q 5 1; q 7 1; q 9 1]
           [[q 1 1; q 1 1]; [q 1 1; q 1 1]] [[q 1 1; q 1 1; q 1 1]] 2 2 1 3).
  - lia.
  - lia.
  - split; [reflexivity|repeat constructor].
  - split; [reflexivity|repeat constructor].
  - lia.
  - simpl. lia.
  - simpl. lia.
Defined.

(** ** The H-Method as a whole *)

Section HMethod.
Context {F : Type} `{Scalar F} `{Linalg F}.

Lemma weighted_rows_shape (n m : nat) (ev : list F) (M : matrix F) :
  shape n m M -> m <= length ev ->
  shape n m (map (fun r => map2 mul r ev) M).
Proof.
  intros S He. rewrite <- (fully_weighted ev S).
  apply weighted_shape; [exact S|lia|exact He].
Qed.

Lemma sum_axis0_length (n m : nat) (M : matrix F) :
  1 <= n -> shape n m M -> length (sum_axis0 M) = m.
Proof.
  intros Hn S. unfold sum_axis0.
  rewrite length_map, length_seq. apply (ncols_shape Hn S).
Qed.

Lemma hMethod_total_evecs_run (i_test_data i_ref_data Ct Cr : matrix F)
      (te re : list F) (T R : matrix F) (m m' : nat) :
  1 <= m -> m <= m' ->
  getCovariance i_test_data false false false = Ok Ct ->
  getCovariance i_ref_data false false false = Ok Cr ->
  eigh Ct = Ok (te, T) -> eigh Cr = Ok (re, R) ->
  shape m m T -> shape m' m' R -> length te = m -> length re = m' ->
  hMethod_total_evecs i_test_data i_ref_data
  = Ok (normalised (sum_axis0 (map (fun r => map2 mul r te) T)),
        normalised (sum_axis0
                      (map (fun r => map2 mul (firstn m r) re ++ skipn m r) R))).
Proof.
  intros Hm Hmm E1 E2 E3 E4 ST SR Lt Lr.
  unfold hMethod_total_evecs. rewrite E1. cbn [bind]. rewrite E2. cbn [bind].
  rewrite E3. cbn [bind]. rewrite E4. cbn [bind].
  destruct (row_at_0 Hm ST) as [r0 [R0 L0]]. rewrite R0. cbn [bind]. rewrite L0.
  rewrite (weight_loop_all te re Hm (Nat.le_trans _ _ _ Hm Hmm) ST SR)
    by lia.
  reflexivity.
Qed.

End HMethod.

Lemma sum_scaled_r (A : Type) (g : A -> Qc) (c : Qc) (l : list A) :
  sum (map (fun a => (g a * c)%Qc) l) = (sum (map g l) * c)%Qc.
Proof.
  induction l as [|a l IH]; cbn [map].
  - rewrite sum_nil. ring.
  - rewrite !sum_cons, IH. ring.
Qed.

Lemma sum_axis0_weighted (n m : nat) (ev : list Qc) (M : matrix Qc) :
  1 <= n -> shape n m M -> m <= length ev ->
  sum_axis0 (map (fun r => map2 mul r ev) M)
  = map (fun j => (sum (col j M) * nth j ev zero)%Qc) (seq 0 m).
Proof.
  intros Hn S He. unfold sum_axis0.
  rewrite (ncols_shape Hn (weighted_rows_shape ev S He)).
  apply map_ext_in. intros j Hj. apply in_seq in Hj.
  unfold col. rewrite map_map. rewrite <- sum_scaled_r. f_equal.
  apply map_ext_in. intros r Hr. destruct S as [_ A].
  rewrite Forall_forall in A.
  rewrite (nth_map2 (@mul Qc Qc_scalar) zero zero zero)
    by (try rewrite (A r Hr); lia).
  reflexivity.
Qed.

(** X14.  In exact arithmetic, when the eigensolver returns [m] eigenvalues
    and an [m x m] eigenvector matrix for the test and for the reference
    covariance, component [j] of the total eigenvector that [hMethod]
    normalises is the sum of the entries of eigenvector [j] times
    eigenvalue [j]. *)
Theorem hMethod_total_evecs_by_column :
  forall (L : Linalg Qc) (i_test_data i_ref_data Ct Cr : matrix Qc)
         (te re : list Qc) (T R : matrix Qc) (m : nat),
    1 <= m ->
    getCovariance i_test_data false false false = Ok Ct ->
    getCovariance i_ref_data false false false = Ok Cr ->
    eigh Ct = Ok (te, T) -> eigh Cr = Ok (re, R) ->
    shape m m T -> shape m m R -> length te = m -> length re = m ->
    hMethod_total_evecs i_test_data i_ref_data
    = Ok (normalised (map (fun j => (sum (col j T) * nth j te zero)%Qc) (seq 0 m)),
          normalised (map (fun j => (sum (col j R) * nth j re zero)%Qc) (seq 0 m))).
Proof.
  intros L test ref Ct Cr te re T R m Hm E1 E2 E3 E4 ST SR Lt Lr.
  rewrite (hMethod_total_evecs_run test ref Hm (Nat.le_refl m)
             E1 E2 E3 E4 ST SR Lt Lr).
  rewrite (fully_weighted re SR).
  rewrite (sum_axis0_weighted te Hm ST) by lia.
  rewrite (sum_axis0_weighted re Hm SR) by lia.
  reflexivity.
Qed.

Lemma hMethod_total_evecs_by_column_witness :
  hMethod_total_evecs unit_vector [[q 3 1; q 4 1]; [q 3 1; q 4 1]]
  = Ok (normalised (map (fun j => (sum (col j unit_evecs) * nth j unit_evals zero)%Qc)
                        (seq 0 2)),
        normalised (map (fun j => (sum (col j unit_evecs)
                                   * nth j [q 0 1; q 50 1] zero)%Qc)
                        (seq 0 2))).
Proof.
  apply (@hMethod_total_evecs_by_column Qc_linalg
           unit_vector [[q 3 1; q 4 1]; [q 3 1; q 4 1]]
           unit_cov [[q 18 1; q 24 1]; [q 24 1; q 32 1]]
           unit_evals [q 0 1; q 50 1] unit_evecs unit_evecs 2).
  - lia.
  - apply ok_matrix_eq. vm_compute. reflexivity.
  - apply ok_matrix_eq. vm_compute. reflexivity.
  - reflexivity.
  - reflexivity.
  - split; [reflexivity|repeat constructor].
  - split; [reflexivity|repeat constructor].
  - reflexivity.
  - reflexivity.
Defined.

(** X15.  When the eigenvector matrix of the reference has fewer columns
    than the [m x m] one of the test data (a reference with fewer
    features), [hMethod] raises [IndexError]: the loop runs over the test
    columns and indexes the reference with them. *)
Theorem hMethod_fewer_reference_features :
  forall (F : Type) (Sc : Scalar F) (L : Linalg F) (Tr : Trig F)
         (i_test_data i_ref_data Ct Cr : matrix F)
         (te re : list F) (T R : matrix F) (angle_units : string) (m : nat),
    1 <= m ->
    getCovariance i_test_data false false false = Ok Ct ->
    getCovariance i_ref_data false false false = Ok Cr ->
    eigh Ct = Ok (te, T) -> eigh Cr = Ok (re, R) ->
    shape m m T -> ncols R < m ->
    hMethod i_test_data i_ref_data angle_units = Raise IndexError.
Proof.
  intros F Sc L Tr test ref Ct Cr te re T R u m Hm E1 E2 E3 E4 ST Hc.
  unfold hMethod, hMethod_total_evecs.
  rewrite E1. cbn [bind]. rewrite E2. cbn [bind].
  rewrite E3. cbn [bind]. rewrite E4. cbn [bind].
  destruct (row_at_0 Hm ST) as [r0 [R0 L0]]. rewrite R0. cbn [bind]. rewrite L0.
  rewrite (@weight_loop_out_of_range _ _ (seq 0 m) te re (ncols R)).
  - reflexivity.
  - apply in_seq. lia.
  - lia.
Qed.

Lemma hMethod_fewer_reference_features_witness :
  @hMethod Qc Qc_scalar Qc_axes_linalg Qc_trig
           [[q 0 1; q 0 1; q 1 1]] [[q 0 1; q 1 1]] "d" = Raise IndexError.
Proof.
  apply (@hMethod_fewer_reference_features Qc Qc_scalar Qc_axes_linalg Qc_trig
           [[q 0 1; q 0 1; q 1 1]] [[q 0 1; q 1 1]]
           [[q 0 1; q 0 1; q 0 1]; [q 0 1; q 0 1; q 0 1]; [q 0 1; q 0 1; q 1 1]]
           [[q 0 1; q 0 1]; [q 0 1; q 1 1]]
           [q 0 1; q 0 1; q 1 1] [q 0 1; q 1 1]
           [[q 1 1; q 0 1; q 0 1]; [q 0 1; q 1 1; q 0 1]; [q 0 1; q 0 1; q 1 1]]
           [[q 1 1; q 0 1]; [q 0 1; q 1 1]] "d"%string 3).
  - lia.
  - apply ok_matrix_eq. vm_compute. reflexivity.
  - apply ok_matrix_eq. vm_compute. reflexivity.
  - reflexivity.
  - reflexivity.
  - split; [reflexivity|repeat constructor].
  - simpl. lia.
Defined.

(** X16.  When the reference has more features than the test data
    ([m' x m'] against [m x m] eigenvectors, [m < m']), the loop of
    [hMethod] completes, and [hMethod] raises [ValueError] for any
    [angle_units]: the two total eigenvectors handed to [np.dot] have
    different lengths. *)
Theorem hMethod_more_reference_features :
  forall (F : Type) (Sc : Scalar F) (L : Linalg F) (Tr : Trig F)
         (i_test_data i_ref_data Ct Cr : matrix F)
         (te re : list F) (T R : matrix F) (angle_units : string) (m m' : nat),
    1 <= m -> m < m' ->
    getCovariance i_test_data false false false = Ok Ct ->
    getCovariance i_ref_data false false false = Ok Cr ->
    eigh Ct = Ok (te, T) -> eigh Cr = Ok (re, R) ->
    shape m m T -> shape m' m' R -> length te = m -> length re = m' ->
    hMethod i_test_data i_ref_data angle_units = Raise ValueError.
Proof.
  intros F Sc L Tr test ref Ct Cr te re T R u m m' Hm Hmm E1 E2 E3 E4 ST SR Lt Lr.
  unfold hMethod.
  rewrite (hMethod_total_evecs_run test ref Hm (Nat.lt_le_incl _ _ Hmm)
             E1 E2 E3 E4 ST SR Lt Lr).
  cbn [bind]. unfold angleEvecs, dot1, normalised.
  rewrite !length_map.
  assert (A1 : length (sum_axis0 (map (fun r => map2 mul r te) T)) = m).
  { apply (sum_axis0_length (n:=m)); [lia|].
    apply weighted_rows_shape; [exact ST|lia]. }
  assert (A2 : length (sum_axis0
                         (map (fun r => map2 mul (firstn m r) re ++ skipn m r) R))
               = m').
  { apply (sum_axis0_length (n:=m')); [lia|].
    apply weighted_shape; [exact SR|lia|lia]. }
  rewrite A1, A2.
  destruct (Nat.eqb_spec m' m); [lia|reflexivity].
Qed.

Lemma hMethod_more_reference_features_witness :
  @hMethod Qc Qc_scalar Qc_axes_linalg Qc_trig
           [[q 0 1; q 1 1]] [[q 0 1; q 0 1; q 1 1]] "d" = Raise ValueError.
Proof.
  apply (@hMethod_more_reference_features Qc Qc_scalar Qc_axes_linalg Qc_trig
           [[q 0 1; q 1 1]] [[q 0 1; q 0 1; q 1 1]]
           [[q 0 1; q 0 1]; [q 0 1; q 1 1]]
           [[q 0 1; q 0 1; q 0 1]; [q 0 1; q 0 1; q 0 1]; [q 0 1; q 0 1; q 1 1]]
           [q 0 1; q 1 1] [q 0 1; q 0 1; q 1 1]
           [[q 1 1; q 0 1]; [q 0 1; q 1 1]]
           [[q 1 1; q 0 1; q 0 1]; [q 0 1; q 1 1; q 0 1]; [q 0 1; q 0 1; q 1 1]]
           "d"%string 2 3).
  - lia.
  - lia.
  - apply ok_matrix_eq. vm_compute. reflexivity.
  - apply ok_matrix_eq. vm_compute. reflexivity.
  - reflexivity.
  - reflexivity.
  - split; [reflexivity|repeat constructor].
  - split; [reflexivity|repeat constructor].
  - reflexivity.
  - reflexivity.
Defined.

(** X17.  For identical test and reference data the two normalised total
    eigenvectors of [hMethod] are the same vector, and the angle is the one
    [angleEvecs] gives for that vector against itself. *)
Theorem hMethod_same_data :
  forall (F : Type) (Sc : Scalar F) (L : Linalg F) (Tr : Trig F)
         (i_data : matrix F) (angle_units : string)
         (total_test_evec total_ref_evec : list F),
    hMethod_total_evecs i_data i_data = Ok (total_test_evec, total_ref_evec) ->
    total_test_evec = total_ref_evec /\
    hMethod i_data i_data angle_units
    = angleEvecs total_test_evec total_test_evec angle_units.
Proof.
  intros F Sc L Tr D u t r E.
  assert (Q : t = r).
  { unfold hMethod_total_evecs in E.
    destruct (getCovariance D false false false) as [C|e]; cbn [bind] in E;
      [|discriminate].
    destruct (eigh C) as [[ev V]|e]; cbn [bind] in E; [|discriminate].
    destruct (row_at V 0) as [r0|e]; cbn [bind] in E; [|discriminate].
    destruct (weight_loop (seq 0 (length r0)) ev ev V V) as [[A B]|e] eqn:W;
      cbn [bind] in E; [|discriminate].
    apply weight_loop_same in W. subst B.
    injection E as <- <-. reflexivity. }
  split; [exact Q|].
  unfold hMethod. rewrite E. cbn [bind]. rewrite <- Q. reflexivity.
Qed.

Lemma hMethod_same_data_witness :
  [q 0 1; q 1 1] = [q 0 1; q 1 1] /\
  @hMethod Qc Qc_scalar Qc_linalg Qc_trig unit_vector unit_vector "d"
  = @angleEvecs Qc Qc_scalar Qc_trig [q 0 1; q 1 1] [q 0 1; q 1 1] "d".
Proof.
  apply (@hMethod_same_data Qc Qc_scalar Qc_linalg Qc_trig unit_vector
           "d"%string [q 0 1; q 1 1] [q 0 1; q 1 1]).
  apply ok_vectors_eq. vm_compute. reflexivity.
Defined.

(** X18.  The unit of the angle: when [hMethod] returns the angle [a] in
    radians, it returns [a * (180 / pi)] for the units "d" and "D", [a]
    for "R", and raises the units error for every unit that is neither "d"
    nor "r" in lower case. *)
Theorem hMethod_angle_units :
  forall (F : Type) (Sc : Scalar F) (L : Linalg F) (Tr : Trig F)
         (i_test_data i_ref_data : matrix F) (a : F),
    hMethod i_test_data i_ref_data "r" = Ok a ->
    hMethod i_test_data i_ref_data "d" = Ok (mul a (div (of_Z 180) pi)) /\
    hMethod i_test_data i_ref_data "D" = Ok (mul a (div (of_Z 180) pi)) /\
    hMethod i_test_data i_ref_data "R" = Ok a /\
    (forall angle_units : string,
        lower angle_units <> "d"%string -> lower angle_units <> "r"%string ->
        hMethod i_test_data i_ref_data angle_units = Raise UnitsError).
Proof.
  intros F Sc L Tr test ref a E. unfold hMethod in *.
  destruct (hMethod_total_evecs test ref) as [[t r]|e]; cbn [bind] in *;
    [|discriminate].
  unfold angleEvecs in *.
  destruct (dot1 r t) as [x|e]; cbn [bind] in *; [|discriminate].
  destruct (acos x) as [y|e]; cbn [bind] in *; [|discriminate].
  change (String.eqb (lower "r") "d") with false in E.
  change (String.eqb (lower "r") "r") with true in E.
  injection E as ->.
  repeat apply conj; try reflexivity.
  intros u Nd Nr.
  destruct (String.eqb_spec (lower u) "d"); [contradiction|].
  destruct (String.eqb_spec (lower u) "r"); [contradiction|].
  reflexivity.
Qed.

Lemma hMethod_angle_units_witness :
  @hMethod Qc Qc_scalar Qc_linalg Qc_trig unit_vector unit_vector "d"
  = Ok (mul (q 0 1) (div (of_Z 180) (@pi Qc Qc_trig))) /\
  @hMethod Qc Qc_scalar Qc_linalg Qc_trig unit_vector unit_vector "D"
  = Ok (mul (q 0 1) (div (of_Z 180) (@pi Qc Qc_trig))) /\
  @hMethod Qc Qc_scalar Qc_linalg Qc_trig unit_vector unit_vector "R"
  = Ok (q 0 1) /\
  (forall angle_units : string,
      lower angle_units <> "d"%string -> lower angle_units <> "r"%string ->
      @hMethod Qc Qc_scalar Qc_linalg Qc_trig unit_vector unit_vector angle_units
      = Raise UnitsError).
Proof.
  apply (@hMethod_angle_units Qc Qc_scalar Qc_linalg Qc_trig
           unit_vector unit_vector (q 0 1)).
  apply ok_scalar_eq. vm_compute. reflexivity.
Defined.

(** ** The reference file between [storeReferenceData] and [implementPCA] *)

Ltac decide_markers :=
  repeat (match goal with
          | |- context [contains ?m ?r] =>
              let b := eval vm_compute in (contains m r) in
              match b with
              | true => change (contains m r) with true
              | false => change (contains m r) with false
              end
          end; cbn [bind next]).

Section StoredReference.
Context {F : Type} `{FloatRead F} `{FloatShow F} `{!FloatText F}.

Lemma parse_reference_lines (mean_vector stddev_vector : list F) (flag : bool)
      (eigenvalues : list F) (eigenvectors : matrix F) :
  mean_vector <> [] -> stddev_vector <> [] -> eigenvalues <> [] ->
  Forall (fun r => r <> []) eigenvectors ->
  parse_reference
    (reference_lines mean_vector stddev_vector flag eigenvalues eigenvectors)
  = Ok {| avgvec := Some mean_vector; stddev := Some stddev_vector;
          corr_matrix := Some (str_bool flag); evals := Some eigenvalues;
          evecs := eigenvectors |}.
Proof.
  intros Nm Ns Ne Nv.
  unfold parse_reference. rewrite reference_lines_layout. cbn [length].
  rewrite parse_loop_step, parse_body_avg with (v := mean_vector);
    [ | apply parse_row_writerow; exact Nm | apply contains_writerow; reflexivity ].
  cbn [bind avgvec stddev corr_matrix evals evecs].
  rewrite parse_loop_step, parse_body_std with (v := stddev_vector);
    [ | apply parse_row_writerow; exact Ns | apply contains_writerow; reflexivity ].
  cbn [bind avgvec stddev corr_matrix evals evecs].
  rewrite parse_loop_step, parse_body_flag.
  cbn [bind avgvec stddev corr_matrix evals evecs].
  rewrite parse_loop_step, parse_body_evals with (v := eigenvalues);
    [ | apply parse_row_writerow; exact Ne | apply contains_writerow; reflexivity ].
  cbn [bind avgvec stddev corr_matrix evals evecs].
  rewrite parse_loop_step, parse_body_evecs with (vs := eigenvectors);
    [ | apply printed_rows_read_back; exact Nv ].
  cbn [bind avgvec stddev corr_matrix evals evecs app].
  destruct (length _); reflexivity.
Qed.

Lemma read_evecs_truncated (rows : list string) (vs : list (list F)) :
  Forall2 (fun r v => parse_row r = Ok v /\ contains "ENDEVECS" r = false) rows vs ->
  forall (row : string) (f : list string) (acc : list (list F)),
    rows = row :: f -> read_evecs row f acc = Raise StopIteration.
Proof.
  induction 1 as [|r v rows vs [P C] A IH]; intros row f acc E; [discriminate|].
  injection E as -> ->. destruct f as [|row' f'].
  - cbn [read_evecs]. rewrite C, P. reflexivity.
  - cbn [read_evecs]. rewrite C, P. cbn [bind]. apply IH. reflexivity.
Qed.

Lemma parse_body_evecs_truncated (rows : list string) (vs : list (list F))
      (st : reference F) :
  Forall2 (fun r v => parse_row r = Ok v /\ contains "ENDEVECS" r = false) rows vs ->
  parse_body "BEGINEVECS" rows st = Raise StopIteration.
Proof.
  intros A. unfold parse_body. decide_markers.
  destruct rows as [|row f]; [reflexivity|].
  cbn [next bind]. rewrite (read_evecs_truncated A (evecs st) eq_refl).
  reflexivity.
Qed.

Lemma parse_reference_truncated (mean_vector stddev_vector : list F) (flag : bool)
      (eigenvalues : list F) (eigenvectors : matrix F) :
  mean_vector <> [] -> stddev_vector <> [] -> eigenvalues <> [] ->
  Forall (fun r => r <> []) eigenvectors ->
  parse_reference
    (removelast
       (reference_lines mean_vector stddev_vector flag eigenvalues eigenvectors))
  = Raise StopIteration.
Proof.
  intros Nm Ns Ne Nv.
  assert (E : removelast
                (reference_lines mean_vector stddev_vector flag eigenvalues
                                 eigenvectors)
              = "BEGINAVGVECTOR"%string :: writerow (map string_of_float mean_vector)
                :: "ENDAVGVECTOR"%string
                :: "BEGINSTANDDEV"%string :: writerow (map string_of_float stddev_vector)
                :: "ENDSTANDDEV"%string
                :: "ISCORRMATRIX"%string :: str_bool flag :: "ENDCORRMATRIX"%string
                :: "BEGINEVALS"%string :: writerow (map string_of_float eigenvalues)
                :: "ENDEVALS"%string
                :: "BEGINEVECS"%string
                :: map (fun r => writerow (map string_of_float r)) eigenvectors).
  { unfold reference_lines. rewrite app_assoc. rewrite removelast_last.
    destruct flag; reflexivity. }
  rewrite E. unfold parse_reference. cbn [length].
  rewrite parse_loop_step, parse_body_avg with (v := mean_vector);
    [ | apply parse_row_writerow; exact Nm | apply contains_writerow; reflexivity ].
  cbn [bind avgvec stddev corr_matrix evals evecs].
  rewrite parse_loop_step, parse_body_std with (v := stddev_vector);
    [ | apply parse_row_writerow; exact Ns | apply contains_writerow; reflexivity ].
  cbn [bind avgvec stddev corr_matrix evals evecs].
  rewrite parse_loop_step, parse_body_flag.
  cbn [bind avgvec stddev corr_matrix evals evecs].
  rewrite parse_loop_step, parse_body_evals with (v := eigenvalues);
    [ | apply parse_row_writerow; exact Ne | apply contains_writerow; reflexivity ].
  cbn [bind avgvec stddev corr_matrix evals evecs].
  rewrite parse_loop_step,
    parse_body_evecs_truncated with (vs := eigenvectors);
    [ | apply printed_rows_read_back; exact Nv ].
  reflexivity.
Qed.

End StoredReference.

Section UnmarkedLines.
Context {F : Type} `{FloatRead F}.

Lemma parse_body_unmarked (row : string) (f : list string) (st : reference F) :
  contains "BEGINAVGVECTOR" row = false ->
  contains "BEGINSTANDDEV" row = false ->
  contains "ISCORRMATRIX" row = false ->
  contains "BEGINEVALS" row = false ->
  contains "BEGINEVECS" row = false ->
  parse_body row f st = Ok (row, f, st).
Proof.
  intros C1 C2 C3 C4 C5. unfold parse_body.
  rewrite C1. cbn [bind]. rewrite C2. cbn [bind]. rewrite C3. cbn [bind].
  rewrite C4. cbn [bind]. rewrite C5. reflexivity.
Qed.

End UnmarkedLines.

Section Pipeline.
Context {F : Type} `{Scalar F} `{Linalg F} `{FloatRead F} `{FloatShow F}
        `{!FloatText F}.

Lemma std_axis0_length (M : matrix F) : length (std_axis0 M) = ncols M.
Proof.
  unfold std_axis0. rewrite map2_length, length_seq, mean_axis0_length.
  apply Nat.min_id.
Qed.

Lemma shape_rows_nonempty (m p : nat) (V : matrix F) :
  1 <= p -> shape m p V -> Forall (fun r => r <> []) V.
Proof.
  intros Hp [_ A]. eapply Forall_impl; [|exact A].
  intros r Lr E. subst r. simpl in Lr. lia.
Qed.

Lemma nonempty_length {A : Type} (l : list A) : 1 <= length l -> l <> [].
Proof. destruct l; simpl; [lia|discriminate]. Qed.

End Pipeline.

Lemma stored_reference_scores :
  forall (F : Type) (Sc : Scalar F) (L : Linalg F)
         (R : FloatRead F) (Sh : FloatShow F) (T : FloatText F)
         (i_reference i_test : matrix F) (corr : bool)
         (cov_matrix : matrix F) (eigenvalues : list F) (eigenvectors : matrix F)
         (n m k p : nat),
    1 <= n -> 1 <= m -> 1 <= k -> 1 <= p ->
    shape n m i_reference -> shape k m i_test ->
    getCovariance i_reference corr true true = Ok cov_matrix ->
    getEigen cov_matrix = Ok (eigenvalues, eigenvectors) ->
    eigenvalues <> [] -> shape m p eigenvectors ->
    exists reference_file : list string,
      storeReferenceData i_reference corr = Ok reference_file /\
      implementPCA reference_file i_test
      = Ok (product
              (map (fun r =>
                      if corr
                      then map2 div (map2 sub r (mean_axis0 i_reference))
                                (std_axis0 i_reference)
                      else map2 sub r (mean_axis0 i_reference))
                   i_test)
              eigenvectors p).
Proof.
  intros F Sc L R Sh T D test corr C ev V n m k p Hn Hm Hk Hp SD ST EC EE Ne SV.
  exists (reference_lines (mean_axis0 D) (std_axis0 D) corr ev V).
  split.
  { unfold storeReferenceData. cbv zeta. rewrite EC. cbn [bind].
    rewrite EE. reflexivity. }
  assert (Lm : length (mean_axis0 D) = m).
  { rewrite mean_axis0_length. apply (ncols_shape Hn SD). }
  assert (Ls : length (std_axis0 D) = m).
  { rewrite std_axis0_length. apply (ncols_shape Hn SD). }
  unfold implementPCA.
  rewrite parse_reference_lines;
    [ | apply nonempty_length; lia | apply nonempty_length; lia | exact Ne
      | apply (shape_rows_nonempty Hp SV) ].
  cbn [bind]. unfold score. cbv zeta.
  cbn [bind bound avgvec stddev corr_matrix evals evecs].
  destruct (@broadcast_rows _ _ sub _ _ _ _ Hk ST Lm) as [B1 S1].
  rewrite (as_array_shape Hm SV).
  destruct corr.
  - change (contains "True" (str_bool true)) with true. cbv iota.
    rewrite B1. cbn [bind].
    destruct (@broadcast_rows _ _ div _ _ _ _ Hk S1 Ls) as [B2 S2].
    rewrite B2. cbn [bind].
    rewrite (dot_product Hk Hm S2 SV). rewrite map_map. reflexivity.
  - change (contains "True" (str_bool false)) with false. cbv iota.
    rewrite B1. cbn [bind].
    rewrite (dot_product Hk Hm S1 SV). reflexivity.
Qed.

(** X19.  Fit and score.  When [storeReferenceData] finds the covariance
    (or correlation) matrix of an [n x m] reference dataset and [getEigen]
    gives [m x p] eigenvectors, it writes a reference file from which
    [implementPCA] scores a test dataset of [m] features as the product of
    the test data, centred on the column means of the reference data (and
    divided by its column standard deviations when [corr_matrix] is set),
    with those eigenvectors.  (Floats are written so that they read back
    exactly.) *)
Theorem implementPCA_of_storeReferenceData :
  forall (F : Type) (Sc : Scalar F) (L : Linalg F)
         (R : FloatRead F) (Sh : FloatShow F) (T : FloatText F)
         (i_reference i_test : matrix F) (corr : bool)
         (cov_matrix : matrix F) (eigenvalues : list F) (eigenvectors : matrix F)
         (n m k p : nat),
    1 <= n -> 1 <= m -> 1 <= k -> 1 <= p ->
    shape n m i_reference -> shape k m i_test ->
    getCovariance i_reference corr true true = Ok cov_matrix ->
    getEigen cov_matrix = Ok (eigenvalues, eigenvectors) ->
    eigenvalues <> [] -> shape m p eigenvectors ->
    exists reference_file : list string,
      storeReferenceData i_reference corr = Ok reference_file /\
      implementPCA reference_file i_test
      = Ok (product
              (map (fun r =>
                      if corr
                      then map2 div (map2 sub r (mean_axis0 i_reference))
                                (std_axis0 i_reference)
                      else map2 sub r (mean_axis0 i_reference))
                   i_test)
              eigenvectors p).
Proof.
  intros F Sc L R Sh T D test corr C ev V n m k p Hn Hm Hk Hp SD ST EC EE Ne SV.
  apply (@stored_reference_scores F Sc L R Sh T D test corr C ev V n m k p);
    assumption.
Qed.

Lemma implementPCA_of_storeReferenceData_witness :
  exists reference_file : list string,
    @storeReferenceData Z Z_scalar Z_linalg Z_show [[0; 0]; [2; 0]]%Z false
    = Ok reference_file /\
    @implementPCA Z Z_scalar Z_read reference_file [[5; 7]]%Z
    = Ok (product
            (map (fun r =>
                    if false
                    then map2 div (map2 sub r (mean_axis0 [[0; 0]; [2; 0]]%Z))
                              (std_axis0 [[0; 0]; [2; 0]]%Z)
                    else map2 sub r (mean_axis0 [[0; 0]; [2; 0]]%Z))
                 [[5; 7]]%Z)
            [[1; 0]; [0; 1]]%Z 2).
Proof.
  apply (@implementPCA_of_storeReferenceData Z Z_scalar Z_linalg Z_read Z_show
           Z_text [[0; 0]; [2; 0]]%Z [[5; 7]]%Z false
           [[2; 0]; [0; 0]]%Z [2; 0]%Z [[1; 0]; [0; 1]]%Z 2 2 1 2).
  - lia.
  - lia.
  - lia.
  - lia.
  - split; [reflexivity|repeat constructor].
  - split; [reflexivity|repeat constructor].
  - vm_compute. reflexivity.
  - vm_compute. reflexivity.
  - discriminate.
  - split; [reflexivity|repeat constructor].
Defined.

(** X20.  Lines that hold none of the five opening markers and come before
    the rest of a reference file are skipped: the parse of [implementPCA]
    gives the same result with and without them. *)
Theorem parse_reference_skips_unmarked_lines :
  forall (F : Type) (R : FloatRead F) (unmarked reference_file : list string),
    Forall (fun row => contains "BEGINAVGVECTOR" row = false /\
                       contains "BEGINSTANDDEV" row = false /\
                       contains "ISCORRMATRIX" row = false /\
                       contains "BEGINEVALS" row = false /\
                       contains "BEGINEVECS" row = false) unmarked ->
    @parse_reference F R (unmarked ++ reference_file)
    = parse_reference reference_file.
Proof.
  intros F R unmarked lines A.
  induction A as [|row rows [C1 [C2 [C3 [C4 C5]]]] A IH]; [reflexivity|].
  rewrite <- IH. unfold parse_reference. cbn [app length].
  rewrite parse_loop_step. rewrite parse_body_unmarked by assumption.
  reflexivity.
Qed.

Lemma parse_reference_skips_unmarked_lines_witness :
  @parse_reference Qc Qc_read
    (["reference of 2017"; ""]%string ++ stored_reference)
  = parse_reference stored_reference.
Proof.
  apply (@parse_reference_skips_unmarked_lines Qc Qc_read).
  repeat constructor.
Defined.

(** X21.  A reference file cut off before its last line (the one that
    closes the eigenvector section) makes [implementPCA] raise
    [StopIteration]: the parse reads past the end of the file. *)
Theorem implementPCA_truncated_reference :
  forall (F : Type) (Sc : Scalar F) (R : FloatRead F) (Sh : FloatShow F)
         (T : FloatText F)
         (mean_vector stddev_vector : list F) (flag : bool)
         (eigenvalues : list F) (eigenvectors : matrix F) (dataset : matrix F),
    mean_vector <> [] -> stddev_vector <> [] -> eigenvalues <> [] ->
    Forall (fun r => r <> []) eigenvectors ->
    implementPCA
      (removelast
         (reference_lines mean_vector stddev_vector flag eigenvalues eigenvectors))
      dataset
    = Raise StopIteration.
Proof.
  intros F Sc R Sh T mu sd flag ev V D Nm Ns Ne Nv.
  unfold implementPCA.
  rewrite (parse_reference_truncated flag Nm Ns Ne Nv). reflexivity.
Qed.

Lemma implementPCA_truncated_reference_witness :
  @implementPCA Z Z_scalar Z_read
    (removelast (reference_lines [3; 4]%Z [2; 2]%Z false [5; 1]%Z
                                 [[1; 0]; [0; 1]]%Z))
    [[1; 2]]%Z
  = Raise StopIteration.
Proof.
  apply (@implementPCA_truncated_reference Z Z_scalar Z_read Z_show Z_text).
  - discriminate.
  - discriminate.
  - discriminate.
  - repeat constructor; discriminate.
Defined.

(** ** Test case identifiers *)

Lemma string_append_assoc (a b c : string) :
  String.append (String.append a b) c = String.append a (String.append b c).
Proof. induction a as [|x a IH]; simpl; [reflexivity|]. rewrite IH. reflexivity. Qed.

Lemma string_append_empty (a : string) : String.append a "" = a.
Proof. induction a as [|x a IH]; simpl; [reflexivity|]. rewrite IH. reflexivity. Qed.

Lemma string_length_append (a b : string) :
  String.length (String.append a b) = String.length a + String.length b.
Proof. induction a as [|x a IH]; simpl; [reflexivity|]. rewrite IH. reflexivity. Qed.

Lemma substring_front (a b : string) :
  substring 0 (String.length a) (String.append a b) = a.
Proof.
  induction a as [|x a IH]; simpl.
  - destruct b; reflexivity.
  - rewrite IH. reflexivity.
Qed.

Lemma substring_back (a b : string) :
  substring (String.length a) (String.length b) (String.append a b) = b.
Proof.
  induction a as [|x a IH]; simpl; [|exact IH].
  induction b as [|y b IHb]; simpl; [reflexivity|]. rewrite IHb. reflexivity.
Qed.

Lemma endswith_append (a suffix : string) :
  endswith suffix (String.append a suffix) = true.
Proof.
  unfold endswith. rewrite string_length_append.
  destruct (Nat.leb_spec (String.length suffix)
                         (String.length a + String.length suffix)); [|lia].
  replace (String.length a + String.length suffix - String.length suffix)
    with (String.length a) by lia.
  rewrite substring_back. apply String.eqb_refl.
Qed.

Lemma starred_without_dot (s : string) :
  all_chars (fun c => negb (Ascii.eqb c ".")) s = true ->
  all_chars (fun c => negb (Ascii.eqb c "."))
            (if negb (truthy s) then "*"%string else s) = true.
Proof. intros A. destruct (negb (truthy s)); [reflexivity|exact A]. Qed.

Lemma unstarred (s : string) :
  s <> "*"%string ->
  (if String.eqb (if negb (truthy s) then "*"%string else s) "*"
   then ""%string
   else if negb (truthy s) then "*"%string else s) = s.
Proof.
  intros N. unfold truthy.
  destruct (String.eqb_spec s "") as [->|E]; [reflexivity|].
  cbn [negb]. destruct (String.eqb_spec s "*"); [contradiction|reflexivity].
Qed.

(** X22.  Printing an identifier and parsing the text gives the identifier
    back ("*" standing for an empty name and a final "~" for an inexact
    identifier), provided that no name holds a period or is "*" itself, and
    that the case name of an exact identifier does not end in "~". *)
Theorem Parse_of_str :
  forall self i : SigQCTestCaseID,
    all_chars (fun c => negb (Ascii.eqb c ".")) (_productname i) = true ->
    all_chars (fun c => negb (Ascii.eqb c ".")) (_testname i) = true ->
    all_chars (fun c => negb (Ascii.eqb c ".")) (_casename i) = true ->
    _productname i <> "*"%string -> _testname i <> "*"%string ->
    _casename i <> "*"%string ->
    (_exact i = true -> endswith "~" (_casename i) = false) ->
    Parse self (SigQCTestCaseID_str i) = i.
Proof.
  intros self [p t c e] Dp Dt Dc Np Nt Nc Ne. cbn [_productname _testname
    _casename _exact] in *.
  unfold SigQCTestCaseID_str. cbv zeta.
  cbn [_productname _testname _casename _exact].
  set (p' := if negb (truthy p) then "*"%string else p).
  set (t' := if negb (truthy t) then "*"%string else t).
  set (c' := if negb (truthy c) then "*"%string else c).
  set (x := if Bool.eqb e false then "~"%string else ""%string).
  assert (Dx : all_chars (fun ch => negb (Ascii.eqb ch ".")) (String.append c' x) = true).
  { rewrite all_chars_append. apply andb_true_intro. split.
    - apply starred_without_dot. exact Dc.
    - unfold x. destruct e; reflexivity. }
  assert (S : split_on "."
                (String.append
                   (String.append
                      (String.append (String.append (String.append p' ".") t') ".")
                      c') x)
              = [p'; t'; String.append c' x]).
  { rewrite !string_append_assoc. cbn [String.append].
    rewrite split_on_append by (apply starred_without_dot; exact Dp).
    rewrite split_on_append by (apply starred_without_dot; exact Dt).
    rewrite split_on_without by exact Dx. reflexivity. }
  unfold Parse. cbv zeta. rewrite S. cbn [length Nat.leb nth].
  assert (C : (if endswith "~" (String.append c' x)
               then (substring 0 (String.length (String.append c' x) - 1)
                               (String.append c' x), false)
               else (String.append c' x, true))
              = (c', e)).
  { unfold x. destruct e; cbn [Bool.eqb].
    - rewrite string_append_empty.
      assert (E : endswith "~" c' = false).
      { unfold c', truthy. destruct (String.eqb_spec c "") as [->|_];
          [reflexivity|]. cbn [negb]. apply Ne. reflexivity. }
      rewrite E. reflexivity.
    - rewrite endswith_append, string_length_append. cbn [String.length].
      replace (String.length c' + 1 - 1) with (String.length c') by lia.
      rewrite substring_front. reflexivity. }
  rewrite C.
  unfold p', t', c'.
  rewrite (unstarred Np), (unstarred Nt), (unstarred Nc). reflexivity.
Qed.

Lemma Parse_of_str_witness :
  Parse {| _productname := ""; _testname := ""; _casename := ""; _exact := true |}
        (SigQCTestCaseID_str
           {| _productname := "X15"; _testname := "";
              _casename := "Start Click"; _exact := false |})
  = {| _productname := "X15"; _testname := "";
       _casename := "Start Click"; _exact := false |}.
Proof.
  apply Parse_of_str; try reflexivity; try discriminate.
Defined.

Lemma prefix_longer (a b : string) :
  String.length b < String.length a -> prefix a b = false.
Proof.
  revert b. induction a as [|x a IH]; intros b L.
  - simpl in L. lia.
  - destruct b as [|y b]; simpl in *; [reflexivity|].
    destruct (ascii_dec x y); [apply IH; lia|reflexivity].
Qed.

Lemma prefix_same_length (a b : string) :
  String.length a = String.length b -> prefix a b = String.eqb a b.
Proof.
  revert b. induction a as [|x a IH]; intros b L.
  - destruct b; [reflexivity|discriminate].
  - destruct b as [|y b]; [discriminate|]. simpl in *.
    destruct (ascii_dec x y) as [->|N].
    + rewrite Ascii.eqb_refl. apply IH. lia.
    + destruct (Ascii.eqb_spec x y); [contradiction|reflexivity].
Qed.

Lemma contains_shorter (needle hay : string) :
  String.length hay < String.length needle -> contains needle hay = false.
Proof.
  induction hay as [|y hay IH]; intros L.
  - cbn [contains]. rewrite prefix_longer by exact L. reflexivity.
  - cbn [contains]. rewrite prefix_longer by exact L. apply IH.
    simpl in L. lia.
Qed.

Lemma contains_same_length (a b : string) :
  String.length a = String.length b -> contains a b = String.eqb a b.
Proof.
  intros L. destruct b as [|y b].
  - cbn [contains]. rewrite prefix_same_length by exact L.
    destruct (String.eqb a ""); reflexivity.
  - cbn [contains]. rewrite prefix_same_length by exact L.
    rewrite contains_shorter by (simpl in L; lia).
    destruct (String.eqb a (String y b)); reflexivity.
Qed.

Lemma lesser_in_sym (a b : string) : lesser_in a b = lesser_in b a.
Proof.
  unfold lesser_in.
  destruct (Nat.ltb_spec (String.length b) (String.length a)) as [L|L];
    destruct (Nat.ltb_spec (String.length a) (String.length b)) as [L'|L'];
    try reflexivity; try lia.
  rewrite !contains_same_length by lia. apply String.eqb_sym.
Qed.

Lemma SigQCTestCaseID_eq_sym (a b : SigQCTestCaseID) :
  SigQCTestCaseID_eq a b = SigQCTestCaseID_eq b a.
Proof.
  unfold SigQCTestCaseID_eq.
  rewrite (String.eqb_sym (_productname a)), (String.eqb_sym (_testname a)),
    (String.eqb_sym (_casename a)).
  destruct (_exact a), (_exact b); reflexivity.
Qed.

(** X23.  [IsMatch] is symmetric: [x.IsMatch(y)] and [y.IsMatch(x)] give
    the same answer for all identifiers, exact or not. *)
Theorem IsMatch_symmetric :
  forall a b : SigQCTestCaseID, IsMatch a b = IsMatch b a.
Proof.
  intros a b. unfold IsMatch. cbv zeta.
  destruct (IsExact a), (IsExact b); cbn [Bool.eqb andb].
  - apply SigQCTestCaseID_eq_sym.
  - reflexivity.
  - reflexivity.
  - rewrite (lesser_in_sym (_productname a)), (lesser_in_sym (_testname a)),
      (lesser_in_sym (_casename a)). reflexivity.
Qed.

Lemma contains_refl (s : string) : contains s s = true.
Proof.
  rewrite contains_same_length by reflexivity. apply String.eqb_refl.
Qed.

Lemma contains_empty (s : string) : contains "" s = true.
Proof. destruct s; reflexivity. Qed.

(** X24.  Every identifier matches itself, and the inexact identifier whose
    three names are empty matches every identifier. *)
Theorem IsMatch_reflexive_and_wildcard :
  forall (x : SigQCTestCaseID) (exact : bool),
    IsMatch x x = true /\
    IsMatch {| _productname := ""; _testname := ""; _casename := "";
               _exact := exact |} x = true.
Proof.
  intros x exact. split.
  - unfold IsMatch. cbv zeta. destruct (IsExact x); cbn [Bool.eqb andb].
    + unfold SigQCTestCaseID_eq. rewrite !String.eqb_refl.
      destruct (_exact x); reflexivity.
    + unfold lesser_in. rewrite !Nat.ltb_irrefl, !contains_refl. reflexivity.
  - unfold IsMatch. cbv zeta.
    change (IsExact {| _productname := ""; _testname := ""; _casename := "";
                       _exact := exact |}) with false.
    cbn [Bool.eqb andb _productname _testname _casename].
    destruct (IsExact x); cbn [Bool.eqb].
    + reflexivity.
    + unfold lesser_in. cbn [String.length].
      rewrite !contains_empty. reflexivity.
Qed.

(** ** The data section of an ASCII test case file *)

Section DataSection.
Context {Header : Type}.

Lemma read_units_rows (units : list (list string)) :
  Forall (fun row => 2 <= length row /\ has_field "ENDDATA" row = false) units ->
  forall (end_row : list string) (rest : list (list string))
         (row : list string) (rows : list (list string)) (n : Z)
         (serialnumbers timestamps : list string) (yvals : list (list string)),
    has_field "ENDDATA" end_row = true ->
    row :: rows = units ++ end_row :: rest ->
    read_units row rows n serialnumbers timestamps yvals
    = Ok (end_row,
          {| pending := rest; line_num := n + Z.of_nat (length units) |},
          serialnumbers ++ map (fun r => nth 0 r ""%string) units,
          timestamps ++ map (fun r => nth 1 r ""%string) units,
          yvals ++ map (skipn 2) units).
Proof.
  induction 1 as [|u units [L C] A IH];
    intros end_row rest row rows n ss ts ys E R.
  - cbn [app] in R. injection R as -> ->.
    destruct rest; cbn [read_units]; rewrite E; cbn [length map Z.of_nat];
      rewrite Z.add_0_r, !app_nil_r; reflexivity.
  - cbn [app] in R. injection R as -> ->.
    destruct (units ++ end_row :: rest) as [|row' rows'] eqn:R'.
    + destruct units; discriminate.
    + cbn [read_units]. rewrite C.
      destruct u as [|s [|t u]]; simpl in L; try lia.
      cbn [field nth_error bind].
      rewrite (IH end_row rest row' rows' (n + 1)%Z _ _ _ E (eq_sym R')).
      cbn [map nth length]. rewrite <- !app_assoc. cbn [app].
      replace (n + 1 + Z.of_nat (length units))%Z
        with (n + Z.of_nat (S (length units)))%Z by lia.
      reflexivity.
Qed.

Lemma read_units_lengths (rows : list (list string)) :
  forall (row end_row : list string) (n : Z) (r : csv_reader)
         (ss ts ss' ts' : list string) (ys ys' : list (list string)),
    read_units row rows n ss ts ys = Ok (end_row, r, ss', ts', ys') ->
    length ss' + length ys = length ys' + length ss /\
    length ts' + length ys = length ys' + length ts.
Proof.
  induction rows as [|row' rows IH]; intros row end_row n r ss ts ss' ts' ys ys' E;
    cbn [read_units] in E.
  - destruct (has_field "ENDDATA" row).
    + injection E as _ _ <- <- <-. lia.
    + destruct (field row 0); cbn [bind] in E; [|discriminate].
      destruct (field row 1); cbn [bind] in E; discriminate.
  - destruct (has_field "ENDDATA" row).
    + injection E as _ _ <- <- <-. lia.
    + destruct (field row 0); cbn [bind] in E; [|discriminate].
      destruct (field row 1); cbn [bind] in E; [|discriminate].
      apply IH in E. rewrite !length_app in E. simpl in E. lia.
Qed.

End DataSection.

Lemma as_array_rows {A : Type} (width : nat) (rows : list (list A)) :
  Forall (fun r => length r = width) rows -> as_array rows = Ok rows.
Proof.
  intros W. unfold as_array.
  assert (B : forallb (fun r => length r =? ncols rows) rows = true).
  { destruct rows as [|r0 rows]; [reflexivity|].
    inversion W as [|r0' rows' L0 W']; subst r0' rows'.
    apply forallb_forall. intros r Hr. apply Nat.eqb_eq.
    rewrite Forall_forall in W. rewrite (W r Hr). cbn [ncols].
    symmetry. exact L0. }
  rewrite B. reflexivity.
Qed.

Lemma as_array_ragged {A : Type} (r0 r1 : list A) (before after : list (list A)) :
  length r1 <> length r0 ->
  as_array (r0 :: before ++ r1 :: after) = Raise ValueError.
Proof.
  intros N. unfold as_array.
  assert (B : forallb (fun r => length r =? ncols (r0 :: before ++ r1 :: after))
                      (r0 :: before ++ r1 :: after) = false).
  { cbn [ncols forallb]. rewrite Nat.eqb_refl. cbn [andb].
    rewrite forallb_app. cbn [forallb].
    destruct (Nat.eqb_spec (length r1) (length r0)); [contradiction|].
    cbn [andb]. apply andb_false_r. }
  rewrite B. reflexivity.
Qed.

Lemma as_array_same {A : Type} (rows rows' : list (list A)) :
  as_array rows = Ok rows' -> rows' = rows.
Proof.
  unfold as_array. destruct (forallb _ rows); [|discriminate].
  intros E. injection E as <-. reflexivity.
Qed.

Lemma unit_rows_values (width : nat) (units : list (list string)) :
  Forall (fun row => length row = width /\ has_field "ENDDATA" row = false) units ->
  Forall (fun r => length r = width - 2) (map (skipn 2) units).
Proof.
  intros A. rewrite Forall_map. eapply Forall_impl; [|exact A].
  intros r [L _]. cbv beta. rewrite length_skipn, L. reflexivity.
Qed.

Lemma unit_rows_fields (width : nat) (units : list (list string)) :
  2 <= width ->
  Forall (fun row => length row = width /\ has_field "ENDDATA" row = false) units ->
  Forall (fun row => 2 <= length row /\ has_field "ENDDATA" row = false) units.
Proof.
  intros W A. eapply Forall_impl; [|exact A].
  intros r [L C]. cbv beta. rewrite L. split; assumption.
Qed.

(** X25.  Reading a data section.  When the reader stands on the column
    names, followed by rows of one common number of fields, at least two,
    that do not hold "ENDDATA", by a row that holds "ENDDATA" and by one
    more row, [SigQCAsciiMatrix.read] on a new object takes the serial
    numbers and the time stamps from the first two fields of each row and
    the values from the rest, the domain from the column names after the
    second, and leaves the reader behind the row that follows "ENDDATA". *)
Theorem SigQCAsciiMatrix_read_section :
  forall (Header : Type) (i_header : Header)
         (names : list string) (units : list (list string))
         (end_row after : list string) (rest : list (list string)) (n : Z)
         (width : nat),
    2 <= width ->
    Forall (fun row => length row = width /\ has_field "ENDDATA" row = false)
           units ->
    has_field "ENDDATA" end_row = true ->
    SigQCAsciiMatrix_read (SigQCAsciiMatrix_new Header) i_header
      {| pending := names :: units ++ end_row :: after :: rest; line_num := n |}
    = Ok ({| _line := n + Z.of_nat (length units) + 3;
             _serialnumbers := map (fun r => nth 0 r ""%string) units;
             _timestamps := map (fun r => nth 1 r ""%string) units;
             _xvalues := skipn 2 names;
             _yvalues := map (skipn 2) units;
             _header := Some i_header |},
          {| pending := rest; line_num := n + Z.of_nat (length units) + 3 |}).
Proof.
  intros Header hdr names units end_row after rest n width W A E.
  pose proof (unit_rows_fields W A) as A2.
  unfold SigQCAsciiMatrix_read. cbv zeta.
  unfold next_row at 1. cbn [pending line_num bind].
  destruct (units ++ end_row :: after :: rest) as [|row rows] eqn:R.
  { destruct units; discriminate. }
  unfold next_row at 1. cbn [pending line_num bind].
  rewrite (@read_units_rows units A2 end_row (after :: rest) row rows
             (n + 1 + 1)%Z
             (_serialnumbers (SigQCAsciiMatrix_new Header))
             (_timestamps (SigQCAsciiMatrix_new Header)) [] E (eq_sym R)).
  cbn [bind app].
  rewrite (as_array_rows (unit_rows_values A)). cbn [bind].
  unfold next_row. cbn [pending line_num bind].
  cbn [SigQCAsciiMatrix_new _serialnumbers _timestamps app].
  replace (n + 1 + 1 + Z.of_nat (length units) + 1)%Z
    with (n + Z.of_nat (length units) + 3)%Z by lia.
  reflexivity.
Qed.

Lemma SigQCAsciiMatrix_read_section_witness :
  SigQCAsciiMatrix_read (SigQCAsciiMatrix_new unit) tt
    {| pending := ["Serial"; "Time"; "10"; "20"]%string
                  :: [["A1"; "09:00"; "1.5"; "2.5"]%string;
                      ["A2"; "09:05"; "3.5"; "4.5"]%string]
                  ++ ["ENDDATA"%string] :: [] :: [["BEGINLIMITS"%string]];
       line_num := 12 |}
  = Ok ({| _line := 12 + Z.of_nat (length [["A1"; "09:00"; "1.5"; "2.5"]%string;
                                           ["A2"; "09:05"; "3.5"; "4.5"]%string]) + 3;
           _serialnumbers := map (fun r => nth 0 r ""%string)
                                 [["A1"; "09:00"; "1.5"; "2.5"]%string;
                                  ["A2"; "09:05"; "3.5"; "4.5"]%string];
           _timestamps := map (fun r => nth 1 r ""%string)
                              [["A1"; "09:00"; "1.5"; "2.5"]%string;
                               ["A2"; "09:05"; "3.5"; "4.5"]%string];
           _xvalues := skipn 2 ["Serial"; "Time"; "10"; "20"]%string;
           _yvalues := map (skipn 2) [["A1"; "09:00"; "1.5"; "2.5"]%string;
                                      ["A2"; "09:05"; "3.5"; "4.5"]%string];
           _header := Some tt |},
        {| pending := [["BEGINLIMITS"%string]];
           line_num := 12 + Z.of_nat (length [["A1"; "09:00"; "1.5"; "2.5"]%string;
                                              ["A2"; "09:05"; "3.5"; "4.5"]%string]) + 3 |}).
Proof.
  apply (@SigQCAsciiMatrix_read_section unit tt
           ["Serial"; "Time"; "10"; "20"]%string
           [["A1"; "09:00"; "1.5"; "2.5"]%string;
            ["A2"; "09:05"; "3.5"; "4.5"]%string]
           ["ENDDATA"%string] [] [["BEGINLIMITS"%string]] 12%Z 4).
  - lia.
  - repeat constructor.
  - reflexivity.
Defined.

(** X26.  The end of the file after "ENDDATA".  For a data section whose
    "ENDDATA" row is the last row of the file, [SigQCAsciiMatrix.read]
    does not return: when the rows of the units have one common number of
    fields (at least two) it reads one more row after "ENDDATA" and raises
    [StopIteration]; when a later row has another number of fields than
    the first, [np.array] raises [ValueError] before that. *)
Theorem SigQCAsciiMatrix_read_needs_row_after_ENDDATA :
  forall (Header : Type) (i_header : Header)
         (names : list string) (units : list (list string))
         (end_row : list string) (n : Z),
    Forall (fun row => 2 <= length row /\ has_field "ENDDATA" row = false) units ->
    has_field "ENDDATA" end_row = true ->
    (forall width : nat,
        Forall (fun row => length row = width) units ->
        SigQCAsciiMatrix_read (SigQCAsciiMatrix_new Header) i_header
          {| pending := names :: units ++ [end_row]; line_num := n |}
        = Raise StopIteration) /\
    (forall (first other : list string) (before after : list (list string)),
        units = first :: before ++ other :: after ->
        length other <> length first ->
        SigQCAsciiMatrix_read (SigQCAsciiMatrix_new Header) i_header
          {| pending := names :: units ++ [end_row]; line_num := n |}
        = Raise ValueError).
Proof.
  intros Header hdr names units end_row n A E.
  assert (U : SigQCAsciiMatrix_read (SigQCAsciiMatrix_new Header) hdr
                {| pending := names :: units ++ [end_row]; line_num := n |}
              = (yvalues <- as_array (map (skipn 2) units) ;;
                 (Raise StopIteration
                  : result (SigQCAsciiMatrix Header * csv_reader)))).
  { unfold SigQCAsciiMatrix_read. cbv zeta.
    unfold next_row at 1. cbn [pending line_num bind].
    destruct (units ++ [end_row]) as [|row rows] eqn:R.
    { destruct units; discriminate. }
    unfold next_row at 1. cbn [pending line_num bind].
    rewrite (@read_units_rows units A end_row [] row rows (n + 1 + 1)%Z
               (_serialnumbers (SigQCAsciiMatrix_new Header))
               (_timestamps (SigQCAsciiMatrix_new Header)) [] E (eq_sym R)).
    cbn [bind app].
    destruct (as_array (map (skipn 2) units)); reflexivity. }
  split.
  - intros width W. rewrite U.
    rewrite (as_array_rows (width := width - 2)); [reflexivity|].
    rewrite Forall_map. eapply Forall_impl; [|exact W].
    intros r L. cbv beta. rewrite length_skipn, L. reflexivity.
  - intros first other before after Eu N. rewrite U. subst units.
    cbn [map]. rewrite map_app. cbn [map].
    rewrite as_array_ragged; [reflexivity|].
    rewrite !length_skipn.
    apply Forall_inv in A as A1. destruct A1 as [L1 _].
    apply Forall_inv_tail in A as A2.
    apply Forall_app in A2. destruct A2 as [_ A2].
    apply Forall_inv in A2. destruct A2 as [L2 _]. lia.
Qed.

Lemma SigQCAsciiMatrix_read_needs_row_after_ENDDATA_witness :
  (forall width : nat,
      Forall (fun row => length row = width)
             [["A1"; "09:00"; "1.5"]%string; ["A2"; "09:05"; "2.5"]%string] ->
      SigQCAsciiMatrix_read (SigQCAsciiMatrix_new unit) tt
        {| pending := ["Serial"; "Time"; "10"]%string
                      :: [["A1"; "09:00"; "1.5"]%string;
                          ["A2"; "09:05"; "2.5"]%string]
                      ++ [["ENDDATA"%string]];
           line_num := 0 |}
      = Raise StopIteration) /\
  (forall (first other : list string) (before after : list (list string)),
      [["A1"; "09:00"; "1.5"]%string; ["A2"; "09:05"; "2.5"]%string]
      = first :: before ++ other :: after ->
      length other <> length first ->
      SigQCAsciiMatrix_read (SigQCAsciiMatrix_new unit) tt
        {| pending := ["Serial"; "Time"; "10"]%string
                      :: [["A1"; "09:00"; "1.5"]%string;
                          ["A2"; "09:05"; "2.5"]%string]
                      ++ [["ENDDATA"%string]];
           line_num := 0 |}
      = Raise ValueError).
Proof.
  apply (@SigQCAsciiMatrix_read_needs_row_after_ENDDATA unit tt
           ["Serial"; "Time"; "10"]%string
           [["A1"; "09:00"; "1.5"]%string; ["A2"; "09:05"; "2.5"]%string]
           ["ENDDATA"%string] 0%Z).
  - repeat constructor.
  - reflexivity.
Defined.

(** X27.  Whatever the rows are, when [SigQCAsciiMatrix.read] on a new
    object returns, the object holds as many serial numbers and as many
    time stamps as rows of values. *)
Theorem SigQCAsciiMatrix_read_one_serial_per_row :
  forall (Header : Type) (i_header : Header) (i_reader r : csv_reader)
         (data : SigQCAsciiMatrix Header),
    SigQCAsciiMatrix_read (SigQCAsciiMatrix_new Header) i_header i_reader
    = Ok (data, r) ->
    length (_serialnumbers data) = length (_yvalues data) /\
    length (_timestamps data) = length (_yvalues data).
Proof.
  intros Header hdr rd r data E. unfold SigQCAsciiMatrix_read in E.
  cbv zeta in E.
  destruct (next_row rd) as [[row1 rd1]|e]; cbn [bind] in E; [|discriminate].
  destruct (next_row rd1) as [[row2 rd2]|e]; cbn [bind] in E; [|discriminate].
  destruct (read_units row2 (pending rd2) (line_num rd2)
              (_serialnumbers (SigQCAsciiMatrix_new Header))
              (_timestamps (SigQCAsciiMatrix_new Header)) [])
    as [[[[[row3 rd3] ss] ts] ys]|e] eqn:U; cbn [bind] in E; [|discriminate].
  destruct (as_array ys) as [ys'|e] eqn:Y; cbn [bind] in E; [|discriminate].
  apply as_array_same in Y. subst ys'.
  destruct (next_row rd3) as [[row4 rd4]|e]; cbn [bind] in E; [|discriminate].
  injection E as <- _. cbn [_serialnumbers _timestamps _yvalues].
  apply read_units_lengths in U. simpl in U. lia.
Qed.

Lemma SigQCAsciiMatrix_read_one_serial_per_row_witness :
  length (_serialnumbers
            {| _line := 4; _serialnumbers := ["A1"%string];
               _timestamps := ["09:00"%string]; _xvalues := ["10"%string];
               _yvalues := [["1.5"%string]]; _header := Some tt |})
  = length (_yvalues
              {| _line := 4; _serialnumbers := ["A1"%string];
                 _timestamps := ["09:00"%string]; _xvalues := ["10"%string];
                 _yvalues := [["1.5"%string]]; _header := Some tt |}) /\
  length (_timestamps
            {| _line := 4; _serialnumbers := ["A1"%string];
               _timestamps := ["09:00"%string]; _xvalues := ["10"%string];
               _yvalues := [["1.5"%string]]; _header := Some tt |})
  = length (_yvalues
              {| _line := 4; _serialnumbers := ["A1"%string];
                 _timestamps := ["09:00"%string]; _xvalues := ["10"%string];
                 _yvalues := [["1.5"%string]]; _header := Some tt |}).
Proof.
  apply (@SigQCAsciiMatrix_read_one_serial_per_row unit tt
           {| pending := [["Serial"; "Time"; "10"]%string;
                          ["A1"; "09:00"; "1.5"]%string;
                          ["ENDDATA"%string]; []];
              line_num := 0 |}
           {| pending := []; line_num := 4 |}).
  reflexivity.
Defined.

(** ** Centred scores *)

Section CentredScores.
Local Open Scope Qc_scope.

Lemma Q2Qc_inject_succ (n : nat) :
  Q2Qc (inject_Z (Z.of_nat (S n))) = Q2Qc (inject_Z (Z.of_nat n)) + 1.
Proof.
  apply Qc_is_canon. unfold Qcplus. cbn [this Q2Qc].
  rewrite !Qred_correct. rewrite Nat2Z.inj_succ. unfold Z.succ.
  rewrite inject_Z_plus. reflexivity.
Qed.

Lemma count_nonzero (n : nat) :
  (1 <= n)%nat -> Q2Qc (inject_Z (Z.of_nat n)) <> 0.
Proof.
  intros Hn E. change 0 with (Q2Qc (inject_Z 0)) in E.
  apply Q2Qc_eq_iff in E. unfold Qeq in E. simpl in E. lia.
Qed.

Lemma bigsum_minus_const (n : nat) (f : nat -> Qc) (c : Qc) :
  bigsum n (fun i => f i - c) = bigsum n f - Q2Qc (inject_Z (Z.of_nat n)) * c.
Proof.
  induction n as [|n IH].
  - rewrite !bigsum_0. change (Q2Qc (inject_Z (Z.of_nat 0))) with 0. ring.
  - rewrite !bigsum_S, IH, Q2Qc_inject_succ. ring.
Qed.

Lemma col_sum_bigsum (M : matrix Qc) (j : nat) :
  sum (col j M) = bigsum (length M) (fun i => entry M i j).
Proof.
  unfold col, bigsum, entry.
  rewrite (map_via_positions (fun r : list Qc => nth j r zero) [] M).
  reflexivity.
Qed.

Lemma mean_entry (D : matrix Qc) (n m k : nat) :
  (1 <= n)%nat -> shape n m D -> (k < m)%nat ->
  nth k (mean_axis0 D) zero = sum (col k D) / Q2Qc (inject_Z (Z.of_nat n)).
Proof.
  intros Hn S Hk. unfold mean_axis0. rewrite (ncols_shape Hn S).
  rewrite (nth_map_lt _ 0%nat zero) by (rewrite length_seq; exact Hk).
  rewrite seq_nth by exact Hk. cbn [Nat.add].
  destruct S as [L _]. unfold nrows. rewrite L. reflexivity.
Qed.

Lemma entry_centred (D : matrix Qc) (n m i k : nat) :
  (1 <= n)%nat -> shape n m D -> (i < n)%nat -> (k < m)%nat ->
  entry (centred D) i k = entry D i k - nth k (mean_axis0 D) zero.
Proof.
  intros Hn S Hi Hk. unfold entry, centred.
  rewrite (nth_map_lt _ [] []) by (destruct S as [L _]; lia).
  rewrite (nth_map2 (@sub Qc Qc_scalar) zero zero zero).
  - reflexivity.
  - rewrite (shape_row S Hi). exact Hk.
  - rewrite mean_axis0_length, (ncols_shape Hn S). exact Hk.
Qed.

Lemma centred_column_sum (D : matrix Qc) (n m k : nat) :
  (1 <= n)%nat -> shape n m D -> (k < m)%nat ->
  bigsum n (fun i => entry (centred D) i k) = 0.
Proof.
  intros Hn S Hk.
  rewrite (@bigsum_ext n (fun i => entry (centred D) i k)
             (fun i => entry D i k - nth k (mean_axis0 D) zero))
    by (intros i Hi; apply (entry_centred Hn S Hi Hk)).
  rewrite bigsum_minus_const, (mean_entry Hn S Hk), col_sum_bigsum.
  destruct S as [L _]. rewrite L.
  pose proof (count_nonzero Hn) as N. field. exact N.
Qed.

End CentredScores.

(** X28.  In exact arithmetic every column of the scores that
    [getPCScores] returns sums to zero: the scores are centred, whatever
    the eigenvector matrix is. *)
Theorem getPCScores_columns_sum_to_zero :
  forall (D : matrix Qc) (i_evals : list Qc) (E P : matrix Qc)
         (n_pcs : option nat) (n m p : nat),
    1 <= n -> 1 <= m -> shape n m D -> shape m p E ->
    getPCScores D i_evals E n_pcs = Ok P ->
    forall j : nat, j < p -> sum (col j P) = zero.
Proof.
  intros D ev E P n_pcs n m p Hn Hm SD SE G j Hj.
  rewrite (getPCScores_projection Qc_units ev n_pcs Hn Hm SD SE) in G.
  pose proof (shape_centred Hn SD) as SA.
  pose proof (dot_product Hn Hm SA SE) as DP.
  injection G as G. rewrite G in DP.
  rewrite col_sum_bigsum.
  assert (LP : length P = n).
  { rewrite <- G. unfold product. rewrite length_map. destruct SA as [L _]. exact L. }
  rewrite LP.
  rewrite (@bigsum_ext n (fun i => entry P i j)
             (fun i => bigsum m (fun k => (entry (centred D) i k * entry E k j)%Qc)))
    by (intros i Hi; apply (dot_entry Hn Hm SA SE DP Hi Hj)).
  rewrite bigsum_exchange.
  apply bigsum_zero. intros k Hk.
  rewrite (@bigsum_ext n (fun i => (entry (centred D) i k * entry E k j)%Qc)
             (fun i => (entry E k j * entry (centred D) i k)%Qc))
    by (intros i _; ring).
  rewrite bigsum_scale, (centred_column_sum Hn SD Hk). ring.
Qed.

Lemma getPCScores_columns_sum_to_zero_witness :
  sum (col 1 (product (centred square_dataset) square_evecs 2)) = zero.
Proof.
  apply (@getPCScores_columns_sum_to_zero square_dataset square_evals
           square_evecs (product (centred square_dataset) square_evecs 2)
           None 2 2 2).
  - lia.
  - lia.
  - split; [reflexivity|repeat constructor].
  - split; [reflexivity|repeat constructor].
  - apply (@getPCScores_projection Qc Qc_scalar Qc_units square_dataset
             square_evals square_evecs None 2 2 2).
    + lia.
    + lia.
    + split; [reflexivity|repeat constructor].
    + split; [reflexivity|repeat constructor].
  - lia.
Defined.

(** ** The reference dataset scored against its own reference *)

#[export] Instance Z_units : ScalarUnits Z.
Proof. split; intros x; [apply Z.add_0_l|apply Z.mul_1_l]. Qed.

(** X29.  Scoring the reference dataset itself against the covariance
    reference that [storeReferenceData] writes for it gives what
    [getPCScores] returns for that dataset and the stored eigenvectors. *)
Theorem implementPCA_reference_against_itself :
  forall (F : Type) (Sc : Scalar F) (U : ScalarUnits F) (L : Linalg F)
         (R : FloatRead F) (Sh : FloatShow F) (T : FloatText F)
         (i_reference : matrix F)
         (cov_matrix : matrix F) (eigenvalues : list F) (eigenvectors : matrix F)
         (n m p : nat),
    1 <= n -> 1 <= m -> 1 <= p ->
    shape n m i_reference ->
    getCovariance i_reference false true true = Ok cov_matrix ->
    getEigen cov_matrix = Ok (eigenvalues, eigenvectors) ->
    eigenvalues <> [] -> shape m p eigenvectors ->
    exists reference_file : list string,
      storeReferenceData i_reference false = Ok reference_file /\
      implementPCA reference_file i_reference
      = getPCScores i_reference eigenvalues eigenvectors None.
Proof.
  intros F Sc U L R Sh T D C ev V n m p Hn Hm Hp SD EC EE Ne SV.
  destruct (@stored_reference_scores F Sc L R Sh T D D false C ev V n m n p
              Hn Hm Hn Hp SD SD EC EE Ne SV) as [file [St Im]].
  exists file. split; [exact St|].
  rewrite Im. rewrite (getPCScores_projection U ev None Hn Hm SD SV).
  reflexivity.
Qed.

Lemma implementPCA_reference_against_itself_witness :
  exists reference_file : list string,
    @storeReferenceData Z Z_scalar Z_linalg Z_show [[0; 0]; [2; 0]]%Z false
    = Ok reference_file /\
    @implementPCA Z Z_scalar Z_read reference_file [[0; 0]; [2; 0]]%Z
    = getPCScores [[0; 0]; [2; 0]]%Z [2; 0]%Z [[1; 0]; [0; 1]]%Z None.
Proof.
  apply (@implementPCA_reference_against_itself Z Z_scalar Z_units Z_linalg
           Z_read Z_show Z_text [[0; 0]; [2; 0]]%Z
           [[2; 0]; [0; 0]]%Z [2; 0]%Z [[1; 0]; [0; 1]]%Z 2 2 2).
  - lia.
  - lia.
  - lia.
  - split; [reflexivity|repeat constructor].
  - vm_compute. reflexivity.
  - vm_compute. reflexivity.
  - discriminate.
  - split; [reflexivity|repeat constructor].
Defined.
